(** * Operator controller of the pipeline service: dependency graph,
      cycle detection, dependency synchronisation and operator status.

    Shallow embedding of [projects/controllers/operators.py].  The
    database session is an explicit [Store] threaded through every call;
    a Python exception is a [Raise] result that leaves the store as the
    last commit left it. *)

From stdpp Require Import gmap strings list pretty relations.

Open Scope string_scope.
Open Scope list_scope.
Open Scope nat_scope.

(** ** Values received from the request body *)

(** JSON values as they reach the controller after [request.get_json]. *)
#[warnings="-register-all"]
Inductive pyval : Type :=
  | PNone : pyval
  | PBool : bool → pyval
  | PInt : Z → pyval
  | PFloat : Z → Z → pyval
  | PStr : string → pyval
  | PList : list pyval → pyval
  | PDict : list (string * pyval) → pyval.

(** Identifiers are the strings produced by [uuid_alpha]. *)
Abbreviation uuid := string (only parsing).

(** The [dependencies] entry of a request body: either some value that is
    not a list, or a list of operator identifiers. *)
Inductive deps_payload : Type :=
  | NotAList : deps_payload
  | DepList : list uuid → deps_payload.

(** ** Exceptions and results *)

Inductive exn : Type :=
  | BadRequest : string → exn
  | NotFound : string → exn
  | KeyError : exn
  | ValueError : exn
  | AttributeError : exn
  | StatementError : exn
  | TypeError : exn
  | RecursionError : exn.

Inductive result (A : Type) : Type :=
  | Ok : A → result A
  | Raise : exn → result A.
Arguments Ok {A} _.
Arguments Raise {A} _.

(** Sequencing: an exception skips the rest of the block. *)
Global Instance result_bind : MBind result := λ A B k r,
  match r with
  | Ok a => k a
  | Raise e => Raise e
  end.

Definition is_ok {A : Type} (r : result A) : bool :=
  match r with Ok _ => true | Raise _ => false end.

(** ** Rows of the database *)

Record Operator : Type := mkOperator {
  uuid_of : uuid;
  experiment_id_of : uuid;
  task_id_of : uuid;
  parameters_of : list (string * pyval);
  position_x_of : pyval;
  position_y_of : pyval
}.

Record Dependency : Type := mkDependency {
  dep_uuid : uuid;
  dep_operator_id : uuid;
  dep_dependency : uuid
}.

Global Instance Dependency_eq_dec : EqDecision Dependency.
Proof. solve_decision. Defined.

Record ParameterDescriptor : Type := mkParameterDescriptor {
  param_name : string
}.

(** Modelled from the spec: the task model and [list_parameters] of
    [controllers/parameters.py] are not part of the sources at hand; a task
    is "a set of tags ... and a parameter schema: ordered list of parameter
    descriptors (each with a name)". *)
Record Task : Type := mkTask {
  tags : list string;
  task_parameters : list ParameterDescriptor
}.

Record Store : Type := mkStore {
  projects : list uuid;
  experiments : list uuid;
  tasks : gmap string Task;
  operators : list Operator;
  dependencies : list Dependency;
  uuid_seed : nat
}.

Definition PARAMETERS_EXCEPTION_MSG : string :=
  "The specified parameters are not valid".
Definition DEPENDENCIES_EXCEPTION_MSG : string :=
  "The specified dependencies are not valid.".
Definition CYCLICAL_MSG : string := "Cyclical dependencies.".

(** ** External collaborators *)

(** Modelled from the spec: [uuid_alpha] of [controllers/utils.py] yields
    an "opaque unique id"; the store carries the number of identifiers
    drawn so far and the next one is its decimal rendering. *)
Definition uuid_alpha (n : nat) : uuid := pretty n.

(** Modelled from the spec: [raise_if_project_does_not_exist] of
    [controllers/utils.py], "fails with NotFound if the pipeline or
    containing project is unknown". *)
Definition raise_if_project_does_not_exist (project_id : uuid) (s : Store)
  : result unit :=
  if bool_decide (project_id ∈ projects s) then Ok tt
  else Raise (NotFound "The specified project does not exist").

(** Modelled from the spec: [raise_if_experiment_does_not_exist] of
    [controllers/utils.py], the pipeline existence check. *)
Definition raise_if_experiment_does_not_exist (experiment_id : uuid) (s : Store)
  : result unit :=
  if bool_decide (experiment_id ∈ experiments s) then Ok tt
  else Raise (NotFound "The specified experiment does not exist").

(** Modelled from the spec: [raise_if_task_does_not_exist] of
    [controllers/utils.py], "getTask(taskId) ... or fails NotFound". *)
Definition raise_if_task_does_not_exist (task_id : uuid) (s : Store)
  : result unit :=
  match tasks s !! task_id with
  | Some _ => Ok tt
  | None => Raise (NotFound "The specified task does not exist")
  end.

(** [Operator.query.get(uuid)]: the row with that primary key, if any. *)
Definition get_operator (u : uuid) (s : Store) : option Operator :=
  find (λ o, bool_decide (uuid_of o = u)) (operators s).

(** Modelled from the spec: [raise_if_operator_does_not_exist] of
    [controllers/utils.py]: the referenced operator must "exist in the
    pipeline". *)
Definition raise_if_operator_does_not_exist (operator_id experiment_id : uuid)
    (s : Store) : result unit :=
  match get_operator operator_id s with
  | Some o =>
      if bool_decide (experiment_id_of o = experiment_id) then Ok tt
      else Raise (NotFound "The specified operator is from another experiment")
  | None => Raise (NotFound "The specified operator does not exist")
  end.

(** Modelled from the spec: [list_dependencies] of
    [controllers/dependencies.py], "all edges whose source is operatorId,
    each with its own edge identity and target". *)
Definition list_dependencies (operator_id : uuid) (s : Store) : list Dependency :=
  filter (λ d, dep_operator_id d = operator_id) (dependencies s).

(** Modelled from the spec: [list_next_operators] of
    [controllers/dependencies.py], "all operators that have an edge
    targeting operatorId". *)
Definition list_next_operators (operator_id : uuid) (s : Store) : list uuid :=
  dep_operator_id <$> filter (λ d, dep_dependency d = operator_id) (dependencies s).

(** Modelled from the spec: [create_dependency] of
    [controllers/dependencies.py], "creates one edge"; the edge gets a
    newly drawn identifier and is committed at once. *)
Definition create_dependency (operator_id dependency : uuid) (s : Store) : Store :=
  {| projects := projects s;
     experiments := experiments s;
     tasks := tasks s;
     operators := operators s;
     dependencies :=
       dependencies s ++ [mkDependency (uuid_alpha (uuid_seed s)) operator_id dependency];
     uuid_seed := S (uuid_seed s) |}.

(** Modelled from the spec: [delete_dependency] of
    [controllers/dependencies.py], "deletes one edge by its own identity". *)
Definition delete_dependency (u : uuid) (s : Store) : Store :=
  {| projects := projects s;
     experiments := experiments s;
     tasks := tasks s;
     operators := operators s;
     dependencies := filter (λ d, dep_uuid d ≠ u) (dependencies s);
     uuid_seed := uuid_seed s |}.

(** The dependency identifiers of an operator, as every function below
    computes them: [[d['dependency'] for d in list_dependencies(op)]]. *)
Definition dependencies_of (operator_id : uuid) (s : Store) : list uuid :=
  dep_dependency <$> list_dependencies operator_id s.

(** ** Dependency synchronisation *)

(** The Graph Store calls [update_dependencies] issues. *)
Inductive store_call : Type :=
  | CreateDependencyCall : uuid → uuid → store_call
  | DeleteDependencyCall : uuid → store_call.

Definition run_call (c : store_call) (s : Store) : Store :=
  match c with
  | CreateDependencyCall operator_id dependency =>
      create_dependency operator_id dependency s
  | DeleteDependencyCall u => delete_dependency u s
  end.

Definition run_calls (cs : list store_call) (s : Store) : Store :=
  foldl (λ s c, run_call c s) s cs.

(** The inner loop of [update_dependencies]: the first row of the list read
    at the start whose target is [dependency] is deleted, then [break]. *)
Definition delete_call_for (dependencies_raw : list Dependency) (dependency : uuid)
  : option store_call :=
  (λ o, DeleteDependencyCall (dep_uuid o))
    <$> find (λ o, bool_decide (dependency = dep_dependency o)) dependencies_raw.

(** The calls of [update_dependencies], in the order they are issued: every
    list is computed from the rows read before the first call. *)
Definition update_dependencies_calls (operator_id : uuid)
    (new_dependencies : list uuid) (s : Store) : list store_call :=
  let dependencies_raw := list_dependencies operator_id s in
  let dependencies := dep_dependency <$> dependencies_raw in
  let dependencies_to_add := filter (λ d, d ∉ dependencies) new_dependencies in
  let dependencies_to_delete := filter (λ d, d ∉ new_dependencies) dependencies in
  (CreateDependencyCall operator_id <$> dependencies_to_add)
    ++ omap (delete_call_for dependencies_raw) dependencies_to_delete.

Definition update_dependencies (operator_id : uuid) (new_dependencies : list uuid)
    (s : Store) : Store :=
  run_calls (update_dependencies_calls operator_id new_dependencies s) s.

(** [l.remove(x)]: drops the first occurrence, [ValueError] when absent. *)
Fixpoint py_remove (x : uuid) (l : list uuid) : option (list uuid) :=
  match l with
  | [] => None
  | y :: l' => if bool_decide (y = x) then Some l' else (y ::.) <$> py_remove x l'
  end.

(** [a + list(set(b) - set(a))]: the iteration order of a Python set is
    unspecified; the embedding lists the difference in order of first
    occurrence. *)
Definition merge_dependencies (a b : list uuid) : list uuid :=
  a ++ list_difference (remove_dups b) a.

Fixpoint delete_dependencies_loop (operator_id : uuid) (dependencies : list uuid)
    (next_operators : list uuid) (s : Store) : result unit * Store :=
  match next_operators with
  | [] => (Ok tt, s)
  | op :: rest =>
      let op_dependencies := dependencies_of op s in
      let new_dependencies := merge_dependencies dependencies op_dependencies in
      match py_remove operator_id new_dependencies with
      | None => (Raise ValueError, s)
      | Some new_dependencies' =>
          delete_dependencies_loop operator_id dependencies rest
            (update_dependencies op new_dependencies' s)
      end
  end.

Definition delete_dependencies (operator_id : uuid) (dependencies : list uuid)
    (s : Store) : result unit * Store :=
  match delete_dependencies_loop operator_id dependencies
          (list_next_operators operator_id s) s with
  | (Ok _, s') => (Ok tt, update_dependencies operator_id [] s')
  | (Raise e, s') => (Raise e, s')
  end.

(** ** Operator status *)

Definition is_empty_string (v : pyval) : bool :=
  match v with
  | PStr EmptyString => true
  | _ => false
  end.

(** Modelled from the spec: [list_parameters] of
    [controllers/parameters.py] returns the task's parameter descriptors. *)
Definition list_parameters (task_id : uuid) (s : Store) : list ParameterDescriptor :=
  match tasks s !! task_id with
  | Some t => task_parameters t
  | None => []
  end.

Definition total_op_params (operator : Operator) : nat :=
  length (filter (λ kv, is_empty_string kv.2 = false) (parameters_of operator)).

Definition total_comp_params (task_id : uuid) (s : Store) : nat :=
  length (filter (λ p, param_name p ≠ "dataset") (list_parameters task_id s)).

(** [check_status] stores the result in [operator.status]; the embedding
    returns it. *)
Definition check_status (operator : Operator) (s : Store) : result string :=
  match tasks s !! task_id_of operator with
  | None => Raise AttributeError
  | Some task =>
      if bool_decide ("DATASETS" ∉ tags task) then
        if bool_decide (total_op_params operator = total_comp_params (task_id_of operator) s)
        then Ok "Setted up" else Ok "Unset"
      else
        if bool_decide (total_op_params operator = 1)
        then Ok "Setted up" else Ok "Unset"
  end.

(** Modelled from the spec: [Operator.as_dict] of the models is not among
    the sources; its [dependencies] entry holds the operator's own
    dependencies, the targets of the edges stored for it. *)
Definition as_dict_dependencies (operator : Operator) (s : Store) : list uuid :=
  dependencies_of (uuid_of operator) s.

(** [operator.as_dict()] with the status attached. *)
Record operator_dict : Type := mkOperatorDict {
  od_operator : Operator;
  od_status : string;
  od_dependencies : list uuid
}.

Fixpoint list_operators_loop (ops : list Operator) (s : Store)
  : result (list operator_dict) :=
  match ops with
  | [] => Ok []
  | operator :: rest =>
      st ← check_status operator s;
      response ← list_operators_loop rest s;
      Ok (mkOperatorDict operator st (as_dict_dependencies operator s) :: response)
  end.

Definition list_operators (project_id experiment_id : uuid) (s : Store)
  : result (list operator_dict) :=
  raise_if_project_does_not_exist project_id s;;
  raise_if_experiment_does_not_exist experiment_id s;;
  list_operators_loop
    (filter (λ o, experiment_id_of o = experiment_id) (operators s)) s.

(** ** Validation *)

(** [isinstance(value, (str, int, float, bool, list, dict))] *)
Definition is_supported_value (v : pyval) : bool :=
  match v with
  | PNone => false
  | _ => true
  end.

Definition raise_if_parameters_are_invalid (parameters : pyval) : result unit :=
  match parameters with
  | PDict items =>
      if forallb (λ kv, is_supported_value kv.2) items then Ok tt
      else Raise (BadRequest PARAMETERS_EXCEPTION_MSG)
  | _ => Raise (BadRequest PARAMETERS_EXCEPTION_MSG)
  end.

(** ** Cycle detection *)

(** [dict.fromkeys(keys, False)] *)
Definition fromkeys (keys : list uuid) (v : bool) : gmap string bool :=
  list_to_map ((λ k, (k, v)) <$> keys).

(** The neighbours [has_cycles_util] iterates over at [operator_id]: the
    stored dependencies, and for the operator being edited also the
    requested ones that are not stored yet. *)
Definition neighbours (s : Store) (new_dependencies : list uuid)
    (new_dependencies_op : option uuid) (operator_id : uuid) : list uuid :=
  let dependencies := dependencies_of operator_id s in
  if bool_decide (Some operator_id = new_dependencies_op)
  then merge_dependencies dependencies new_dependencies
  else dependencies.

(** The [for neighbour in dependencies] loop of [has_cycles_util]; [rec] is
    the recursive call. *)
Fixpoint neighbours_loop
    (rec : uuid → gmap string bool → gmap string bool
           → result (bool * (gmap string bool * gmap string bool)))
    (ns : list uuid) (visited recursion_stack : gmap string bool)
  : result (bool * (gmap string bool * gmap string bool)) :=
  match ns with
  | [] => Ok (false, (visited, recursion_stack))
  | neighbour :: rest =>
      match visited !! neighbour with
      | None => Raise KeyError
      | Some false =>
          r ← rec neighbour visited recursion_stack;
          match r with
          | (true, m) => Ok (true, m)
          | (false, (visited', recursion_stack')) =>
              match recursion_stack' !! neighbour with
              | None => Raise KeyError
              | Some true => Ok (true, (visited', recursion_stack'))
              | Some false => neighbours_loop rec rest visited' recursion_stack'
              end
          end
      | Some true =>
          match recursion_stack !! neighbour with
          | None => Raise KeyError
          | Some true => Ok (true, (visited, recursion_stack))
          | Some false => neighbours_loop rec rest visited recursion_stack
          end
      end
  end.

(** [has_cycles_util]; the dictionaries are passed in and handed back.
    [fuel] bounds the depth of the recursion: running out of it is the
    interpreter's [RecursionError]. *)
Fixpoint has_cycles_util (fuel : nat) (s : Store) (operator_id : uuid)
    (visited recursion_stack : gmap string bool)
    (new_dependencies : list uuid) (new_dependencies_op : option uuid)
  : result (bool * (gmap string bool * gmap string bool)) :=
  match fuel with
  | O => Raise RecursionError
  | S fuel' =>
      let visited := <[operator_id := true]> visited in
      let recursion_stack := <[operator_id := true]> recursion_stack in
      r ← neighbours_loop
             (λ n v st, has_cycles_util fuel' s n v st new_dependencies new_dependencies_op)
             (neighbours s new_dependencies new_dependencies_op operator_id)
             visited recursion_stack;
      match r with
      | (true, m) => Ok (true, m)
      | (false, (visited', recursion_stack')) =>
          Ok (false, (visited', <[operator_id := false]> recursion_stack'))
      end
  end.

(** The [for op in operators] loop of [raise_if_has_cycles]. *)
Fixpoint raise_if_has_cycles_loop (fuel : nat) (s : Store) (ops : list uuid)
    (visited recursion_stack : gmap string bool)
    (dependencies : list uuid) (operator_id : option uuid) : result bool :=
  match ops with
  | [] => Ok false
  | op_uuid :: rest =>
      match visited !! op_uuid with
      | None => Raise KeyError
      | Some true =>
          raise_if_has_cycles_loop fuel s rest visited recursion_stack
            dependencies operator_id
      | Some false =>
          r ← has_cycles_util fuel s op_uuid visited recursion_stack
                 dependencies operator_id;
          match r with
          | (true, _) => Raise (BadRequest CYCLICAL_MSG)
          | (false, (visited', recursion_stack')) =>
              raise_if_has_cycles_loop fuel s rest visited' recursion_stack'
                dependencies operator_id
          end
      end
  end.

(** [raise_if_has_cycles]. The interpreter's recursion limit is taken to be
    large enough: the fuel is one more than the number of operators, which
    the traversal never exhausts. *)
Definition raise_if_has_cycles (project_id experiment_id : uuid)
    (operator_id : option uuid) (dependencies : list uuid) (s : Store)
  : result bool :=
  operators ← list_operators project_id experiment_id s;
  let keys := (λ op, uuid_of (od_operator op)) <$> operators in
  let visited := fromkeys keys false in
  let recursion_stack := fromkeys keys false in
  raise_if_has_cycles_loop (S (length keys)) s keys visited recursion_stack
    dependencies operator_id.

(** The [for d in dependencies] loop of [raise_if_dependencies_are_invalid]:
    [NotFound] is turned into [BadRequest] by the [except] clause, the
    [BadRequest] of the self-reference test passes through it. *)
Fixpoint check_each_dependency (experiment_id : uuid) (operator_id : option uuid)
    (ds : list uuid) (s : Store) : result unit :=
  match ds with
  | [] => Ok tt
  | d :: rest =>
      match raise_if_operator_does_not_exist d experiment_id s with
      | Raise (NotFound _) => Raise (BadRequest DEPENDENCIES_EXCEPTION_MSG)
      | Raise e => Raise e
      | Ok _ =>
          if bool_decide (Some d = operator_id)
          then Raise (BadRequest DEPENDENCIES_EXCEPTION_MSG)
          else check_each_dependency experiment_id operator_id rest s
      end
  end.

Definition raise_if_dependencies_are_invalid (project_id experiment_id : uuid)
    (dependencies : deps_payload) (operator_id : option uuid) (s : Store)
  : result bool :=
  match dependencies with
  | NotAList => Raise (BadRequest DEPENDENCIES_EXCEPTION_MSG)
  | DepList ds =>
      if bool_decide (length ds ≠ length (remove_dups ds))
      then Raise (BadRequest DEPENDENCIES_EXCEPTION_MSG)
      else
        check_each_dependency experiment_id operator_id ds s;;
        raise_if_has_cycles project_id experiment_id operator_id ds s
  end.

(** ** Lifecycle of an operator *)

(** [x if x is not None else {}] for the [parameters] argument. *)
Definition parameters_or_empty (parameters : option pyval) : pyval :=
  match parameters with
  | None | Some PNone => PDict []
  | Some v => v
  end.

Definition dict_items (v : pyval) : list (string * pyval) :=
  match v with
  | PDict items => items
  | _ => []
  end.

Definition deps_list (dependencies : deps_payload) : list uuid :=
  match dependencies with
  | DepList ds => ds
  | NotAList => []
  end.

(** [db_session.add(operator); db_session.commit()], with the identifier
    drawn for the new row. *)
Definition add_operator (operator : Operator) (s : Store) : Store :=
  {| projects := projects s;
     experiments := experiments s;
     tasks := tasks s;
     operators := operators s ++ [operator];
     dependencies := dependencies s;
     uuid_seed := S (uuid_seed s) |}.

(** Everything [create_operator] verifies before it writes. *)
Definition create_operator_checks (project_id experiment_id : uuid)
    (task_id : pyval) (parameters : option pyval)
    (dependencies : option deps_payload) (s : Store)
  : result (uuid * list (string * pyval) * list uuid) :=
  raise_if_project_does_not_exist project_id s;;
  raise_if_experiment_does_not_exist experiment_id s;;
  task ← match task_id with
         | PStr t => Ok t
         | _ => Raise (BadRequest "taskId is required")
         end;
  match raise_if_task_does_not_exist task s with
  | Raise (NotFound description) => Raise (BadRequest description)
  | r => r
  end;;
  let parameters := parameters_or_empty parameters in
  raise_if_parameters_are_invalid parameters;;
  let dependencies := default (DepList []) dependencies in
  raise_if_dependencies_are_invalid project_id experiment_id dependencies None s;;
  Ok (task, dict_items parameters, deps_list dependencies).

Definition create_operator (project_id experiment_id : uuid)
    (task_id : pyval) (parameters : option pyval)
    (dependencies : option deps_payload) (position_x position_y : pyval)
    (s : Store) : result operator_dict * Store :=
  match create_operator_checks project_id experiment_id task_id parameters
          dependencies s with
  | Raise e => (Raise e, s)
  | Ok (task, parameters, dependencies) =>
      let operator :=
        mkOperator (uuid_alpha (uuid_seed s)) experiment_id task parameters
          position_x position_y in
      let s1 := add_operator operator s in
      match check_status operator s1 with
      | Raise e => (Raise e, s1)
      | Ok status =>
          (Ok (mkOperatorDict operator status dependencies),
           update_dependencies (uuid_of operator) dependencies s1)
      end
  end.

(** Columns of the [operators] table: those [create_operator] passes to the
    constructor and the two timestamps. *)
Definition Operator_columns : list string :=
  ["uuid"; "experiment_id"; "task_id"; "parameters";
   "position_x"; "position_y"; "created_at"; "updated_at"].

(** Names bound by the signature of [update_operator]; a keyword argument
    with one of them cannot reach [**kwargs]. *)
Definition update_operator_named : list string :=
  ["uuid"; "project_id"; "experiment_id"].

Definition kwargs_get (key : string) (kwargs : list (string * pyval))
  : option pyval :=
  snd <$> find (λ kv, bool_decide (kv.1 = key)) kwargs.

(** [Query.update(data)] resolves every key to a column first:
    [InvalidRequestError] for a key that is none. *)
Definition unknown_column (data : list (string * pyval)) : option string :=
  fst <$> find (λ kv, bool_decide (kv.1 ∉ Operator_columns)) data.

(** A value the column cannot bind is a [StatementError]. *)
Definition set_column (o : Operator) (kv : string * pyval) : result Operator :=
  let (key, v) := kv in
  if bool_decide (key = "uuid") then
    match v with
    | PStr u => Ok (mkOperator u (experiment_id_of o) (task_id_of o)
                      (parameters_of o) (position_x_of o) (position_y_of o))
    | _ => Raise StatementError
    end
  else if bool_decide (key = "experiment_id") then
    match v with
    | PStr e => Ok (mkOperator (uuid_of o) e (task_id_of o)
                      (parameters_of o) (position_x_of o) (position_y_of o))
    | _ => Raise StatementError
    end
  else if bool_decide (key = "task_id") then
    match v with
    | PStr t => Ok (mkOperator (uuid_of o) (experiment_id_of o) t
                      (parameters_of o) (position_x_of o) (position_y_of o))
    | _ => Raise StatementError
    end
  else if bool_decide (key = "parameters") then
    Ok (mkOperator (uuid_of o) (experiment_id_of o) (task_id_of o)
          (dict_items v) (position_x_of o) (position_y_of o))
  else if bool_decide (key = "position_x") then
    Ok (mkOperator (uuid_of o) (experiment_id_of o) (task_id_of o)
          (parameters_of o) v (position_y_of o))
  else if bool_decide (key = "position_y") then
    Ok (mkOperator (uuid_of o) (experiment_id_of o) (task_id_of o)
          (parameters_of o) (position_x_of o) v)
  else Ok o.

Fixpoint set_columns (o : Operator) (data : list (string * pyval))
  : result Operator :=
  match data with
  | [] => Ok o
  | kv :: rest => o' ← set_column o kv; set_columns o' rest
  end.

(** [db_session.query(Operator).filter_by(uuid=uuid).update(data)] and the
    commit, inside the [try] of [update_operator]. *)
Definition update_row (u : uuid) (operator : Operator)
    (data : list (string * pyval)) (s : Store) : result (Operator * Store) :=
  match unknown_column data with
  | Some key =>
      Raise (BadRequest ("Entity namespace for operators has no property " +:+ key))
  | None =>
      operator' ← set_columns operator data;
      Ok (operator',
          {| projects := projects s;
             experiments := experiments s;
             tasks := tasks s;
             operators :=
               (λ o, if bool_decide (uuid_of o = u) then operator' else o)
                 <$> operators s;
             dependencies := dependencies s;
             uuid_seed := uuid_seed s |})
  end.

(** Everything [update_operator] verifies before it writes; [dependencies]
    is the value popped from the keyword arguments, [kwargs] the rest. *)
Definition update_operator_checks (u project_id experiment_id : uuid)
    (dependencies : option deps_payload) (kwargs : list (string * pyval))
    (s : Store) : result Operator :=
  raise_if_project_does_not_exist project_id s;;
  raise_if_experiment_does_not_exist experiment_id s;;
  operator ← match get_operator u s with
             | Some o => Ok o
             | None => Raise (NotFound "The specified operator does not exist")
             end;
  raise_if_parameters_are_invalid
    (default (PDict []) (kwargs_get "parameters" kwargs));;
  match dependencies with
  | Some ds =>
      raise_if_dependencies_are_invalid project_id experiment_id ds (Some u) s;;
      Ok operator
  | None => Ok operator
  end.

Definition update_operator (u project_id experiment_id : uuid)
    (dependencies : option deps_payload) (kwargs : list (string * pyval))
    (s : Store) : result operator_dict * Store :=
  if existsb (λ kv, bool_decide (kv.1 ∈ update_operator_named)) kwargs
  then (Raise TypeError, s)
  else
    match update_operator_checks u project_id experiment_id dependencies kwargs s with
    | Raise e => (Raise e, s)
    | Ok operator =>
        let s1 :=
          match dependencies with
          | Some ds => update_dependencies u (deps_list ds) s
          | None => s
          end in
        match update_row u operator kwargs s1 with
        | Raise e => (Raise e, s1)
        | Ok (operator', s2) =>
            match check_status operator' s2 with
            | Raise e => (Raise e, s2)
            | Ok status =>
                (Ok (mkOperatorDict operator' status
                       (as_dict_dependencies operator' s2)), s2)
            end
        end
    end.

(** [db_session.delete(operator); db_session.commit()] *)
Definition remove_operator (u : uuid) (s : Store) : Store :=
  {| projects := projects s;
     experiments := experiments s;
     tasks := tasks s;
     operators := filter (λ o, uuid_of o ≠ u) (operators s);
     dependencies := dependencies s;
     uuid_seed := uuid_seed s |}.

Definition delete_operator (u project_id experiment_id : uuid) (s : Store)
  : result string * Store :=
  match (raise_if_project_does_not_exist project_id s;;
         raise_if_experiment_does_not_exist experiment_id s;;
         match get_operator u s with
         | Some o => Ok o
         | None => Raise (NotFound "The specified operator does not exist")
         end) with
  | Raise e => (Raise e, s)
  | Ok operator =>
      match delete_dependencies (uuid_of operator)
              (as_dict_dependencies operator s) s with
      | (Raise e, s') => (Raise e, s')
      | (Ok _, s') => (Ok "Operator deleted", remove_operator u s')
      end
  end.

(** ** Requests *)

Inductive request : Type :=
  | CreateOperator (project_id experiment_id : uuid) (task_id : pyval)
      (parameters : option pyval) (dependencies : option deps_payload)
      (position_x position_y : pyval)
  | UpdateOperator (u project_id experiment_id : uuid)
      (dependencies : option deps_payload) (kwargs : list (string * pyval))
  | DeleteOperator (u project_id experiment_id : uuid).

(** Whether the request was answered without an exception, and the store
    it leaves. *)
Definition handle (r : request) (s : Store) : bool * Store :=
  match r with
  | CreateOperator p e t ps ds x y =>
      let (res, s') := create_operator p e t ps ds x y s in (is_ok res, s')
  | UpdateOperator u p e ds kw =>
      let (res, s') := update_operator u p e ds kw s in (is_ok res, s')
  | DeleteOperator u p e =>
      let (res, s') := delete_operator u p e s in (is_ok res, s')
  end.

(** [accepted_run s rs s']: every request of [rs] is accepted in turn,
    leading from [s] to [s']. *)
Inductive accepted_run : Store → list request → Store → Prop :=
  | accepted_nil s : accepted_run s [] s
  | accepted_cons s r s1 rs s2 :
      handle r s = (true, s1) →
      accepted_run s1 rs s2 →
      accepted_run s (r :: rs) s2.

(** ** Vocabulary of the specification *)

(** A stored dependency edge: [x] depends on [y]. *)
Definition edge (s : Store) (x y : uuid) : Prop := y ∈ dependencies_of x s.

(** No operator transitively depends on itself. *)
Definition acyclic (s : Store) : Prop := ∀ x, ¬ tc (edge s) x x.

(** The graph the detector walks: stored edges, and at the edited operator
    the requested ones as well. *)
Definition overlay_edge (s : Store) (new_dependencies : list uuid)
    (new_dependencies_op : option uuid) (x y : uuid) : Prop :=
  y ∈ neighbours s new_dependencies new_dependencies_op x.

(** Identifiers of the operators of one pipeline. *)
Definition experiment_operators (experiment_id : uuid) (s : Store) : list Operator :=
  filter (λ o, experiment_id_of o = experiment_id) (operators s).

Definition experiment_uuids (experiment_id : uuid) (s : Store) : list uuid :=
  uuid_of <$> experiment_operators experiment_id s.

(** Every identifier the store mentions. *)
Definition ids_in_use (s : Store) : list uuid :=
  (uuid_of <$> operators s) ++ (dep_uuid <$> dependencies s)
    ++ (dep_operator_id <$> dependencies s) ++ (dep_dependency <$> dependencies s).

(** [uuid_alpha] never returns an identifier already in use. *)
Definition seed_fresh (s : Store) : Prop :=
  ∀ k : nat, (uuid_seed s ≤ k)%nat → uuid_alpha k ∉ ids_in_use s.

(** Primary key of the [dependencies] table. *)
Definition dependency_keys_unique (s : Store) : Prop :=
  NoDup (dep_uuid <$> dependencies s).

(** Primary key of the [operators] table. *)
Definition operator_keys_unique (s : Store) : Prop :=
  NoDup (uuid_of <$> operators s).

(** Invariant I1 at one operator: no duplicate target. *)
Definition no_duplicate_target (operator_id : uuid) (s : Store) : Prop :=
  NoDup (dependencies_of operator_id s).

(** Invariant I3 within one pipeline: the edges leaving its operators end
    at its operators. *)
Definition experiment_closed (experiment_id : uuid) (s : Store) : Prop :=
  ∀ x y, x ∈ experiment_uuids experiment_id s → edge s x y →
         y ∈ experiment_uuids experiment_id s.

(** Every operator of the pipeline refers to a task that exists. *)
Definition tasks_known (experiment_id : uuid) (s : Store) : Prop :=
  ∀ o, o ∈ experiment_operators experiment_id s → is_Some (tasks s !! task_id_of o).

(** The rows [create_dependency] appends for the targets [ds], the first
    with the [n]-th identifier. *)
Fixpoint created_rows (operator_id : uuid) (n : nat) (ds : list uuid)
  : list Dependency :=
  match ds with
  | [] => []
  | d :: rest =>
      mkDependency (uuid_alpha n) operator_id d :: created_rows operator_id (S n) rest
  end.

(** The targets [update_dependencies] adds and the ones it removes. *)
Definition dependencies_to_add (operator_id : uuid) (new_dependencies : list uuid)
    (s : Store) : list uuid :=
  filter (λ d, d ∉ dependencies_of operator_id s) new_dependencies.

Definition dependencies_to_delete (operator_id : uuid) (new_dependencies : list uuid)
    (s : Store) : list uuid :=
  filter (λ d, d ∉ new_dependencies) (dependencies_of operator_id s).

(** The keys of the rows [update_dependencies] deletes. *)
Definition deleted_keys (operator_id : uuid) (new_dependencies : list uuid)
    (s : Store) : list uuid :=
  omap (λ d, dep_uuid <$> find (λ o, bool_decide (d = dep_dependency o))
                            (list_dependencies operator_id s))
       (dependencies_to_delete operator_id new_dependencies s).

Definition with_dependencies (s : Store) (rows : list Dependency) (seed : nat)
  : Store :=
  {| projects := projects s;
     experiments := experiments s;
     tasks := tasks s;
     operators := operators s;
     dependencies := rows;
     uuid_seed := seed |}.

(** Every stored edge joins two operators. *)
Definition endpoints_exist (s : Store) : Prop :=
  ∀ x y, edge s x y → x ∈ uuid_of <$> operators s ∧ y ∈ uuid_of <$> operators s.

(** The stored graph is well formed: both tables respect their primary
    key, new identifiers are unused, no operator has a dependency twice,
    every edge joins two operators and no operator depends on itself
    transitively. *)
Definition well_formed (s : Store) : Prop :=
  operator_keys_unique s ∧ dependency_keys_unique s ∧ seed_fresh s ∧
  (∀ op, no_duplicate_target op s) ∧ endpoints_exist s ∧ acyclic s.

(** Marks of the traversal: an operator is finished once it is visited
    and no longer on the recursion stack. *)
Definition finished (visited recursion_stack : gmap string bool) (x : uuid) : Prop :=
  visited !! x = Some true ∧ recursion_stack !! x = Some false.

(** What the traversal maintains between two calls: both dictionaries have
    the same keys, the recursion stack holds visited operators only, the
    finished operators are closed under the edges and none is on a cycle. *)
Definition marks_inv (R : relation string)
    (visited recursion_stack : gmap string bool) : Prop :=
  dom visited = dom recursion_stack ∧
  (∀ x, recursion_stack !! x = Some true → visited !! x = Some true) ∧
  (∀ x y, finished visited recursion_stack x → R x y →
          finished visited recursion_stack y) ∧
  (∀ x, finished visited recursion_stack x → ¬ tc R x x).

(** [visited] only gains marks. *)
Definition grows (visited visited' : gmap string bool) : Prop :=
  dom visited' = dom visited ∧
  ∀ x, visited !! x = Some true → visited' !! x = Some true.

(** Every operator on the recursion stack reaches [n]. *)
Definition stack_reaches (R : relation string)
    (recursion_stack : gmap string bool) (n : uuid) : Prop :=
  ∀ g, recursion_stack !! g = Some true → rtc R g n.

(** The keys not visited yet. *)
Definition unvisited (visited : gmap string bool) : gset string :=
  dom (filter (λ kv, kv.2 = false) visited).

(** What a call of [has_cycles_util] at [n] guarantees, from marks
    [visited], [recursion_stack]. *)
Definition util_post (R : relation string) (n : uuid)
    (visited recursion_stack : gmap string bool)
    (r : result (bool * (gmap string bool * gmap string bool))) : Prop :=
  match r with
  | Ok (false, (visited', recursion_stack')) =>
      recursion_stack' = recursion_stack ∧
      marks_inv R visited' recursion_stack' ∧
      grows visited visited' ∧
      visited' !! n = Some true
  | Ok (true, _) =>
      stack_reaches R recursion_stack n →
      ∃ x, x ∈ dom visited ∧ tc R x x
  | Raise e => e = KeyError ∨ e = RecursionError
  end.

(** Invariant I3 for the graph the detector walks. *)
Definition overlay_closed (experiment_id : uuid) (new_dependencies : list uuid)
    (new_dependencies_op : option uuid) (s : Store) : Prop :=
  ∀ x y, x ∈ experiment_uuids experiment_id s →
         overlay_edge s new_dependencies new_dependencies_op x y →
         y ∈ experiment_uuids experiment_id s.

(** The request would put an operator of the pipeline on a cycle. *)
Definition would_create_cycle (experiment_id : uuid) (new_dependencies : list uuid)
    (new_dependencies_op : option uuid) (s : Store) : Prop :=
  ∃ x, x ∈ experiment_uuids experiment_id s ∧
       tc (overlay_edge s new_dependencies new_dependencies_op) x x.

(** Invariant I2 for one pipeline: none of its operators is on a cycle of
    stored edges. *)
Definition pipeline_acyclic (experiment_id : uuid) (s : Store) : Prop :=
  ∀ x, x ∈ experiment_uuids experiment_id s → ¬ tc (edge s) x x.


(** The checks of [raise_if_dependencies_are_invalid] one after the other,
    in the order the specification lists them: shape, duplicates,
    existence, self-reference, cycle. *)
Definition check_shape (dependencies : deps_payload) : result (list uuid) :=
  match dependencies with
  | NotAList => Raise (BadRequest DEPENDENCIES_EXCEPTION_MSG)
  | DepList ds => Ok ds
  end.

Definition check_duplicates (ds : list uuid) : result unit :=
  if bool_decide (NoDup ds) then Ok tt
  else Raise (BadRequest DEPENDENCIES_EXCEPTION_MSG).

Definition check_existence (experiment_id : uuid) (ds : list uuid) (s : Store)
  : result unit :=
  if forallb (λ d, is_ok (raise_if_operator_does_not_exist d experiment_id s)) ds
  then Ok tt
  else Raise (BadRequest DEPENDENCIES_EXCEPTION_MSG).

Definition check_self_reference (operator_id : option uuid) (ds : list uuid)
  : result unit :=
  if bool_decide (Forall (λ d, Some d ≠ operator_id) ds) then Ok tt
  else Raise (BadRequest DEPENDENCIES_EXCEPTION_MSG).

Definition checks_in_stated_order (project_id experiment_id : uuid)
    (dependencies : deps_payload) (operator_id : option uuid) (s : Store)
  : result bool :=
  ds ← check_shape dependencies;
  check_duplicates ds;;
  check_existence experiment_id ds s;;
  check_self_reference operator_id ds;;
  raise_if_has_cycles project_id experiment_id operator_id ds s.

(** A small pipeline used in the examples: operators [0], [1] and [2] of
    experiment [E] in project [P], where [1] depends on [0]. *)
Definition example_task : Task :=
  mkTask ["PREDICTOR"] [mkParameterDescriptor "dataset"; mkParameterDescriptor "coef"].

Definition example_operator (u : uuid) : Operator :=
  mkOperator u "E" "T" [("coef", PFloat 1 (-1))] PNone PNone.

Definition example_store : Store :=
  {| projects := ["P"];
     experiments := ["E"];
     tasks := {["T" := example_task]};
     operators := [example_operator (uuid_alpha 0); example_operator (uuid_alpha 1);
                   example_operator (uuid_alpha 2)];
     dependencies := [mkDependency (uuid_alpha 3) (uuid_alpha 1) (uuid_alpha 0)];
     uuid_seed := 4 |}.

(** The example pipeline before any dependency is set. *)
Definition example_unwired : Store := with_dependencies example_store [] 4.

(** The example pipeline with a second edge: [2] depends on [1], which
    depends on [0]. *)
Definition example_chain : Store :=
  with_dependencies example_store
    [mkDependency (uuid_alpha 3) (uuid_alpha 1) (uuid_alpha 0);
     mkDependency (uuid_alpha 4) (uuid_alpha 2) (uuid_alpha 1)] 5.

(** A store that already holds a cycle: [0] and [1] depend on each other. *)
Definition example_cyclic : Store :=
  with_dependencies example_store
    [mkDependency (uuid_alpha 3) (uuid_alpha 1) (uuid_alpha 0);
     mkDependency (uuid_alpha 4) (uuid_alpha 0) (uuid_alpha 1)] 5.

(** A store that breaks invariant I1: the edge from [1] to [0] is stored
    twice. *)
Definition example_duplicate : Store :=
  with_dependencies example_store
    [mkDependency (uuid_alpha 3) (uuid_alpha 1) (uuid_alpha 0);
     mkDependency (uuid_alpha 4) (uuid_alpha 1) (uuid_alpha 0)] 5.

(** Three requests: make [2] depend on [1], create an operator that depends
    on [2] and [0], delete [1]. *)
Definition example_requests : list request :=
  [UpdateOperator (uuid_alpha 2) "P" "E" (Some (DepList [uuid_alpha 1])) [];
   CreateOperator "P" "E" (PStr "T") None
     (Some (DepList [uuid_alpha 2; uuid_alpha 0])) PNone PNone;
   DeleteOperator (uuid_alpha 1) "P" "E"].

(** Two pipelines in one project: [0] and [1] belong to [E], [2] to [F]. *)
Definition example_two_pipelines : Store :=
  {| projects := ["P"];
     experiments := ["E"; "F"];
     tasks := {["T" := example_task]};
     operators := [example_operator (uuid_alpha 0); example_operator (uuid_alpha 1);
                   mkOperator (uuid_alpha 2) "F" "T" [] PNone PNone];
     dependencies := [mkDependency (uuid_alpha 3) (uuid_alpha 1) (uuid_alpha 0)];
     uuid_seed := 4 |}.

(** The store a sequence of requests leads to when all are accepted. *)
Fixpoint run_requests (rs : list request) (s : Store) : option Store :=
  match rs with
  | [] => Some s
  | r :: rest =>
      let (ok, s1) := handle r s in
      if ok then run_requests rest s1 else None
  end.

(** * Properties *)

(** ** Status derivation *)

Lemma is_empty_string_spec (v : pyval) : is_empty_string v = true ↔ v = PStr "".
Proof.
  split.
  - destruct v as [| | | | str | |]; simpl; try discriminate.
    destruct str; [reflexivity | discriminate].
  - intros ->. reflexivity.
Qed.


(** ** Dependency synchronisation *)

Lemma filter_all {A : Type} (P : A → Prop) `{∀ x, Decision (P x)} (l : list A) :
  (∀ x, x ∈ l → P x) → filter P l = l.
Proof.
  induction l as [|a l IH]; intros Hall; [done|].
  rewrite filter_cons_True by (apply Hall; left).
  f_equal. apply IH. intros x Hx. apply Hall. by right.
Qed.

Lemma filter_none {A : Type} (P : A → Prop) `{∀ x, Decision (P x)} (l : list A) :
  (∀ x, x ∈ l → ¬ P x) → filter P l = [].
Proof.
  induction l as [|a l IH]; intros Hall; [done|].
  rewrite filter_cons_False by (apply Hall; left).
  apply IH. intros x Hx. apply Hall. by right.
Qed.

Lemma run_calls_app (cs1 cs2 : list store_call) (s : Store) :
  run_calls (cs1 ++ cs2) s = run_calls cs2 (run_calls cs1 s).
Proof. unfold run_calls. apply foldl_app. Qed.

Lemma with_dependencies_id (s : Store) :
  with_dependencies s (dependencies s) (uuid_seed s) = s.
Proof. by destruct s. Qed.

Lemma run_creates (operator_id : uuid) (ds : list uuid) (s : Store) :
  run_calls (CreateDependencyCall operator_id <$> ds) s
  = with_dependencies s
      (dependencies s ++ created_rows operator_id (uuid_seed s) ds)
      (uuid_seed s + length ds).
Proof.
  revert s. induction ds as [|d ds IH]; intros s; simpl.
  - rewrite app_nil_r, Nat.add_0_r. by rewrite with_dependencies_id.
  - unfold run_calls in *. simpl. rewrite IH. unfold with_dependencies. simpl.
    rewrite <- app_assoc. simpl. f_equal. lia.
Qed.

Lemma run_deletes (us : list uuid) (s : Store) :
  run_calls (DeleteDependencyCall <$> us) s
  = with_dependencies s
      (filter (λ d, dep_uuid d ∉ us) (dependencies s)) (uuid_seed s).
Proof.
  revert s. induction us as [|u us IH]; intros s; simpl.
  - unfold run_calls. simpl. rewrite <- (with_dependencies_id s) at 1.
    f_equal. symmetry. apply filter_all. intros d _. apply not_elem_of_nil.
  - unfold run_calls in *. simpl. rewrite IH. unfold with_dependencies. simpl.
    f_equal. rewrite list_filter_filter. apply list_filter_iff.
    intros d. rewrite not_elem_of_cons. tauto.
Qed.

Lemma update_dependencies_calls_eq (operator_id : uuid) (new : list uuid) (s : Store) :
  update_dependencies_calls operator_id new s
  = (CreateDependencyCall operator_id <$> dependencies_to_add operator_id new s)
      ++ (DeleteDependencyCall <$> deleted_keys operator_id new s).
Proof.
  unfold update_dependencies_calls, deleted_keys, dependencies_to_add,
    dependencies_to_delete, dependencies_of, delete_call_for.
  f_equal. generalize (filter (λ d, d ∉ new) (dep_dependency <$> list_dependencies operator_id s)).
  intros l. induction l as [|d l IH]; [done|].
  cbn [omap list_omap fmap list_fmap].
  destruct (find _ _); cbn [fmap option_fmap option_map]; by rewrite IH.
Qed.

(** The store [update_dependencies] leaves, in closed form. *)
Lemma update_dependencies_store (operator_id : uuid) (new : list uuid) (s : Store) :
  update_dependencies operator_id new s
  = with_dependencies s
      (filter (λ d, dep_uuid d ∉ deleted_keys operator_id new s)
         (dependencies s
            ++ created_rows operator_id (uuid_seed s)
                 (dependencies_to_add operator_id new s)))
      (uuid_seed s + length (dependencies_to_add operator_id new s)).
Proof.
  unfold update_dependencies. rewrite update_dependencies_calls_eq, run_calls_app.
  rewrite run_creates, run_deletes. reflexivity.
Qed.

Lemma dependencies_to_add_nil (operator_id : uuid) (new : list uuid) (s : Store) :
  (∀ d, d ∈ new → d ∈ dependencies_of operator_id s) →
  dependencies_to_add operator_id new s = [].
Proof. intros Hsub. apply filter_none. intros d Hd Hn. apply Hn, Hsub, Hd. Qed.

Lemma dependencies_to_delete_nil (operator_id : uuid) (new : list uuid) (s : Store) :
  (∀ d, d ∈ dependencies_of operator_id s → d ∈ new) →
  dependencies_to_delete operator_id new s = [].
Proof. intros Hsub. apply filter_none. intros d Hd Hn. apply Hn, Hsub, Hd. Qed.

Lemma update_dependencies_same_set (operator_id : uuid) (new : list uuid) (s : Store) :
  (∀ d, d ∈ new ↔ d ∈ dependencies_of operator_id s) →
  update_dependencies_calls operator_id new s = [] ∧
  update_dependencies operator_id new s = s.
Proof.
  intros Hset.
  assert (Hcalls : update_dependencies_calls operator_id new s = []).
  { rewrite update_dependencies_calls_eq. unfold deleted_keys.
    rewrite dependencies_to_add_nil by (intros d; apply Hset).
    rewrite dependencies_to_delete_nil by (intros d; apply Hset).
    reflexivity. }
  split; [done|]. unfold update_dependencies. by rewrite Hcalls.
Qed.

(** C9. When the requested list has the same members as the dependencies
    stored for the operator, [update_dependencies] issues no call to the
    Graph Store, neither [create_dependency] nor [delete_dependency], and
    the store is left as it was. *)
Theorem update_dependencies_noop (operator_id : uuid) (new : list uuid) (s : Store) :
  (∀ d, d ∈ new ↔ d ∈ dependencies_of operator_id s) →
  update_dependencies_calls operator_id new s = [] ∧
  update_dependencies operator_id new s = s.
Proof. apply update_dependencies_same_set. Qed.

Lemma NoDup_fmap_inj_on {A B : Type} (f : A → B) (l : list A) (x y : A) :
  NoDup (f <$> l) → x ∈ l → y ∈ l → f x = f y → x = y.
Proof.
  induction l as [|a l IH]; intros Hnd Hx Hy Hf; [by apply elem_of_nil in Hx|].
  rewrite fmap_cons in Hnd. apply NoDup_cons in Hnd as [Ha Hnd].
  apply elem_of_cons in Hx as [-> | Hx]; apply elem_of_cons in Hy as [-> | Hy].
  - done.
  - exfalso. apply Ha. rewrite Hf. by apply list_elem_of_fmap_2.
  - exfalso. apply Ha. rewrite <- Hf. by apply list_elem_of_fmap_2.
  - by apply IH.
Qed.

Lemma find_Some_elem {A : Type} (f : A → bool) (l : list A) (x : A) :
  find f l = Some x → x ∈ l ∧ f x = true.
Proof.
  intros H. apply find_some in H as [Hin Hf]. split; [|done].
  by apply list_elem_of_In.
Qed.

Lemma find_is_Some {A : Type} (f : A → bool) (l : list A) (x : A) :
  x ∈ l → f x = true → is_Some (find f l).
Proof.
  intros Hin Hf. destruct (find f l) eqn:E; [by eexists|].
  apply list_elem_of_In in Hin. pose proof (find_none f l E x Hin). congruence.
Qed.

Lemma elem_of_created_rows (operator_id : uuid) (n : nat) (ds : list uuid) (r : Dependency) :
  r ∈ created_rows operator_id n ds ↔
  ∃ k d, n ≤ k ∧ k < n + length ds ∧ ds !! (k - n) = Some d ∧
         r = mkDependency (uuid_alpha k) operator_id d.
Proof.
  revert n. induction ds as [|d ds IH]; intros n; simpl.
  - split; [intros H; by apply elem_of_nil in H|]. intros (k & d & ? & ? & ? & _). lia.
  - rewrite elem_of_cons, IH. split.
    + intros [-> | (k & d' & Hk1 & Hk2 & Hl & ->)].
      * exists n, d. rewrite Nat.sub_diag. split_and!; [lia | lia | done | done].
      * exists k, d'. split_and!; [lia | lia | | done].
        replace (k - n) with (S (k - S n)) by lia. done.
    + intros (k & d' & Hk1 & Hk2 & Hl & ->).
      destruct (decide (k = n)) as [-> | Hne].
      * rewrite Nat.sub_diag in Hl. simpl in Hl. left. congruence.
      * right. exists k, d'. split_and!; [lia | lia | | done].
        replace (k - n) with (S (k - S n)) in Hl by lia. done.
Qed.

Lemma created_rows_targets (operator_id : uuid) (n : nat) (ds : list uuid) :
  dep_dependency <$> created_rows operator_id n ds = ds.
Proof. revert n. induction ds as [|d ds IH]; intros n; simpl; [done|]. by rewrite IH. Qed.

Lemma created_rows_sources (operator_id : uuid) (n : nat) (ds : list uuid) (r : Dependency) :
  r ∈ created_rows operator_id n ds → dep_operator_id r = operator_id.
Proof. rewrite elem_of_created_rows. by intros (k & d & _ & _ & _ & ->). Qed.

Lemma elem_of_deleted_keys (operator_id : uuid) (new : list uuid) (s : Store) (u : uuid) :
  u ∈ deleted_keys operator_id new s →
  ∃ r, r ∈ dependencies s ∧ dep_operator_id r = operator_id ∧ dep_uuid r = u
       ∧ dep_dependency r ∉ new.
Proof.
  unfold deleted_keys. rewrite list_elem_of_omap.
  intros (d & Hd & Hfind).
  destruct (find _ _) as [r|] eqn:E; [|discriminate]. simpl in Hfind.
  apply find_Some_elem in E as [Hr Heq]. apply bool_decide_eq_true in Heq.
  unfold list_dependencies in Hr. apply list_elem_of_filter in Hr as [Hsrc Hr].
  unfold dependencies_to_delete in Hd. apply list_elem_of_filter in Hd as [Hd _].
  exists r. split_and!; [done | done | congruence | congruence].
Qed.

Lemma deleted_keys_complete (operator_id : uuid) (new : list uuid) (s : Store) (r : Dependency) :
  no_duplicate_target operator_id s →
  r ∈ dependencies s → dep_operator_id r = operator_id → dep_dependency r ∉ new →
  dep_uuid r ∈ deleted_keys operator_id new s.
Proof.
  intros Hnd Hr Hsrc Hnew.
  assert (Hraw : r ∈ list_dependencies operator_id s).
  { unfold list_dependencies. by apply list_elem_of_filter. }
  unfold deleted_keys. apply list_elem_of_omap. exists (dep_dependency r). split.
  - unfold dependencies_to_delete. apply list_elem_of_filter. split; [done|].
    unfold dependencies_of. by apply list_elem_of_fmap_2.
  - destruct (find_is_Some (λ o, bool_decide (dep_dependency r = dep_dependency o))
                (list_dependencies operator_id s) r Hraw) as [r0 Hr0].
    { by apply bool_decide_eq_true. }
    rewrite Hr0. simpl. f_equal.
    apply find_Some_elem in Hr0 as [Hin Heq]. apply bool_decide_eq_true in Heq.
    f_equal. symmetry. by eapply (NoDup_fmap_inj_on dep_dependency).
Qed.

Lemma filter_ext_in {A : Type} (P Q : A → Prop)
    `{∀ x, Decision (P x)} `{∀ x, Decision (Q x)} (l : list A) :
  (∀ x, x ∈ l → (P x ↔ Q x)) → filter P l = filter Q l.
Proof.
  induction l as [|a l IH]; intros Hext; [done|].
  rewrite !filter_cons.
  assert (Ha : P a ↔ Q a) by (apply Hext; left).
  rewrite IH by (intros x Hx; apply Hext; by right).
  destruct (decide (P a)), (decide (Q a)); tauto.
Qed.

Lemma seed_fresh_key (s : Store) (k : nat) (r : Dependency) :
  seed_fresh s → uuid_seed s ≤ k → r ∈ dependencies s → dep_uuid r ≠ uuid_alpha k.
Proof.
  intros Hfresh Hk Hr Heq. apply (Hfresh k Hk). unfold ids_in_use.
  rewrite !elem_of_app. right; left. rewrite <- Heq. by apply list_elem_of_fmap_2.
Qed.

Lemma dependency_key_inj (s : Store) (r1 r2 : Dependency) :
  dependency_keys_unique s → r1 ∈ dependencies s → r2 ∈ dependencies s →
  dep_uuid r1 = dep_uuid r2 → r1 = r2.
Proof. intros Hu. by apply NoDup_fmap_inj_on. Qed.

Lemma created_key_not_deleted (operator_id : uuid) (new : list uuid) (s : Store)
    (op' : uuid) (ds : list uuid) (r : Dependency) :
  seed_fresh s → r ∈ created_rows op' (uuid_seed s) ds →
  dep_uuid r ∉ deleted_keys operator_id new s.
Proof.
  intros Hfresh Hr Hin.
  apply elem_of_created_rows in Hr as (k & d & Hk & _ & _ & ->). simpl in Hin.
  apply elem_of_deleted_keys in Hin as (r0 & Hr0 & _ & Hkey & _).
  by apply (seed_fresh_key s k r0).
Qed.

(** Rows of the other operators are not touched. *)
Lemma update_dependencies_frame (operator_id op' : uuid) (new : list uuid) (s : Store) :
  dependency_keys_unique s → op' ≠ operator_id →
  list_dependencies op' (update_dependencies operator_id new s)
  = list_dependencies op' s.
Proof.
  intros Hkeys Hne. rewrite update_dependencies_store.
  unfold list_dependencies at 1. simpl.
  rewrite filter_app, (filter_app _ (filter _ (dependencies s))).
  rewrite (filter_none _ (filter _ (created_rows _ _ _))), app_nil_r.
  - rewrite list_filter_filter. unfold list_dependencies. apply filter_ext_in.
    intros r Hr. split; [tauto|]. intros Hsrc. split; [done|].
    intros Hdel. apply elem_of_deleted_keys in Hdel as (r0 & Hr0 & Hsrc0 & Hkey & _).
    assert (r0 = r) by by apply (dependency_key_inj s). congruence.
  - intros r Hr Hsrc. apply list_elem_of_filter in Hr as [_ Hr].
    apply created_rows_sources in Hr. congruence.
Qed.

(** The rows of the operator after synchronisation: the stored ones that
    are requested, then the new ones. *)
Lemma update_dependencies_rows (operator_id : uuid) (new : list uuid) (s : Store) :
  dependency_keys_unique s → seed_fresh s → no_duplicate_target operator_id s →
  list_dependencies operator_id (update_dependencies operator_id new s)
  = filter (λ r, dep_dependency r ∈ new) (list_dependencies operator_id s)
      ++ created_rows operator_id (uuid_seed s) (dependencies_to_add operator_id new s).
Proof.
  intros Hkeys Hfresh Hnd. rewrite update_dependencies_store.
  unfold list_dependencies at 1. simpl.
  rewrite filter_app, (filter_app _ (filter _ (dependencies s))). f_equal.
  - rewrite list_filter_filter. unfold list_dependencies. rewrite list_filter_filter.
    apply filter_ext_in. intros r Hr. split.
    + intros [Hsrc Hdel]. split; [|done].
      destruct (decide (dep_dependency r ∈ new)) as [|Hnew]; [done|].
      exfalso. apply Hdel. by apply deleted_keys_complete.
    + intros [Hnew Hsrc]. split; [done|]. intros Hdel.
      apply elem_of_deleted_keys in Hdel as (r0 & Hr0 & Hsrc0 & Hkey & Hn0).
      assert (r0 = r) by by apply (dependency_key_inj s). congruence.
  - rewrite (filter_all (λ d, dep_uuid d ∉ _)).
    + apply filter_all. intros r Hr. by eapply created_rows_sources.
    + intros r Hr. by eapply created_key_not_deleted.
Qed.

Lemma update_dependencies_members (operator_id : uuid) (new : list uuid) (s : Store) :
  dependency_keys_unique s → seed_fresh s → no_duplicate_target operator_id s →
  ∀ d, d ∈ dependencies_of operator_id (update_dependencies operator_id new s) ↔ d ∈ new.
Proof.
  intros Hkeys Hfresh Hnd d. unfold dependencies_of at 1.
  rewrite update_dependencies_rows by done.
  rewrite fmap_app, created_rows_targets, elem_of_app.
  unfold dependencies_to_add. rewrite list_elem_of_filter, list_elem_of_fmap.
  split.
  - intros [(r & -> & Hr) | [_ Hd]]; [|done].
    by apply list_elem_of_filter in Hr as [Hr _].
  - intros Hd. destruct (decide (d ∈ dependencies_of operator_id s)) as [Hin | Hnin].
    + left. unfold dependencies_of in Hin. apply list_elem_of_fmap in Hin as (r & -> & Hr).
      exists r. split; [done|]. by apply list_elem_of_filter.
    + by right.
Qed.

Lemma update_dependencies_NoDup (operator_id : uuid) (new : list uuid) (s : Store) :
  dependency_keys_unique s → seed_fresh s → no_duplicate_target operator_id s →
  NoDup new →
  NoDup (dependencies_of operator_id (update_dependencies operator_id new s)).
Proof.
  intros Hkeys Hfresh Hnd Hnew. unfold dependencies_of at 1.
  rewrite update_dependencies_rows by done.
  rewrite fmap_app, created_rows_targets. apply NoDup_app. split_and!.
  - eapply sublist_NoDup; [exact Hnd|]. unfold dependencies_of.
    apply fmap_sublist, sublist_filter.
  - intros d Hd Hadd. unfold dependencies_to_add in Hadd.
    apply list_elem_of_filter in Hadd as [Hnin _]. apply Hnin.
    apply list_elem_of_fmap in Hd as (r & -> & Hr).
    apply list_elem_of_filter in Hr as [_ Hr]. unfold dependencies_of.
    by apply list_elem_of_fmap_2.
  - by apply NoDup_filter.
Qed.

(** C5. In a store whose dependency rows have distinct keys, whose
    identifier generator is fresh and where the operator has no duplicate
    target, synchronising the operator with a list of distinct identifiers
    and then listing its dependencies returns exactly the requested
    identifiers, each once. *)
Theorem update_dependencies_then_list (operator_id : uuid) (deps : list uuid) (s : Store) :
  dependency_keys_unique s → seed_fresh s → no_duplicate_target operator_id s →
  NoDup deps →
  dependencies_of operator_id (update_dependencies operator_id deps s) ≡ₚ deps.
Proof.
  intros Hkeys Hfresh Hnd Hdeps. apply NoDup_Permutation.
  - by apply update_dependencies_NoDup.
  - done.
  - by apply update_dependencies_members.
Qed.

(** C10. Under the same conditions synchronising twice with the same list
    is the same as doing it once: the second run issues no call to the Graph
    Store and leaves the store of the first run. *)
Theorem update_dependencies_idempotent (operator_id : uuid) (deps : list uuid) (s : Store) :
  dependency_keys_unique s → seed_fresh s → no_duplicate_target operator_id s →
  NoDup deps →
  update_dependencies_calls operator_id deps (update_dependencies operator_id deps s) = [] ∧
  update_dependencies operator_id deps (update_dependencies operator_id deps s)
  = update_dependencies operator_id deps s.
Proof.
  intros Hkeys Hfresh Hnd Hdeps. apply update_dependencies_same_set.
  intros d. symmetry. by apply update_dependencies_members.
Qed.

(** ** Cycle detection *)

Lemma tc_rtc_inv {A : Type} (R : relation A) (x z : A) :
  tc R x z → ∃ y, R x y ∧ rtc R y z.
Proof.
  intros [x' z' H | x' y z' H Hyz].
  - exists z'. split; [done | apply rtc_refl].
  - exists y. split; [done | by apply tc_rtc].
Qed.

Section traversal.
Variable R : relation string.

Lemma grows_refl (V : gmap string bool) : grows V V.
Proof. by split. Qed.

Lemma grows_trans (V1 V2 V3 : gmap string bool) :
  grows V1 V2 → grows V2 V3 → grows V1 V3.
Proof. intros [Hd1 H1] [Hd2 H2]. split; [congruence | auto]. Qed.

Lemma grows_insert (V : gmap string bool) (n : uuid) :
  is_Some (V !! n) → grows V (<[n := true]> V).
Proof.
  intros Hn. split.
  - by apply dom_insert_lookup_L.
  - intros x Hx. destruct (decide (n = x)) as [-> | Hne].
    + by rewrite lookup_insert_eq.
    + by rewrite lookup_insert_ne.
Qed.

Lemma finished_grows (V V' S : gmap string bool) (x : uuid) :
  grows V V' → finished V S x → finished V' S x.
Proof. intros [_ Hm] [Hv Hs]. split; auto. Qed.

Lemma finished_rtc (V S : gmap string bool) (x y : uuid) :
  marks_inv R V S → finished V S x → rtc R x y → finished V S y.
Proof.
  intros (_ & _ & Hclosed & _) Hx Hxy.
  induction Hxy as [|x y z Hxy _ IH]; [done|]. apply IH. by eapply Hclosed.
Qed.

Lemma marks_inv_lookup (V S : gmap string bool) (n : uuid) :
  marks_inv R V S → V !! n = Some false → S !! n = Some false.
Proof.
  intros (Hdom & Hsub & _) Hn.
  assert (Hin : n ∈ dom S) by (rewrite <- Hdom; apply elem_of_dom; eauto).
  apply elem_of_dom in Hin as [[|] Hs]; [|done].
  apply Hsub in Hs. congruence.
Qed.

Lemma marks_inv_stack_is_Some (V S : gmap string bool) (n : uuid) :
  marks_inv R V S → is_Some (V !! n) → is_Some (S !! n).
Proof.
  intros (Hdom & _) Hn. apply elem_of_dom. rewrite <- Hdom. by apply elem_of_dom.
Qed.

(** Entering [n]: both marks are set. *)
Lemma marks_inv_enter (V S : gmap string bool) (n : uuid) :
  marks_inv R V S → V !! n = Some false →
  marks_inv R (<[n := true]> V) (<[n := true]> S).
Proof.
  intros Hinv Hn. pose proof Hinv as (Hdom & Hsub & Hclosed & Hacyc).
  assert (Hfin : ∀ x, finished (<[n := true]> V) (<[n := true]> S) x ↔ finished V S x).
  { intros x. unfold finished. destruct (decide (n = x)) as [-> | Hne].
    - rewrite !lookup_insert_eq. split; intros [? ?]; congruence.
    - by rewrite !lookup_insert_ne. }
  split_and!.
  - rewrite !dom_insert_L. by rewrite Hdom.
  - intros x. destruct (decide (n = x)) as [-> | Hne].
    + by rewrite !lookup_insert_eq.
    + rewrite !lookup_insert_ne by done. apply Hsub.
  - intros x y Hx Hxy. apply Hfin. apply Hfin in Hx. by eapply Hclosed.
  - intros x Hx. apply Hfin in Hx. by apply Hacyc.
Qed.

(** Leaving [n] after all its neighbours are finished. *)
Lemma marks_inv_leave (V S : gmap string bool) (n : uuid) :
  marks_inv R V (<[n := true]> S) → S !! n = Some false →
  V !! n = Some true →
  (∀ y, R n y → finished V (<[n := true]> S) y) →
  marks_inv R V S.
Proof.
  intros Hinv Hn Hvn Hsucc. pose proof Hinv as (Hdom & Hsub & Hclosed & Hacyc).
  assert (Hother : ∀ x, finished V (<[n := true]> S) x → finished V S x).
  { intros x [Hv Hs]. split; [done|]. destruct (decide (n = x)) as [-> | Hne].
    - rewrite lookup_insert_eq in Hs. congruence.
    - by rewrite lookup_insert_ne in Hs. }
  assert (Hback : ∀ x, x ≠ n → finished V S x → finished V (<[n := true]> S) x).
  { intros x Hne [Hv Hs]. split; [done|]. by rewrite lookup_insert_ne. }
  split_and!.
  - rewrite Hdom. apply dom_insert_lookup_L. eauto.
  - intros x Hx. apply Hsub. destruct (decide (n = x)) as [-> | Hne]; [congruence|].
    by rewrite lookup_insert_ne.
  - intros x y Hx Hxy. apply Hother. destruct (decide (x = n)) as [-> | Hne].
    + by apply Hsucc.
    + eapply Hclosed; [by apply Hback | done].
  - intros x Hx Hcyc. destruct (decide (x = n)) as [-> | Hne].
    + apply tc_rtc_inv in Hcyc as (y & Hny & Hyn).
      assert (Hfin : finished V (<[n := true]> S) n).
      { eapply finished_rtc; [exact Hinv | by apply Hsucc | done]. }
      destruct Hfin as [_ Hs]. rewrite lookup_insert_eq in Hs. congruence.
    + by apply (Hacyc x (Hback x Hne Hx)).
Qed.
End traversal.

Section detector.
Variable s : Store.
Variable new : list uuid.
Variable opn : option uuid.

Let R : relation string := overlay_edge s new opn.

Lemma neighbours_loop_spec
    (rec : uuid → gmap string bool → gmap string bool
           → result (bool * (gmap string bool * gmap string bool)))
    (n : uuid) (S : gmap string bool) :
  (∀ m V, marks_inv R V S → V !! m = Some false → util_post R m V S (rec m V S)) →
  S !! n = Some true →
  ∀ ns V, marks_inv R V S → (∀ y, y ∈ ns → R n y) →
  match neighbours_loop rec ns V S with
  | Ok (false, (V', S')) =>
      S' = S ∧ marks_inv R V' S ∧ grows V V' ∧ ∀ y, y ∈ ns → finished V' S y
  | Ok (true, _) => stack_reaches R S n → ∃ x, x ∈ dom V ∧ tc R x x
  | Raise e => e = KeyError ∨ e = RecursionError
  end.
Proof.
  intros Hrec Hn ns. induction ns as [|y rest IH]; intros V Hinv Hsucc; simpl.
  { split_and!; [done | done | apply grows_refl |].
    intros y Hy. by apply elem_of_nil in Hy. }
  assert (Hrest : ∀ z, z ∈ rest → R n z) by (intros z Hz; apply Hsucc; by right).
  destruct (V !! y) as [[|]|] eqn:Hy; [| |by left].
  - destruct (S !! y) as [[|]|] eqn:Hsy; [| |by left].
    + intros Hreach. exists y. split; [apply elem_of_dom; eauto|].
      eapply tc_rtc_l; [by apply Hreach|]. apply tc_once, Hsucc. by left.
    + specialize (IH V Hinv Hrest).
      destruct (neighbours_loop rec rest V S) as [[[|] [V' S']]|e]; [done| |done].
      destruct IH as (-> & Hinv' & Hgrow & Hfin). split_and!; [done..|].
      intros z [-> | Hz]%elem_of_cons; [|by apply Hfin].
      split; [by apply Hgrow | done].
  - pose proof (Hrec y V Hinv Hy) as Hpost.
    destruct (rec y V S) as [[[|] [V1 S1]]|e]; simpl; [| |done].
    + intros Hreach. apply Hpost. intros g Hg.
      eapply rtc_r; [by apply Hreach|]. apply Hsucc. by left.
    + destruct Hpost as (-> & Hinv1 & Hgrow1 & Hy1).
      rewrite (marks_inv_lookup R V S y Hinv Hy).
      specialize (IH V1 Hinv1 Hrest).
      destruct (neighbours_loop rec rest V1 S) as [[[|] [V' S']]|e]; [| |done].
      * intros Hreach. destruct (IH Hreach) as (x & Hx & Hcyc).
        exists x. split; [|done]. destruct Hgrow1 as [Hd _]. by rewrite <- Hd.
      * destruct IH as (-> & Hinv' & Hgrow & Hfin). split_and!; [done | done | |].
        { by eapply grows_trans. }
        intros z [-> | Hz]%elem_of_cons; [|by apply Hfin].
        split; [by apply Hgrow|]. by apply (marks_inv_lookup R V S).
Qed.

(** Partial correctness of [has_cycles_util]. *)
Lemma has_cycles_util_spec (fuel : nat) (n : uuid) (V S : gmap string bool) :
  marks_inv R V S → V !! n = Some false →
  util_post R n V S (has_cycles_util fuel s n V S new opn).
Proof.
  revert n V S. induction fuel as [|fuel IH]; intros n V S Hinv Hn; simpl; [by right|].
  pose proof (marks_inv_lookup R V S n Hinv Hn) as HSn.
  pose proof (neighbours_loop_spec
    (λ m v st, has_cycles_util fuel s m v st new opn) n (<[n := true]> S)
    (λ m V' Hinv' Hm, IH m V' _ Hinv' Hm) (lookup_insert_eq S n true)
    (neighbours s new opn n) (<[n := true]> V)
    (marks_inv_enter R V S n Hinv Hn) (λ y Hy, Hy)) as Hloop.
  destruct (neighbours_loop _ _ _ _) as [[[|] [V' S']]|e]; simpl; [| |done].
  - intros Hreach. destruct Hloop as (x & Hx & Hcyc).
    + intros g. destruct (decide (n = g)) as [-> | Hne].
      * intros _. apply rtc_refl.
      * rewrite lookup_insert_ne by done. apply Hreach.
    + exists x. split; [|done]. rewrite dom_insert_L in Hx.
      apply elem_of_union in Hx as [->%elem_of_singleton | Hx]; [|done].
      apply elem_of_dom; eauto.
  - destruct Hloop as (-> & Hinv' & Hgrow & Hfin).
    assert (Hgrow0 : grows V V').
    { eapply grows_trans; [|exact Hgrow]. apply grows_insert. eauto. }
    assert (HVn : V' !! n = Some true).
    { apply Hgrow. apply lookup_insert_eq. }
    rewrite insert_insert_eq, (insert_id S n false HSn).
    split_and!; [done | | done | done].
    by apply (marks_inv_leave R V' S n).
Qed.

Lemma elem_of_unvisited (V : gmap string bool) (x : uuid) :
  x ∈ unvisited V ↔ V !! x = Some false.
Proof.
  unfold unvisited. rewrite elem_of_dom. split.
  - intros [b Hb]. apply map_lookup_filter_Some in Hb as [Hb Hf].
    simpl in Hf. by subst.
  - intros Hx. exists false. by apply map_lookup_filter_Some.
Qed.

Lemma unvisited_grows (V V' : gmap string bool) :
  grows V V' → unvisited V' ⊆ unvisited V.
Proof.
  intros [Hdom Hm] x Hx. apply elem_of_unvisited in Hx. apply elem_of_unvisited.
  assert (Hin : x ∈ dom V) by (rewrite <- Hdom; apply elem_of_dom; eauto).
  apply elem_of_dom in Hin as [[|] Hv]; [|done].
  apply Hm in Hv. congruence.
Qed.

Lemma unvisited_enter (V : gmap string bool) (n : uuid) :
  V !! n = Some false →
  size (unvisited (<[n := true]> V)) < size (unvisited V).
Proof.
  intros Hn. apply subset_size. split.
  - apply unvisited_grows, grows_insert. eauto.
  - intros Hsub. assert (Hin : n ∈ unvisited (<[n := true]> V)).
    { apply Hsub. by apply elem_of_unvisited. }
    apply elem_of_unvisited in Hin. rewrite lookup_insert_eq in Hin. congruence.
Qed.

Lemma neighbours_loop_total
    (rec : uuid → gmap string bool → gmap string bool
           → result (bool * (gmap string bool * gmap string bool)))
    (S : gmap string bool) (fuel : nat) :
  (∀ m V, marks_inv R V S → V !! m = Some false → util_post R m V S (rec m V S)) →
  (∀ m V, marks_inv R V S → V !! m = Some false → size (unvisited V) ≤ fuel →
          is_ok (rec m V S) = true) →
  ∀ ns V, marks_inv R V S → size (unvisited V) ≤ fuel →
          (∀ y, y ∈ ns → y ∈ dom V) →
          is_ok (neighbours_loop rec ns V S) = true.
Proof.
  intros Hspec Htot ns. induction ns as [|y rest IH]; intros V Hinv Hsize Hdom;
    simpl; [done|].
  assert (Hy : is_Some (V !! y)) by (apply elem_of_dom, Hdom; by left).
  assert (Hrest : ∀ z, z ∈ rest → z ∈ dom V) by (intros z Hz; apply Hdom; by right).
  destruct Hy as [[|] Hy]; rewrite Hy.
  - destruct (marks_inv_stack_is_Some R V S y Hinv) as [[|] Hsy]; [eauto| |];
      rewrite Hsy; [done|]. by apply IH.
  - pose proof (Hspec y V Hinv Hy) as Hpost.
    pose proof (Htot y V Hinv Hy Hsize) as Hok.
    destruct (rec y V S) as [[[|] [V1 S1]]|e]; simpl; [done| |done].
    destruct Hpost as (-> & Hinv1 & Hgrow1 & Hy1).
    rewrite (marks_inv_lookup R V S y Hinv Hy). apply IH; [done | |].
    + etrans; [|exact Hsize]. by apply subseteq_size, unvisited_grows.
    + intros z Hz. destruct Hgrow1 as [-> _]. by apply Hrest.
Qed.

(** With keys closed under the edges and fuel for every unvisited key,
    [has_cycles_util] raises nothing. *)
Lemma has_cycles_util_total (fuel : nat) (n : uuid) (V S : gmap string bool) :
  (∀ x y, x ∈ dom V → R x y → y ∈ dom V) →
  marks_inv R V S → V !! n = Some false → size (unvisited V) ≤ fuel →
  is_ok (has_cycles_util fuel s n V S new opn) = true.
Proof.
  revert n V S. induction fuel as [|fuel IH]; intros n V S Hclosed Hinv Hn Hsize.
  { exfalso. assert (Hempty : unvisited V ≡ ∅) by (apply size_empty_inv; lia).
    assert (Hin : n ∈ unvisited V) by by apply elem_of_unvisited.
    rewrite Hempty in Hin. by apply elem_of_empty in Hin. }
  simpl.
  assert (Hdom1 : dom (<[n := true]> V) = dom V).
  { apply (grows_insert V n). eauto. }
  assert (Hloop : is_ok (neighbours_loop
            (λ m v st, has_cycles_util fuel s m v st new opn)
            (neighbours s new opn n) (<[n := true]> V) (<[n := true]> S)) = true).
  { apply (neighbours_loop_total _ _ fuel).
    - intros m V' Hinv' Hm. by apply has_cycles_util_spec.
    - intros m V' Hinv' Hm Hsz. apply IH; [|done..].
      intros x y Hx Hxy.
      assert (HdomV' : dom V' = dom V).
      { destruct Hinv' as (Hd & _). destruct Hinv as (Hd0 & _).
        rewrite Hd, Hd0. apply dom_insert_lookup_L.
        apply elem_of_dom. rewrite <- Hd0. apply elem_of_dom. eauto. }
      rewrite HdomV' in *. by eapply Hclosed.
    - by apply marks_inv_enter.
    - pose proof (unvisited_enter V n Hn). lia.
    - intros y Hy. rewrite Hdom1. eapply Hclosed; [|exact Hy].
      apply elem_of_dom. eauto. }
  destruct (neighbours_loop _ _ _ _) as [[[|] [V' S']]|e]; simpl; done.
Qed.
Lemma raise_if_has_cycles_loop_spec (fuel : nat) (ops : list uuid)
    (V S : gmap string bool) :
  marks_inv R V S → (∀ g, S !! g ≠ Some true) →
  match raise_if_has_cycles_loop fuel s ops V S new opn with
  | Ok b =>
      b = false ∧
      ∃ V', marks_inv R V' S ∧ grows V V' ∧ ∀ x, x ∈ ops → V' !! x = Some true
  | Raise e =>
      e = KeyError ∨ e = RecursionError ∨
      (e = BadRequest CYCLICAL_MSG ∧ ∃ x, x ∈ dom V ∧ tc R x x)
  end.
Proof.
  intros Hinv Hgrey. revert V Hinv.
  induction ops as [|x rest IH]; intros V Hinv; simpl.
  { split; [done|]. exists V. split_and!; [done | apply grows_refl |].
    intros x Hx. by apply elem_of_nil in Hx. }
  destruct (V !! x) as [[|]|] eqn:Hx; [| |by left].
  - specialize (IH V Hinv).
    destruct (raise_if_has_cycles_loop fuel s rest V S new opn) as [b|e]; [|done].
    destruct IH as (-> & V' & Hinv' & Hgrow & Hall). split; [done|].
    exists V'. split_and!; [done..|].
    intros z [-> | Hz]%elem_of_cons; [by apply Hgrow | by apply Hall].
  - pose proof (has_cycles_util_spec fuel x V S Hinv Hx) as Hpost.
    destruct (has_cycles_util fuel s x V S new opn) as [[[|] [V1 S1]]|e]; simpl.
    + right; right. split; [done|]. apply Hpost. intros g Hg. by apply Hgrey in Hg.
    + destruct Hpost as (-> & Hinv1 & Hgrow1 & Hx1). specialize (IH V1 Hinv1).
      destruct (raise_if_has_cycles_loop fuel s rest V1 S new opn) as [b|e].
      * destruct IH as (-> & V' & Hinv' & Hgrow & Hall). split; [done|].
        exists V'. split_and!; [done | by eapply grows_trans |].
        intros z [-> | Hz]%elem_of_cons; [by apply Hgrow | by apply Hall].
      * destruct IH as [-> | [-> | (-> & y & Hy & Hcyc)]]; [by left | by right; left |].
        right; right. split; [done|]. exists y. split; [|done].
        destruct Hgrow1 as [Hd _]. by rewrite <- Hd.
    + destruct Hpost as [-> | ->]; [by left | by right; left].
Qed.

Lemma raise_if_has_cycles_loop_total (fuel : nat) (ops : list uuid)
    (V S : gmap string bool) :
  (∀ x y, x ∈ dom V → R x y → y ∈ dom V) →
  marks_inv R V S → (∀ g, S !! g ≠ Some true) →
  size (unvisited V) ≤ fuel → (∀ x, x ∈ ops → x ∈ dom V) →
  raise_if_has_cycles_loop fuel s ops V S new opn = Ok false ∨
  raise_if_has_cycles_loop fuel s ops V S new opn = Raise (BadRequest CYCLICAL_MSG).
Proof.
  intros Hclosed Hinv Hgrey. revert V Hclosed Hinv.
  induction ops as [|x rest IH]; intros V Hclosed Hinv Hsize Hdom; simpl; [by left|].
  assert (Hx : is_Some (V !! x)) by (apply elem_of_dom, Hdom; by left).
  assert (Hrest : ∀ z, z ∈ rest → z ∈ dom V) by (intros z Hz; apply Hdom; by right).
  destruct Hx as [[|] Hx]; rewrite Hx; [by apply IH|].
  pose proof (has_cycles_util_spec fuel x V S Hinv Hx) as Hpost.
  pose proof (has_cycles_util_total fuel x V S Hclosed Hinv Hx Hsize) as Hok.
  destruct (has_cycles_util fuel s x V S new opn) as [[[|] [V1 S1]]|e];
    simpl; [by right | | done].
  destruct Hpost as (-> & Hinv1 & Hgrow1 & Hx1).
  pose proof Hgrow1 as [Hd _]. apply IH; [| done | |].
  - intros y z. rewrite Hd. apply Hclosed.
  - etrans; [|exact Hsize]. by apply subseteq_size, unvisited_grows.
  - intros z Hz. rewrite Hd. by apply Hrest.
Qed.
End detector.

Lemma elem_of_merge_dependencies (a b : list uuid) (x : uuid) :
  x ∈ merge_dependencies a b ↔ x ∈ a ∨ x ∈ b.
Proof.
  unfold merge_dependencies.
  rewrite elem_of_app, list_elem_of_difference, elem_of_remove_dups.
  destruct (decide (x ∈ a)); tauto.
Qed.

Lemma elem_of_neighbours (s : Store) (new : list uuid) (opn : option uuid) (x y : uuid) :
  y ∈ neighbours s new opn x ↔ edge s x y ∨ (Some x = opn ∧ y ∈ new).
Proof.
  unfold neighbours, edge. case_bool_decide as Hop.
  - rewrite elem_of_merge_dependencies. tauto.
  - tauto.
Qed.

Lemma fromkeys_lookup_is_false (keys : list uuid) (x : uuid) (b : bool) :
  fromkeys keys false !! x = Some b → b = false.
Proof.
  intros H. apply elem_of_list_to_map_2 in H.
  apply list_elem_of_fmap in H as (k & Heq & _). congruence.
Qed.

Lemma dom_fromkeys (keys : list uuid) (v : bool) :
  dom (fromkeys keys v) = list_to_set keys.
Proof.
  unfold fromkeys. rewrite dom_list_to_map_L. f_equal.
  rewrite <- list_fmap_compose. apply list_fmap_id.
Qed.

Lemma size_list_to_set_le (l : list uuid) :
  size (list_to_set l : gset string) ≤ length l.
Proof.
  induction l as [|a l IH].
  { rewrite list_to_set_nil, size_empty. done. }
  rewrite list_to_set_cons, size_union_alt, size_singleton. simpl.
  assert (size (list_to_set l ∖ {[a]} : gset string) ≤ size (list_to_set l : gset string)).
  { apply subseteq_size. apply subseteq_difference_l. done. }
  lia.
Qed.

Lemma marks_inv_fromkeys (R : relation string) (keys : list uuid) :
  marks_inv R (fromkeys keys false) (fromkeys keys false).
Proof.
  split_and!.
  - done.
  - intros x Hx. by apply fromkeys_lookup_is_false in Hx.
  - intros x y [Hx _]. by apply fromkeys_lookup_is_false in Hx.
  - intros x [Hx _]. by apply fromkeys_lookup_is_false in Hx.
Qed.

Lemma unvisited_fromkeys_size (keys : list uuid) :
  size (unvisited (fromkeys keys false)) ≤ length keys.
Proof.
  etrans; [|apply size_list_to_set_le]. apply subseteq_size.
  rewrite <- (dom_fromkeys keys false). unfold unvisited.
  apply dom_filter_subseteq.
Qed.

(** ** Listing the operators of a pipeline *)

Lemma list_operators_loop_Ok (ops : list Operator) (s : Store) (l : list operator_dict) :
  list_operators_loop ops s = Ok l → od_operator <$> l = ops.
Proof.
  revert l. induction ops as [|o ops IH]; intros l; simpl.
  - by intros [= <-].
  - destruct (check_status o s) as [st|e]; simpl; [|done].
    destruct (list_operators_loop ops s) as [l'|e]; simpl; [|done].
    intros [= <-]. simpl. f_equal. by apply IH.
Qed.

Lemma check_status_is_ok (o : Operator) (s : Store) :
  is_Some (tasks s !! task_id_of o) → is_ok (check_status o s) = true.
Proof.
  intros [t Ht]. unfold check_status. rewrite Ht.
  repeat case_bool_decide; done.
Qed.

Lemma check_status_Raise (o : Operator) (s : Store) (e : exn) :
  check_status o s = Raise e → e = AttributeError.
Proof.
  unfold check_status. destruct (tasks s !! task_id_of o); [|congruence].
  repeat case_bool_decide; done.
Qed.

Lemma list_operators_loop_is_ok (ops : list Operator) (s : Store) :
  (∀ o, o ∈ ops → is_Some (tasks s !! task_id_of o)) →
  is_ok (list_operators_loop ops s) = true.
Proof.
  induction ops as [|o ops IH]; intros Hall; simpl; [done|].
  pose proof (check_status_is_ok o s (Hall o ltac:(by left))) as Ho.
  destruct (check_status o s) as [st|e]; simpl; [|done].
  assert (Hrest : is_ok (list_operators_loop ops s) = true).
  { apply IH. intros o' Ho'. apply Hall. by right. }
  destruct (list_operators_loop ops s); simpl; done.
Qed.

Lemma list_operators_loop_Raise (ops : list Operator) (s : Store) (e : exn) :
  list_operators_loop ops s = Raise e → e = AttributeError.
Proof.
  induction ops as [|o ops IH]; simpl; [done|].
  destruct (check_status o s) as [st|e'] eqn:Hst; simpl.
  - destruct (list_operators_loop ops s) as [l'|e']; simpl; [done|].
    intros [= <-]. by apply IH.
  - intros [= <-]. by eapply check_status_Raise.
Qed.

Lemma list_operators_Ok (project_id experiment_id : uuid) (s : Store)
    (l : list operator_dict) :
  list_operators project_id experiment_id s = Ok l →
  (λ op, uuid_of (od_operator op)) <$> l = experiment_uuids experiment_id s.
Proof.
  unfold list_operators, raise_if_project_does_not_exist,
    raise_if_experiment_does_not_exist.
  repeat case_bool_decide; simpl; try done.
  intros Hl%list_operators_loop_Ok. unfold experiment_uuids, experiment_operators.
  rewrite <- Hl, <- list_fmap_compose. done.
Qed.

Lemma list_operators_Raise (project_id experiment_id : uuid) (s : Store) (e : exn) :
  list_operators project_id experiment_id s = Raise e →
  (∃ m, e = NotFound m) ∨ e = AttributeError.
Proof.
  unfold list_operators, raise_if_project_does_not_exist,
    raise_if_experiment_does_not_exist.
  repeat case_bool_decide; simpl.
  - intros Hl%list_operators_loop_Raise. by right.
  - intros [= <-]. left. eauto.
  - intros [= <-]. left. eauto.
  - intros [= <-]. left. eauto.
Qed.

Lemma list_operators_is_ok (project_id experiment_id : uuid) (s : Store) :
  project_id ∈ projects s → experiment_id ∈ experiments s →
  tasks_known experiment_id s →
  is_ok (list_operators project_id experiment_id s) = true.
Proof.
  intros Hp He Ht. unfold list_operators, raise_if_project_does_not_exist,
    raise_if_experiment_does_not_exist.
  rewrite !bool_decide_eq_true_2 by done. simpl.
  by apply list_operators_loop_is_ok.
Qed.

(** ** The detector as a whole *)

Lemma fromkeys_lookup_elem (keys : list uuid) (x : uuid) :
  x ∈ keys → fromkeys keys false !! x = Some false.
Proof.
  intros Hx. assert (Hin : x ∈ dom (fromkeys keys false)).
  { rewrite dom_fromkeys. by apply elem_of_list_to_set. }
  apply elem_of_dom in Hin as [b Hb].
  by rewrite (fromkeys_lookup_is_false keys x b Hb) in Hb.
Qed.

Lemma fromkeys_no_stack (keys : list uuid) (g : uuid) :
  fromkeys keys false !! g ≠ Some true.
Proof. intros Hg. by apply fromkeys_lookup_is_false in Hg. Qed.

(** An accepted request: no operator of the pipeline is on a cycle of the
    walked graph, and the walk never left the pipeline. *)
Lemma raise_if_has_cycles_Ok (project_id experiment_id : uuid) (opn : option uuid)
    (new : list uuid) (s : Store) (b : bool) :
  raise_if_has_cycles project_id experiment_id opn new s = Ok b →
  b = false ∧ ¬ would_create_cycle experiment_id new opn s
  ∧ overlay_closed experiment_id new opn s.
Proof.
  unfold raise_if_has_cycles.
  destruct (list_operators project_id experiment_id s) as [l|e] eqn:Hl; simpl; [|done].
  rewrite (list_operators_Ok _ _ _ _ Hl).
  set (keys := experiment_uuids experiment_id s).
  pose proof (raise_if_has_cycles_loop_spec s new opn (S (length keys)) keys
    (fromkeys keys false) (fromkeys keys false)
    (marks_inv_fromkeys _ keys) (fromkeys_no_stack keys)) as Hspec.
  intros Hres. rewrite Hres in Hspec.
  destruct Hspec as (-> & V' & Hinv & Hgrow & Hall).
  assert (Hfin : ∀ x, x ∈ keys → finished V' (fromkeys keys false) x).
  { intros x Hx. split; [by apply Hall | by apply fromkeys_lookup_elem]. }
  split_and!; [done | |].
  - intros (x & Hx & Hcyc). destruct Hinv as (_ & _ & _ & Hacyc).
    by apply (Hacyc x (Hfin x Hx)).
  - intros x y Hx Hxy. destruct Hinv as (_ & _ & Hclosed & _).
    destruct (Hclosed x y (Hfin x Hx) Hxy) as [Hy _].
    assert (Hin : y ∈ dom V') by (apply elem_of_dom; eauto).
    destruct Hgrow as [Hd _]. rewrite Hd, dom_fromkeys in Hin.
    by apply elem_of_list_to_set in Hin.
Qed.

(** A rejected request: some operator of the pipeline is on a cycle. *)
Lemma raise_if_has_cycles_BadRequest (project_id experiment_id : uuid)
    (opn : option uuid) (new : list uuid) (s : Store) (m : string) :
  raise_if_has_cycles project_id experiment_id opn new s = Raise (BadRequest m) →
  m = CYCLICAL_MSG ∧ would_create_cycle experiment_id new opn s.
Proof.
  unfold raise_if_has_cycles.
  destruct (list_operators project_id experiment_id s) as [l|e] eqn:Hl; simpl.
  - rewrite (list_operators_Ok _ _ _ _ Hl).
    set (keys := experiment_uuids experiment_id s).
    pose proof (raise_if_has_cycles_loop_spec s new opn (S (length keys)) keys
      (fromkeys keys false) (fromkeys keys false)
      (marks_inv_fromkeys _ keys) (fromkeys_no_stack keys)) as Hspec.
    intros Hres. rewrite Hres in Hspec.
    destruct Hspec as [? | [? | ([= ->] & x & Hx & Hcyc)]]; [done | done |].
    split; [done|]. exists x. split; [|done].
    rewrite dom_fromkeys in Hx. by apply elem_of_list_to_set in Hx.
  - intros [= ->]. apply list_operators_Raise in Hl as [[m' ?] | ?]; done.
Qed.

(** In a pipeline that exists, whose operators have their tasks and whose
    walked graph stays inside the pipeline, the detector answers: either no
    cycle, or the cycle error. *)
Lemma raise_if_has_cycles_total (project_id experiment_id : uuid)
    (opn : option uuid) (new : list uuid) (s : Store) :
  project_id ∈ projects s → experiment_id ∈ experiments s →
  tasks_known experiment_id s → overlay_closed experiment_id new opn s →
  raise_if_has_cycles project_id experiment_id opn new s = Ok false ∨
  raise_if_has_cycles project_id experiment_id opn new s
  = Raise (BadRequest CYCLICAL_MSG).
Proof.
  intros Hp He Ht Hclosed. unfold raise_if_has_cycles.
  pose proof (list_operators_is_ok project_id experiment_id s Hp He Ht) as Hok.
  destruct (list_operators project_id experiment_id s) as [l|e] eqn:Hl; simpl; [|done].
  rewrite (list_operators_Ok _ _ _ _ Hl).
  set (keys := experiment_uuids experiment_id s).
  apply raise_if_has_cycles_loop_total.
  - intros x y. rewrite dom_fromkeys, !elem_of_list_to_set. apply Hclosed.
  - apply marks_inv_fromkeys.
  - apply fromkeys_no_stack.
  - pose proof (unvisited_fromkeys_size keys). lia.
  - intros x Hx. rewrite dom_fromkeys. by apply elem_of_list_to_set.
Qed.

Lemma raise_if_has_cycles_iff (project_id experiment_id : uuid)
    (opn : option uuid) (new : list uuid) (s : Store) :
  project_id ∈ projects s → experiment_id ∈ experiments s →
  tasks_known experiment_id s → overlay_closed experiment_id new opn s →
  (raise_if_has_cycles project_id experiment_id opn new s
   = Raise (BadRequest CYCLICAL_MSG) ↔ would_create_cycle experiment_id new opn s) ∧
  (raise_if_has_cycles project_id experiment_id opn new s = Ok false
   ↔ ¬ would_create_cycle experiment_id new opn s).
Proof.
  intros Hp He Ht Hclosed.
  destruct (raise_if_has_cycles_total project_id experiment_id opn new s Hp He Ht Hclosed)
    as [Hr | Hr].
  - pose proof (raise_if_has_cycles_Ok _ _ _ _ _ _ Hr) as (_ & Hno & _).
    rewrite Hr. split; split; intros; try done; tauto.
  - pose proof (raise_if_has_cycles_BadRequest _ _ _ _ _ _ Hr) as (_ & Hc).
    rewrite Hr. split; split; intros; try done; tauto.
Qed.

(** ** Paths of the walked graph against stored paths *)

Section overlay_paths.
Variable s : Store.
Variable new : list uuid.
Variable a : uuid.

Let R : relation string := overlay_edge s new (Some a).

Lemma overlay_edge_inv (x y : uuid) :
  R x y ↔ edge s x y ∨ (x = a ∧ y ∈ new).
Proof.
  unfold R, overlay_edge. rewrite elem_of_neighbours.
  split; (intros [? | [? ?]]; [by left | right; split; [congruence | done]]).
Qed.

Lemma edge_overlay (x y : uuid) : edge s x y → R x y.
Proof. intros H. apply overlay_edge_inv. by left. Qed.

Lemma rtc_edge_overlay (x y : uuid) : rtc (edge s) x y → rtc R x y.
Proof. apply rtc_subrel. intros ? ?. apply edge_overlay. Qed.

(** A walked path is stored, or it leaves [a] by a requested edge a
    first time. *)
Lemma overlay_path_first (x y : uuid) :
  tc R x y →
  tc (edge s) x y ∨ (rtc (edge s) x a ∧ ∃ b, b ∈ new ∧ rtc R b y).
Proof.
  induction 1 as [x y Hxy | x y z Hxy Hyz IH].
  - apply overlay_edge_inv in Hxy as [He | [-> Hn]].
    + left. by apply tc_once.
    + right. split; [apply rtc_refl|]. exists y. split; [done | apply rtc_refl].
  - apply overlay_edge_inv in Hxy as [He | [-> Hn]].
    + destruct IH as [IH | [IH Hb]].
      * left. by eapply tc_l.
      * right. split; [by eapply rtc_l | done].
    + right. split; [apply rtc_refl|]. exists y. split; [done | by apply tc_rtc].
Qed.

(** A walked path is stored, or its last requested edge is followed by
    stored edges only. *)
Lemma overlay_path_last (x y : uuid) :
  rtc R x y → rtc (edge s) x y ∨ ∃ b, b ∈ new ∧ rtc (edge s) b y.
Proof.
  induction 1 as [x | x y z Hxy Hyz IH].
  - left. apply rtc_refl.
  - destruct IH as [IH | IH]; [|by right].
    apply overlay_edge_inv in Hxy as [He | [-> Hn]].
    + left. by eapply rtc_l.
    + right. by exists y.
Qed.

(** Over a pipeline without stored cycle, a cycle of the walked graph
    means that a requested dependency already reaches [a]. *)
Lemma overlay_cycle_reaches (x : uuid) :
  ¬ tc (edge s) x x → tc R x x → ∃ b, b ∈ new ∧ rtc (edge s) b a.
Proof.
  intros Hacyc Hcyc. apply overlay_path_first in Hcyc as [Hc | [Hxa (b & Hb & Hbx)]];
    [done|].
  assert (Hba : rtc R b a).
  { etrans; [exact Hbx|]. by apply rtc_edge_overlay. }
  apply overlay_path_last in Hba as [Hba | Hba]; [by exists b | done].
Qed.

Lemma reaches_overlay_cycle (b : uuid) :
  b ∈ new → rtc (edge s) b a → tc R a a.
Proof.
  intros Hb Hba. eapply tc_rtc_r; [|by apply rtc_edge_overlay].
  apply tc_once, overlay_edge_inv. by right.
Qed.
End overlay_paths.

Lemma overlay_closed_intro (experiment_id : uuid) (new : list uuid)
    (opn : option uuid) (s : Store) :
  experiment_closed experiment_id s →
  (∀ d, d ∈ new → d ∈ experiment_uuids experiment_id s) →
  overlay_closed experiment_id new opn s.
Proof.
  intros Hclosed Hnew x y Hx Hxy. unfold overlay_edge in Hxy.
  apply elem_of_neighbours in Hxy as [He | [_ Hn]]; [by eapply Hclosed | by apply Hnew].
Qed.


(** ** Validation of a dependency list *)

Lemma length_remove_dups_le (l : list uuid) : length (remove_dups l) ≤ length l.
Proof.
  induction l as [|a l IH]; simpl; [done|]. case_decide; simpl; lia.
Qed.

Lemma length_remove_dups_NoDup (l : list uuid) :
  length (remove_dups l) = length l ↔ NoDup l.
Proof.
  induction l as [|a l IH]; simpl.
  - split; [intros _; apply NoDup_nil_2 | done].
  - pose proof (length_remove_dups_le l). rewrite NoDup_cons. case_decide; simpl.
    + split; [lia | tauto].
    + split.
      * intros [= Hlen]. split; [done | by apply IH].
      * intros [_ Hnd]. f_equal. by apply IH.
Qed.

Lemma get_operator_Some (u : uuid) (s : Store) (o : Operator) :
  get_operator u s = Some o → o ∈ operators s ∧ uuid_of o = u.
Proof.
  unfold get_operator. intros [Hin Hu]%find_Some_elem.
  by apply bool_decide_eq_true in Hu.
Qed.

Lemma get_operator_is_Some (u : uuid) (s : Store) (o : Operator) :
  o ∈ operators s → uuid_of o = u → is_Some (get_operator u s).
Proof.
  intros Hin Hu. eapply find_is_Some; [exact Hin|]. by apply bool_decide_eq_true.
Qed.

Lemma raise_if_operator_does_not_exist_cases (d e : uuid) (s : Store) :
  raise_if_operator_does_not_exist d e s = Ok tt ∨
  ∃ m, raise_if_operator_does_not_exist d e s = Raise (NotFound m).
Proof.
  unfold raise_if_operator_does_not_exist.
  destruct (get_operator d s); [case_bool_decide|]; eauto.
Qed.

Lemma raise_if_operator_does_not_exist_ok (d e : uuid) (s : Store) :
  operator_keys_unique s →
  is_ok (raise_if_operator_does_not_exist d e s) = true ↔ d ∈ experiment_uuids e s.
Proof.
  intros Hkeys. unfold raise_if_operator_does_not_exist, experiment_uuids,
    experiment_operators.
  rewrite list_elem_of_fmap. split.
  - destruct (get_operator d s) as [o|] eqn:Ho; [|done].
    apply get_operator_Some in Ho as [Hin Hu]. case_bool_decide; [|done].
    intros _. exists o. split; [done|]. by apply list_elem_of_filter.
  - intros (o & -> & [He Hin]%list_elem_of_filter).
    destruct (get_operator_is_Some (uuid_of o) s o Hin eq_refl) as [o' Ho'].
    rewrite Ho'. apply get_operator_Some in Ho' as [Hin' Hu'].
    assert (o' = o) by by eapply (NoDup_fmap_inj_on uuid_of).
    subst. by rewrite bool_decide_eq_true_2.
Qed.

Lemma check_each_dependency_staged (e : uuid) (opn : option uuid)
    (ds : list uuid) (s : Store) :
  check_each_dependency e opn ds s
  = (check_existence e ds s;; check_self_reference opn ds).
Proof.
  unfold check_existence, check_self_reference.
  induction ds as [|d ds IH]; simpl; [done|].
  destruct (raise_if_operator_does_not_exist_cases d e s) as [Hd | [m Hd]]; rewrite Hd; simpl.
  - destruct (decide (Some d = opn)) as [Hself | Hself].
    + rewrite (bool_decide_eq_true_2 _ Hself).
      destruct (forallb _ ds); simpl; [|done].
      rewrite bool_decide_eq_false_2; [done|]. intros Hall.
      by apply Forall_cons in Hall as [Hd' _].
    + rewrite (bool_decide_eq_false_2 _ Hself), IH.
      destruct (forallb _ ds); simpl; [|done].
      apply (f_equal (λ b : bool, if b then _ else _)).
      apply bool_decide_ext. rewrite Forall_cons. tauto.
  - done.
Qed.

(** The code and the checks taken in the order of the specification answer
    alike on every input. *)
Lemma raise_if_dependencies_are_invalid_staged (project_id experiment_id : uuid)
    (dependencies : deps_payload) (operator_id : option uuid) (s : Store) :
  raise_if_dependencies_are_invalid project_id experiment_id dependencies operator_id s
  = checks_in_stated_order project_id experiment_id dependencies operator_id s.
Proof.
  unfold raise_if_dependencies_are_invalid, checks_in_stated_order.
  destruct dependencies as [|ds]; simpl; [done|].
  unfold check_duplicates.
  destruct (decide (NoDup ds)) as [Hnd | Hnd].
  - rewrite (bool_decide_eq_true_2 _ Hnd).
    rewrite bool_decide_eq_false_2.
    + simpl. rewrite check_each_dependency_staged.
      destruct (check_existence experiment_id ds s); simpl; done.
    + intros Hne. apply Hne. symmetry. by apply length_remove_dups_NoDup.
  - rewrite (bool_decide_eq_false_2 _ Hnd).
    rewrite bool_decide_eq_true_2; [done|].
    intros Hlen. apply Hnd. apply length_remove_dups_NoDup. done.
Qed.

Lemma check_existence_Ok (e : uuid) (ds : list uuid) (s : Store) :
  operator_keys_unique s →
  check_existence e ds s = Ok tt ↔ ∀ d, d ∈ ds → d ∈ experiment_uuids e s.
Proof.
  intros Hkeys. unfold check_existence.
  destruct (forallb _ ds) eqn:Hall.
  - split; [|done]. intros _ d Hd.
    rewrite forallb_forall in Hall. apply raise_if_operator_does_not_exist_ok; [done|].
    apply Hall. by apply list_elem_of_In.
  - split; [done|]. intros Hin. exfalso.
    assert (forallb (λ d, is_ok (raise_if_operator_does_not_exist d e s)) ds = true);
      [|congruence].
    apply forallb_forall. intros d Hd%list_elem_of_In.
    apply raise_if_operator_does_not_exist_ok; auto.
Qed.

Lemma check_self_reference_Ok (opn : option uuid) (ds : list uuid) :
  check_self_reference opn ds = Ok tt ↔ ∀ d, d ∈ ds → Some d ≠ opn.
Proof.
  unfold check_self_reference. rewrite <- Forall_forall. case_bool_decide; split; done.
Qed.

Lemma check_duplicates_cases (ds : list uuid) :
  check_duplicates ds = Ok tt ∨
  check_duplicates ds = Raise (BadRequest DEPENDENCIES_EXCEPTION_MSG).
Proof. unfold check_duplicates. case_bool_decide; eauto. Qed.

Lemma check_existence_cases (e : uuid) (ds : list uuid) (s : Store) :
  check_existence e ds s = Ok tt ∨
  check_existence e ds s = Raise (BadRequest DEPENDENCIES_EXCEPTION_MSG).
Proof. unfold check_existence. destruct (forallb _ _); eauto. Qed.

Lemma check_self_reference_cases (opn : option uuid) (ds : list uuid) :
  check_self_reference opn ds = Ok tt ∨
  check_self_reference opn ds = Raise (BadRequest DEPENDENCIES_EXCEPTION_MSG).
Proof. unfold check_self_reference. case_bool_decide; eauto. Qed.

(** What the validation of a list answers: the generic error when one of
    the first checks fails, the answer of the detector otherwise. *)
Lemma validation_cases (project_id experiment_id : uuid) (ds : list uuid)
    (opn : option uuid) (s : Store) :
  (raise_if_dependencies_are_invalid project_id experiment_id (DepList ds) opn s
   = Raise (BadRequest DEPENDENCIES_EXCEPTION_MSG)
   ∧ ¬ (check_duplicates ds = Ok tt ∧ check_existence experiment_id ds s = Ok tt
        ∧ check_self_reference opn ds = Ok tt)) ∨
  (raise_if_dependencies_are_invalid project_id experiment_id (DepList ds) opn s
   = raise_if_has_cycles project_id experiment_id opn ds s
   ∧ check_duplicates ds = Ok tt ∧ check_existence experiment_id ds s = Ok tt
   ∧ check_self_reference opn ds = Ok tt).
Proof.
  rewrite raise_if_dependencies_are_invalid_staged.
  unfold checks_in_stated_order. simpl.
  destruct (check_duplicates_cases ds) as [-> | ->]; simpl; [|left; split; [done|]; by intros [? _]].
  destruct (check_existence_cases experiment_id ds s) as [-> | ->]; simpl;
    [|left; split; [done|]; by intros (_ & ? & _)].
  destruct (check_self_reference_cases opn ds) as [-> | ->]; simpl;
    [|left; split; [done|]; by intros (_ & _ & ?)].
  by right.
Qed.

Lemma check_duplicates_Ok (ds : list uuid) :
  check_duplicates ds = Ok tt ↔ NoDup ds.
Proof. unfold check_duplicates. case_bool_decide; split; done. Qed.



Lemma validation_rejects_cycle (project_id experiment_id : uuid) (ds : list uuid)
    (opn : option uuid) (s : Store) (m : string) :
  raise_if_has_cycles project_id experiment_id opn ds s = Raise (BadRequest m) →
  ∃ m', raise_if_dependencies_are_invalid project_id experiment_id (DepList ds) opn s
        = Raise (BadRequest m').
Proof.
  intros Hc.
  destruct (validation_cases project_id experiment_id ds opn s)
    as [[Hr _] | (Hr & _)]; rewrite Hr; eauto.
Qed.

(** C6. At the operator being edited the detector follows the stored
    dependencies together with the requested ones. In a pipeline that
    exists, with known tasks and a walked graph that stays inside it: when
    a stored dependency of the operator that is absent from the request
    leads back to the operator, the detector raises the cycle error and the
    validation of the request is a bad-request error. *)
Theorem detector_walks_union (project_id experiment_id operator_id : uuid)
    (new : list uuid) (s : Store) :
  project_id ∈ projects s → experiment_id ∈ experiments s →
  tasks_known experiment_id s →
  overlay_closed experiment_id new (Some operator_id) s →
  operator_id ∈ experiment_uuids experiment_id s →
  (∀ d, d ∈ neighbours s new (Some operator_id) operator_id
        ↔ d ∈ dependencies_of operator_id s ∨ d ∈ new) ∧
  (∀ x, x ∈ dependencies_of operator_id s → x ∉ new →
        rtc (overlay_edge s new (Some operator_id)) x operator_id →
        raise_if_has_cycles project_id experiment_id (Some operator_id) new s
        = Raise (BadRequest CYCLICAL_MSG) ∧
        ∃ m, raise_if_dependencies_are_invalid project_id experiment_id
               (DepList new) (Some operator_id) s = Raise (BadRequest m)).
Proof.
  intros Hp He Ht Hov Hop. split.
  - intros d. rewrite elem_of_neighbours. unfold edge. split; [tauto|].
    intros [? | ?]; [by left | by right].
  - intros x Hx Hnew Hback.
    assert (Hc : raise_if_has_cycles project_id experiment_id (Some operator_id) new s
                 = Raise (BadRequest CYCLICAL_MSG)).
    { apply raise_if_has_cycles_iff; [done..|]. exists operator_id. split; [done|].
      eapply tc_rtc_r; [|exact Hback]. apply tc_once. unfold overlay_edge.
      apply elem_of_neighbours. by left. }
    split; [done|]. by eapply validation_rejects_cycle.
Qed.

(** ** What synchronisation preserves *)

Lemma update_dependencies_operators (op : uuid) (new : list uuid) (s : Store) :
  operators (update_dependencies op new s) = operators s.
Proof. by rewrite update_dependencies_store. Qed.

Lemma update_dependencies_tasks (op : uuid) (new : list uuid) (s : Store) :
  tasks (update_dependencies op new s) = tasks s.
Proof. by rewrite update_dependencies_store. Qed.

Lemma update_dependencies_projects (op : uuid) (new : list uuid) (s : Store) :
  projects (update_dependencies op new s) = projects s.
Proof. by rewrite update_dependencies_store. Qed.

Lemma update_dependencies_experiments (op : uuid) (new : list uuid) (s : Store) :
  experiments (update_dependencies op new s) = experiments s.
Proof. by rewrite update_dependencies_store. Qed.

Lemma update_dependencies_seed (op : uuid) (new : list uuid) (s : Store) :
  uuid_seed s ≤ uuid_seed (update_dependencies op new s).
Proof. rewrite update_dependencies_store. simpl. lia. Qed.

(** Every row after synchronisation was there before or was created for a
    requested target. *)
Lemma update_dependencies_row (op : uuid) (new : list uuid) (s : Store) (r : Dependency) :
  r ∈ dependencies (update_dependencies op new s) →
  r ∈ dependencies s ∨
  ∃ k, uuid_seed s ≤ k < uuid_seed (update_dependencies op new s)
       ∧ dep_uuid r = uuid_alpha k ∧ dep_operator_id r = op ∧ dep_dependency r ∈ new.
Proof.
  rewrite update_dependencies_store. simpl.
  intros [_ [Hr | Hr]%elem_of_app]%list_elem_of_filter; [by left|].
  right. apply elem_of_created_rows in Hr as (k & d & Hk1 & Hk2 & Hd & ->).
  exists k. simpl. split_and!; [lia | lia | done | done |].
  apply list_elem_of_lookup_2 in Hd. unfold dependencies_to_add in Hd.
  by apply list_elem_of_filter in Hd as [_ Hd].
Qed.

Lemma elem_of_dependencies_of (op d : uuid) (s : Store) :
  d ∈ dependencies_of op s ↔
  ∃ r, r ∈ dependencies s ∧ dep_operator_id r = op ∧ dep_dependency r = d.
Proof.
  unfold dependencies_of, list_dependencies. rewrite list_elem_of_fmap. split.
  - intros (r & -> & [Hsrc Hr]%list_elem_of_filter). by exists r.
  - intros (r & Hr & Hsrc & <-). exists r. split; [done|]. by apply list_elem_of_filter.
Qed.

Lemma update_dependencies_edge (op : uuid) (new : list uuid) (s : Store) (x y : uuid) :
  edge (update_dependencies op new s) x y → edge s x y ∨ (x = op ∧ y ∈ new).
Proof.
  unfold edge. rewrite !elem_of_dependencies_of. intros (r & Hr & Hsrc & Htgt).
  apply update_dependencies_row in Hr as [Hr | (k & _ & _ & Hop & Hnew)].
  - left. by exists r.
  - right. split; congruence.
Qed.

Lemma elem_of_ids_in_use (s : Store) (x : uuid) :
  x ∈ ids_in_use s ↔
  x ∈ uuid_of <$> operators s ∨
  ∃ r, r ∈ dependencies s ∧ (dep_uuid r = x ∨ dep_operator_id r = x ∨ dep_dependency r = x).
Proof.
  unfold ids_in_use. rewrite !elem_of_app, !list_elem_of_fmap. split.
  - intros [? | [(r & -> & ?) | [(r & -> & ?) | (r & -> & ?)]]]; [by left|..];
      right; exists r; tauto.
  - intros [? | (r & Hr & [<- | [<- | <-]])]; [by left|..]; right.
    + left. by exists r.
    + right; left. by exists r.
    + right; right. by exists r.
Qed.

Lemma update_dependencies_seed_fresh (op : uuid) (new : list uuid) (s : Store) :
  seed_fresh s →
  (∀ k, uuid_seed s ≤ k → uuid_alpha k ≠ op ∧ uuid_alpha k ∉ new) →
  seed_fresh (update_dependencies op new s).
Proof.
  intros Hfresh Hnew k Hk Hin.
  pose proof (update_dependencies_seed op new s) as Hseed.
  apply elem_of_ids_in_use in Hin as [Hin | (r & Hr & Hin)].
  - rewrite update_dependencies_operators in Hin.
    apply (Hfresh k); [lia|]. apply elem_of_ids_in_use. by left.
  - apply update_dependencies_row in Hr as [Hr | (j & Hj & Hkey & Hsrc & Htgt)].
    + apply (Hfresh k); [lia|]. apply elem_of_ids_in_use. right. by exists r.
    + destruct (Hnew k ltac:(lia)) as [Hop Hn].
      destruct Hin as [Hin | [Hin | Hin]].
      * rewrite Hkey in Hin. apply (inj uuid_alpha) in Hin. lia.
      * congruence.
      * congruence.
Qed.

Lemma update_dependencies_keys_unique (op : uuid) (new : list uuid) (s : Store) :
  dependency_keys_unique s → seed_fresh s →
  dependency_keys_unique (update_dependencies op new s).
Proof.
  intros Hkeys Hfresh. unfold dependency_keys_unique.
  rewrite update_dependencies_store. simpl.
  eapply sublist_NoDup; [|apply fmap_sublist, sublist_filter].
  rewrite fmap_app. apply NoDup_app. split_and!; [done | |].
  - intros u (r & -> & Hr)%list_elem_of_fmap (r' & Heq & Hr')%list_elem_of_fmap.
    apply elem_of_created_rows in Hr' as (k & d & Hk & _ & _ & ->). simpl in Heq.
    by apply (seed_fresh_key s k r).
  - generalize (uuid_seed s) (dependencies_to_add op new s). intros n ds.
    revert n. induction ds as [|d ds IH]; intros n; simpl; [apply NoDup_nil_2|].
    apply NoDup_cons. split; [|apply IH].
    intros (r & Heq & Hr)%list_elem_of_fmap.
    apply elem_of_created_rows in Hr as (k & d' & Hk & _ & _ & ->). simpl in Heq.
    apply (inj uuid_alpha) in Heq. lia.
Qed.

(** ** Failed requests *)

Lemma create_operator_checks_Ok (project_id experiment_id : uuid) (task_id : pyval)
    (parameters : option pyval) (dependencies : option deps_payload) (s : Store)
    (task : uuid) (ps : list (string * pyval)) (ds : list uuid) :
  create_operator_checks project_id experiment_id task_id parameters dependencies s
  = Ok (task, ps, ds) →
  is_Some (tasks s !! task) ∧
  ds = deps_list (default (DepList []) dependencies) ∧
  is_ok (raise_if_dependencies_are_invalid project_id experiment_id
           (default (DepList []) dependencies) None s) = true.
Proof.
  unfold create_operator_checks.
  destruct (raise_if_project_does_not_exist project_id s); simpl; [|done].
  destruct (raise_if_experiment_does_not_exist experiment_id s); simpl; [|done].
  destruct task_id as [| | | | t | |]; simpl; try done.
  unfold raise_if_task_does_not_exist.
  destruct (tasks s !! t) eqn:Ht; simpl; [|done].
  destruct (raise_if_parameters_are_invalid _); simpl; [|done].
  destruct (raise_if_dependencies_are_invalid _ _ _ _ _); simpl; [|done].
  intros [= <- <- <-]. eauto.
Qed.



Lemma update_row_dependencies (u : uuid) (o o' : Operator)
    (data : list (string * pyval)) (s s' : Store) :
  update_row u o data s = Ok (o', s') →
  dependencies s' = dependencies s ∧ uuid_seed s' = uuid_seed s ∧
  tasks s' = tasks s ∧ projects s' = projects s ∧ experiments s' = experiments s.
Proof.
  unfold update_row. destruct (unknown_column data); [done|].
  destruct (set_columns o data); simpl; [|done]. by intros [= _ <-].
Qed.




(** ** Accepted requests keep the graph acyclic *)

Lemma tc_subrel_tc {A : Type} (R1 R2 : relation A) (x y : A) :
  (∀ a b, R1 a b → tc R2 a b) → tc R1 x y → tc R2 x y.
Proof.
  intros Hsub. induction 1 as [x y Hxy | x y z Hxy _ IH]; [by apply Hsub|].
  etrans; [by apply Hsub | done].
Qed.

Lemma edge_ext (s s' : Store) (x y : uuid) :
  dependencies s' = dependencies s → edge s' x y ↔ edge s x y.
Proof.
  intros Hd. unfold edge, dependencies_of, list_dependencies. by rewrite Hd.
Qed.

Lemma acyclic_ext (s s' : Store) :
  dependencies s' = dependencies s → acyclic s → acyclic s'.
Proof.
  intros Hd Hacyc x Hcyc. apply (Hacyc x).
  eapply tc_subrel_tc; [|exact Hcyc]. intros a b Hab. apply tc_once. by apply (edge_ext s s').
Qed.

Lemma edge_in_use (s : Store) (x y : uuid) :
  edge s x y → x ∈ ids_in_use s ∧ y ∈ ids_in_use s.
Proof.
  unfold edge. rewrite elem_of_dependencies_of. intros (r & Hr & Hsrc & Htgt).
  split; apply elem_of_ids_in_use; right; exists r; tauto.
Qed.

Lemma experiment_uuids_in_use (e : uuid) (s : Store) (x : uuid) :
  x ∈ experiment_uuids e s → x ∈ ids_in_use s.
Proof.
  unfold experiment_uuids, experiment_operators.
  intros (o & -> & [_ Ho]%list_elem_of_filter)%list_elem_of_fmap.
  apply elem_of_ids_in_use. left. by apply list_elem_of_fmap_2.
Qed.

Lemma raise_if_operator_does_not_exist_Ok (d e : uuid) (s : Store) :
  is_ok (raise_if_operator_does_not_exist d e s) = true → d ∈ experiment_uuids e s.
Proof.
  unfold raise_if_operator_does_not_exist.
  destruct (get_operator d s) as [o|] eqn:Ho; [|done].
  apply get_operator_Some in Ho as [Hin <-]. case_bool_decide; [|done].
  intros _. unfold experiment_uuids, experiment_operators.
  apply list_elem_of_fmap_2. by apply list_elem_of_filter.
Qed.

Lemma check_each_dependency_Ok (e : uuid) (opn : option uuid) (ds : list uuid) (s : Store) :
  is_ok (check_each_dependency e opn ds s) = true →
  ∀ d, d ∈ ds → d ∈ experiment_uuids e s.
Proof.
  induction ds as [|d ds IH]; simpl; intros Hok x Hx; [by apply elem_of_nil in Hx|].
  destruct (raise_if_operator_does_not_exist d e s) as [[]|err] eqn:Hd.
  - case_bool_decide; [done|].
    apply elem_of_cons in Hx as [-> | Hx]; [|by apply IH].
    apply raise_if_operator_does_not_exist_Ok. by rewrite Hd.
  - by destruct err.
Qed.

(** What an accepted dependency list guarantees. *)
Lemma validation_Ok (project_id experiment_id : uuid) (deps : deps_payload)
    (opn : option uuid) (s : Store) :
  is_ok (raise_if_dependencies_are_invalid project_id experiment_id deps opn s) = true →
  (∀ d, d ∈ deps_list deps → d ∈ experiment_uuids experiment_id s) ∧
  ¬ would_create_cycle experiment_id (deps_list deps) opn s.
Proof.
  unfold raise_if_dependencies_are_invalid. destruct deps as [|ds]; [done|]. simpl.
  case_bool_decide; [done|].
  destruct (check_each_dependency experiment_id opn ds s) as [[]|err] eqn:Heach;
    simpl; [|done].
  destruct (raise_if_has_cycles project_id experiment_id opn ds s) as [b|err] eqn:Hc;
    [|done].
  intros _. split.
  - apply (check_each_dependency_Ok experiment_id opn). by rewrite Heach.
  - by apply raise_if_has_cycles_Ok in Hc as (_ & Hno & _).
Qed.

(** Adding requested edges at [a] keeps the graph acyclic when no requested
    dependency reaches [a]. *)
Lemma acyclic_add_edges (s s' : Store) (a : uuid) (new : list uuid) :
  acyclic s →
  (∀ x y, edge s' x y → edge s x y ∨ (x = a ∧ y ∈ new)) →
  (∀ b, b ∈ new → ¬ rtc (edge s) b a) →
  acyclic s'.
Proof.
  intros Hacyc Hsub Hreach x Hcyc.
  assert (Hov : tc (overlay_edge s new (Some a)) x x).
  { eapply tc_subrel_tc; [|exact Hcyc]. intros u v Huv. apply tc_once.
    apply overlay_edge_inv. by apply Hsub. }
  destruct (overlay_cycle_reaches s new a x (Hacyc x) Hov) as (b & Hb & Hba).
  by apply (Hreach b).
Qed.

Lemma add_operator_seed_fresh (o : Operator) (s : Store) :
  seed_fresh s → uuid_of o = uuid_alpha (uuid_seed s) → seed_fresh (add_operator o s).
Proof.
  intros Hfresh Ho k Hk Hin. simpl in Hk.
  apply elem_of_ids_in_use in Hin as [Hin | Hin].
  - simpl in Hin. rewrite fmap_app in Hin. apply elem_of_app in Hin as [Hin | Hin].
    + apply (Hfresh k); [lia|]. apply elem_of_ids_in_use. by left.
    + apply list_elem_of_singleton in Hin. rewrite Ho in Hin.
      apply (inj uuid_alpha) in Hin. lia.
  - apply (Hfresh k); [lia|]. apply elem_of_ids_in_use. by right.
Qed.

Lemma create_operator_accepted (project_id experiment_id : uuid) (task_id : pyval)
    (parameters : option pyval) (deps : option deps_payload)
    (position_x position_y : pyval) (s s' : Store) (d : operator_dict) :
  seed_fresh s → acyclic s →
  create_operator project_id experiment_id task_id parameters deps
    position_x position_y s = (Ok d, s') →
  seed_fresh s' ∧ acyclic s'.
Proof.
  intros Hfresh Hacyc. unfold create_operator.
  destruct (create_operator_checks _ _ _ _ _ _) as [[[task ps] ds]|e'] eqn:Hchecks;
    [|done].
  apply create_operator_checks_Ok in Hchecks as (_ & Hds & Hvalid).
  apply validation_Ok in Hvalid as [Hexist _]. rewrite <- Hds in Hexist.
  set (o := mkOperator (uuid_alpha (uuid_seed s)) experiment_id task ps
              position_x position_y).
  destruct (check_status o (add_operator o s)); [|done]. intros [= _ <-].
  assert (Hused : ∀ x, x ∈ ds → x ∈ ids_in_use s).
  { intros x Hx. eapply experiment_uuids_in_use. by apply Hexist. }
  assert (Hfresh1 : seed_fresh (add_operator o s)) by by apply add_operator_seed_fresh.
  split.
  - apply update_dependencies_seed_fresh; [done|]. simpl. intros k Hk. split.
    + intros Heq. apply (inj uuid_alpha) in Heq. lia.
    + intros Hin. apply (Hfresh k); [lia | by apply Hused].
  - apply (acyclic_add_edges s _ (uuid_alpha (uuid_seed s)) ds); [done | |].
    + intros x y Hxy. apply update_dependencies_edge in Hxy as [Hxy | Hxy]; [|by right].
      left. by apply (edge_ext s (add_operator o s)).
    + intros b Hb Hreach. apply (Hfresh (uuid_seed s)); [done|].
      apply rtc_inv_r in Hreach as [<- | (y & _ & Hy)]; [by apply Hused|].
      by apply edge_in_use in Hy as [_ Hy].
Qed.

Lemma update_operator_checks_Ok (u project_id experiment_id : uuid)
    (deps : option deps_payload) (kwargs : list (string * pyval))
    (s : Store) (o : Operator) :
  update_operator_checks u project_id experiment_id deps kwargs s = Ok o →
  get_operator u s = Some o ∧
  match deps with
  | Some ds =>
      is_ok (raise_if_dependencies_are_invalid project_id experiment_id ds (Some u) s)
      = true
  | None => True
  end.
Proof.
  unfold update_operator_checks.
  destruct (raise_if_project_does_not_exist project_id s); simpl; [|done].
  destruct (raise_if_experiment_does_not_exist experiment_id s); simpl; [|done].
  destruct (get_operator u s) as [o'|]; simpl; [|done].
  destruct (raise_if_parameters_are_invalid _); simpl; [|done].
  destruct deps as [ds|]; [|by intros [= <-]].
  destruct (raise_if_dependencies_are_invalid _ _ _ _ _); simpl; [|done].
  by intros [= <-].
Qed.

Lemma set_column_uuid (o o' : Operator) (kv : string * pyval) :
  kv.1 ∉ update_operator_named → set_column o kv = Ok o' → uuid_of o' = uuid_of o.
Proof.
  destruct kv as [key v]. simpl. intros Hkey. unfold set_column.
  case_bool_decide as H1.
  { exfalso. apply Hkey. subst. unfold update_operator_named. by left. }
  case_bool_decide as H2.
  { destruct v; try done; by intros [= <-]. }
  case_bool_decide as H3.
  { destruct v; try done; by intros [= <-]. }
  repeat case_bool_decide; by intros [= <-].
Qed.

Lemma set_columns_uuid (o o' : Operator) (data : list (string * pyval)) :
  existsb (λ kv, bool_decide (kv.1 ∈ update_operator_named)) data = false →
  set_columns o data = Ok o' → uuid_of o' = uuid_of o.
Proof.
  revert o. induction data as [|kv data IH]; intros o; simpl.
  - by intros _ [= <-].
  - intros [Hkv Hrest]%orb_false_elim. apply bool_decide_eq_false in Hkv.
    destruct (set_column o kv) as [o1|e] eqn:Hset; simpl; [|done].
    intros Ho'. rewrite (IH o1 Hrest Ho'). by eapply set_column_uuid.
Qed.

Lemma update_row_operators (u : uuid) (o o' : Operator)
    (data : list (string * pyval)) (s s' : Store) :
  existsb (λ kv, bool_decide (kv.1 ∈ update_operator_named)) data = false →
  uuid_of o = u →
  update_row u o data s = Ok (o', s') →
  uuid_of <$> operators s' = uuid_of <$> operators s.
Proof.
  intros Hnamed Hu. unfold update_row. destruct (unknown_column data); [done|].
  destruct (set_columns o data) as [o1|] eqn:Hset; simpl; [|done].
  intros [= <- <-]. simpl. rewrite <- list_fmap_compose. apply list_fmap_ext.
  intros i x _. simpl. case_bool_decide as Hx; [|done].
  rewrite (set_columns_uuid o o1 data Hnamed Hset). congruence.
Qed.

Lemma seed_fresh_ext (s s' : Store) :
  uuid_of <$> operators s' = uuid_of <$> operators s →
  dependencies s' = dependencies s → uuid_seed s' = uuid_seed s →
  seed_fresh s → seed_fresh s'.
Proof.
  intros Hops Hdeps Hseed Hfresh k Hk. unfold ids_in_use.
  rewrite Hops, Hdeps. apply Hfresh. lia.
Qed.

Lemma get_operator_in_use (u : uuid) (s : Store) (o : Operator) :
  get_operator u s = Some o → u ∈ ids_in_use s.
Proof.
  intros [Hin <-]%get_operator_Some. apply elem_of_ids_in_use. left.
  by apply list_elem_of_fmap_2.
Qed.

(** Synchronising an operator with a validated list. *)
Lemma update_dependencies_accepted (project_id experiment_id u : uuid)
    (ds : deps_payload) (s : Store) :
  seed_fresh s → acyclic s → u ∈ ids_in_use s →
  is_ok (raise_if_dependencies_are_invalid project_id experiment_id ds (Some u) s)
  = true →
  seed_fresh (update_dependencies u (deps_list ds) s) ∧
  acyclic (update_dependencies u (deps_list ds) s).
Proof.
  intros Hfresh Hacyc Hu [Hexist Hno]%validation_Ok. split.
  - apply update_dependencies_seed_fresh; [done|]. intros k Hk. split.
    + intros Heq. apply (Hfresh k Hk). by rewrite Heq.
    + intros Hin. apply (Hfresh k Hk). eapply experiment_uuids_in_use. by apply Hexist.
  - apply (acyclic_add_edges s _ u (deps_list ds)); [done | |].
    + intros x y. apply update_dependencies_edge.
    + intros b Hb Hreach. apply Hno. exists b. split; [by apply Hexist|].
      eapply tc_rtc_l; [by apply rtc_edge_overlay|].
      apply tc_once, overlay_edge_inv. by right.
Qed.

Lemma update_operator_accepted (u project_id experiment_id : uuid)
    (deps : option deps_payload) (kwargs : list (string * pyval))
    (s s' : Store) (d : operator_dict) :
  seed_fresh s → acyclic s →
  update_operator u project_id experiment_id deps kwargs s = (Ok d, s') →
  seed_fresh s' ∧ acyclic s'.
Proof.
  intros Hfresh Hacyc. unfold update_operator.
  destruct (existsb _ kwargs) eqn:Hnamed; [done|].
  destruct (update_operator_checks _ _ _ _ _ _) as [o|e'] eqn:Hchecks; [|done].
  apply update_operator_checks_Ok in Hchecks as [Hget Hvalid].
  set (s1 := match deps with
             | Some ds => update_dependencies u (deps_list ds) s
             | None => s
             end).
  assert (Hs1 : seed_fresh s1 ∧ acyclic s1).
  { subst s1. destruct deps as [ds|]; [|done].
    eapply update_dependencies_accepted; [done | done | | exact Hvalid].
    by eapply get_operator_in_use. }
  destruct Hs1 as [Hfresh1 Hacyc1].
  destruct (update_row u o kwargs s1) as [[o' s2]|e'] eqn:Hrow; [|done].
  destruct (check_status o' s2); [|done]. intros [= _ <-].
  pose proof (update_row_dependencies _ _ _ _ _ _ Hrow) as (Hd & Hseed & _).
  apply get_operator_Some in Hget as [_ Hu].
  pose proof (update_row_operators _ _ _ _ _ _ Hnamed Hu Hrow) as Hops.
  split; [by eapply seed_fresh_ext | by eapply acyclic_ext].
Qed.

Lemma py_remove_subset (x : uuid) (l l' : list uuid) (y : uuid) :
  py_remove x l = Some l' → y ∈ l' → y ∈ l.
Proof.
  revert l'. induction l as [|a l IH]; intros l'; simpl; [done|].
  case_bool_decide.
  - intros [= <-] Hy. by right.
  - destruct (py_remove x l) as [l1|]; simpl; [|done].
    intros [= <-] [-> | Hy]%elem_of_cons; [by left | right; by apply (IH l1)].
Qed.

Lemma py_remove_is_Some (x : uuid) (l : list uuid) :
  x ∈ l → is_Some (py_remove x l).
Proof.
  induction l as [|a l IH]; simpl; [by intros ?%elem_of_nil|].
  case_bool_decide; [eauto|]. intros [-> | Hx]%elem_of_cons; [done|].
  destruct (IH Hx) as [l' ->]. simpl. eauto.
Qed.

Lemma py_remove_NoDup (x : uuid) (l l' : list uuid) :
  NoDup l → py_remove x l = Some l' →
  NoDup l' ∧ ∀ y, y ∈ l' ↔ y ∈ l ∧ y ≠ x.
Proof.
  revert l'. induction l as [|a l IH]; intros l' Hnd; simpl; [done|].
  apply NoDup_cons in Hnd as [Ha Hnd]. case_bool_decide as Hax.
  - intros [= <-]. subst. split; [done|]. intros y. rewrite elem_of_cons.
    split; [|tauto]. intros Hy. split; [by right|]. by intros ->.
  - destruct (py_remove x l) as [l1|]; simpl; [|done]. intros [= <-].
    destruct (IH l1 Hnd eq_refl) as [Hnd1 Hmem]. split.
    + apply NoDup_cons. split; [|done]. rewrite Hmem. tauto.
    + intros y. rewrite !elem_of_cons, Hmem. split; [|tauto].
      intros [-> | ?]; tauto.
Qed.

Lemma elem_of_list_next_operators (n c : uuid) (s : Store) :
  c ∈ list_next_operators n s ↔ edge s c n.
Proof.
  unfold list_next_operators, edge. rewrite elem_of_dependencies_of, list_elem_of_fmap.
  split.
  - intros (r & -> & [Htgt Hr]%list_elem_of_filter). by exists r.
  - intros (r & Hr & <- & Htgt). exists r. split; [done|]. by apply list_elem_of_filter.
Qed.

(** Every edge the loop of [delete_dependencies] leaves is a stored edge or
    bridges the deleted operator. *)
Lemma delete_dependencies_loop_edges (n : uuid) (s : Store) (cs : list uuid)
    (t t' : Store) (r : result unit) :
  seed_fresh s →
  (∀ c, c ∈ cs → edge s c n) →
  (∀ x y, edge t x y → edge s x y ∨ (edge s x n ∧ edge s n y)) →
  seed_fresh t → uuid_seed s ≤ uuid_seed t →
  operators t = operators s →
  delete_dependencies_loop n (dependencies_of n s) cs t = (r, t') →
  (∀ x y, edge t' x y → edge s x y ∨ (edge s x n ∧ edge s n y)) ∧
  seed_fresh t' ∧ uuid_seed s ≤ uuid_seed t' ∧ operators t' = operators s.
Proof.
  intros Hfresh. revert t.
  induction cs as [|c cs IH]; intros t Hcs Hinv Hfresht Hseed Hops; simpl.
  { by intros [= _ <-]. }
  destruct (py_remove n _) as [new'|] eqn:Hrem; [|by intros [= _ <-]].
  assert (Hc : edge s c n) by (apply Hcs; by left).
  assert (Hnew : ∀ y, y ∈ new' → edge s n y ∨ edge t c y).
  { intros y Hy. apply (py_remove_subset _ _ _ _ Hrem) in Hy.
    by apply elem_of_merge_dependencies in Hy. }
  apply IH.
  - intros c' Hc'. apply Hcs. by right.
  - intros x y [Hxy | [-> Hy]]%update_dependencies_edge; [by apply Hinv|].
    destruct (Hnew y Hy) as [Hny | Hcy]; [by right | by apply Hinv].
  - apply update_dependencies_seed_fresh; [done|]. intros k Hk. split.
    + intros Heq. apply (Hfresh k); [lia|]. rewrite Heq. by apply edge_in_use in Hc as [? _].
    + intros Hin. destruct (Hnew _ Hin) as [Hny | Hcy].
      * apply (Hfresh k); [lia|]. by apply edge_in_use in Hny as [_ ?].
      * apply (Hfresht k); [lia|]. by apply edge_in_use in Hcy as [_ ?].
  - pose proof (update_dependencies_seed c new' t). lia.
  - by rewrite update_dependencies_operators.
Qed.

Lemma delete_operator_accepted (u project_id experiment_id : uuid)
    (s s' : Store) (m : string) :
  seed_fresh s → acyclic s →
  delete_operator u project_id experiment_id s = (Ok m, s') →
  seed_fresh s' ∧ acyclic s'.
Proof.
  intros Hfresh Hacyc. unfold delete_operator.
  destruct (raise_if_project_does_not_exist project_id s); simpl; [|done].
  destruct (raise_if_experiment_does_not_exist experiment_id s); simpl; [|done].
  destruct (get_operator u s) as [o|] eqn:Hget; simpl; [|done].
  pose proof (get_operator_in_use _ _ _ Hget) as Hused.
  apply get_operator_Some in Hget as [_ Hu]. unfold as_dict_dependencies.
  rewrite Hu. unfold delete_dependencies.
  destruct (delete_dependencies_loop _ _ _ s) as [[[]|e] t] eqn:Hloop; [|done].
  intros [= _ <-].
  apply delete_dependencies_loop_edges in Hloop as (Hinv & Hfresht & Hseed & Hops);
    [|done | by intros c ?%elem_of_list_next_operators | by left | done..].
  set (t1 := update_dependencies u [] t).
  assert (Hfresh1 : seed_fresh t1).
  { apply update_dependencies_seed_fresh; [done|]. intros k Hk. split.
    - intros Heq. apply (Hfresh k); [lia|]. by rewrite Heq.
    - apply not_elem_of_nil. }
  assert (Hinv1 : ∀ x y, edge t1 x y → tc (edge s) x y).
  { intros x y [Hxy | [_ Hy]]%update_dependencies_edge;
      [|by apply elem_of_nil in Hy].
    destruct (Hinv x y Hxy) as [He | [He1 He2]]; [by apply tc_once|].
    eapply tc_l; [exact He1 | by apply tc_once]. }
  split.
  - intros k Hk Hin. apply (Hfresh1 k Hk).
    apply elem_of_ids_in_use in Hin as [Hin | Hin]; apply elem_of_ids_in_use.
    + left. simpl in Hin. apply list_elem_of_fmap in Hin as (o' & -> & Ho').
      apply list_elem_of_filter in Ho' as [_ Ho']. by apply list_elem_of_fmap_2.
    + by right.
  - intros x Hcyc. apply (Hacyc x). eapply tc_subrel_tc; [|exact Hcyc].
    intros a b Hab. apply Hinv1. by apply (edge_ext t1 (remove_operator u t1)).
Qed.

(** C1. From a store without dependency cycle whose identifier generator is
    fresh, every sequence of accepted [create_operator], [update_operator]
    and [delete_operator] requests leads to a store without dependency
    cycle; in particular no operator of any pipeline is on a cycle. *)
Theorem accepted_requests_keep_acyclic (rs : list request) (s s' : Store) :
  seed_fresh s → acyclic s → accepted_run s rs s' →
  acyclic s' ∧ ∀ experiment_id, pipeline_acyclic experiment_id s'.
Proof.
  intros Hfresh Hacyc Hrun.
  assert (Hboth : seed_fresh s' ∧ acyclic s').
  { induction Hrun as [s | s r s1 rs s2 Hstep _ IH]; [done|].
    apply IH; destruct r as [p e t ps ds x y | u p e ds kw | u p e]; simpl in Hstep.
    - destruct (create_operator p e t ps ds x y s) as [[d|err] s0] eqn:Hc; [|done].
      injection Hstep as <-. by eapply create_operator_accepted.
    - destruct (update_operator u p e ds kw s) as [[d|err] s0] eqn:Hc; [|done].
      injection Hstep as <-. by eapply update_operator_accepted.
    - destruct (delete_operator u p e s) as [[d|err] s0] eqn:Hc; [|done].
      injection Hstep as <-. by eapply delete_operator_accepted.
    - destruct (create_operator p e t ps ds x y s) as [[d|err] s0] eqn:Hc; [|done].
      injection Hstep as <-. by eapply create_operator_accepted.
    - destruct (update_operator u p e ds kw s) as [[d|err] s0] eqn:Hc; [|done].
      injection Hstep as <-. by eapply update_operator_accepted.
    - destruct (delete_operator u p e s) as [[d|err] s0] eqn:Hc; [|done].
      injection Hstep as <-. by eapply delete_operator_accepted. }
  destruct Hboth as [_ Hacyc']. split; [done|]. intros e x _. apply Hacyc'.
Qed.

(** ** Deleting an operator *)

Lemma dependencies_of_ext (op : uuid) (s t : Store) :
  list_dependencies op t = list_dependencies op s →
  dependencies_of op t = dependencies_of op s.
Proof. unfold dependencies_of. by intros ->. Qed.

Lemma merge_dependencies_NoDup (a b : list uuid) :
  NoDup a → NoDup (merge_dependencies a b).
Proof.
  intros Ha. unfold merge_dependencies. apply NoDup_app. split_and!; [done | |].
  - intros x Hx Hd. by apply list_elem_of_difference in Hd as [_ Hd].
  - apply NoDup_list_difference, NoDup_remove_dups.
Qed.

Lemma list_next_operators_NoDup (n : uuid) (s : Store) :
  dependency_keys_unique s → (∀ op, no_duplicate_target op s) →
  NoDup (list_next_operators n s).
Proof.
  intros Hkeys Hnd. unfold list_next_operators.
  apply NoDup_fmap_2_strong.
  - intros r1 r2 [Ht1 Hr1]%list_elem_of_filter [Ht2 Hr2]%list_elem_of_filter Hsrc.
    apply (NoDup_fmap_inj_on dep_dependency (list_dependencies (dep_operator_id r1) s)).
    + apply Hnd.
    + unfold list_dependencies. by apply list_elem_of_filter.
    + unfold list_dependencies. by apply list_elem_of_filter.
    + congruence.
  - apply NoDup_filter. by apply NoDup_fmap_1 in Hkeys.
Qed.

(** The loop of [delete_dependencies] over consumers that are pairwise
    distinct: it ends without error, every consumer gets the dependencies
    of the deleted operator and its own, without the deleted operator, and
    the rows of the other operators stay. *)
Lemma delete_dependencies_loop_spec (n : uuid) (s : Store) (cs : list uuid) (t : Store) :
  seed_fresh s → NoDup (dependencies_of n s) → NoDup cs →
  dependency_keys_unique t → seed_fresh t → uuid_seed s ≤ uuid_seed t →
  (∀ c, c ∈ cs → list_dependencies c t = list_dependencies c s
                 ∧ edge s c n ∧ NoDup (dependencies_of c s)) →
  ∃ t', delete_dependencies_loop n (dependencies_of n s) cs t = (Ok tt, t') ∧
        dependency_keys_unique t' ∧ seed_fresh t' ∧ uuid_seed s ≤ uuid_seed t' ∧
        operators t' = operators t ∧
        (∀ c, c ∈ cs →
           NoDup (dependencies_of c t') ∧
           ∀ x, x ∈ dependencies_of c t'
                ↔ (x ∈ dependencies_of n s ∨ x ∈ dependencies_of c s) ∧ x ≠ n) ∧
        (∀ op, op ∉ cs → list_dependencies op t' = list_dependencies op t).
Proof.
  intros Hfresh HndN. revert t.
  induction cs as [|c cs IH]; intros t Hndcs Hkeys Hfresht Hseed Hcs; simpl.
  { exists t. split_and!; try done. intros c Hc. by apply elem_of_nil in Hc. }
  apply NoDup_cons in Hndcs as [Hc_notin Hndcs].
  destruct (Hcs c ltac:(by left)) as (Hrows & Hedge & Hndc).
  rewrite (dependencies_of_ext c s t Hrows).
  pose proof (merge_dependencies_NoDup (dependencies_of n s) (dependencies_of c s) HndN)
    as Hndnew.
  destruct (py_remove_is_Some n
              (merge_dependencies (dependencies_of n s) (dependencies_of c s)))
    as [new' Hrem].
  { apply elem_of_merge_dependencies. by right. }
  rewrite Hrem.
  destruct (py_remove_NoDup _ _ _ Hndnew Hrem) as [Hndnew' Hmem].
  assert (Hndct : no_duplicate_target c t).
  { unfold no_duplicate_target. by rewrite (dependencies_of_ext c s t Hrows). }
  assert (Hused : ∀ k, uuid_seed t ≤ k → uuid_alpha k ≠ c ∧ uuid_alpha k ∉ new').
  { intros k Hk. split.
    - intros Heq. apply (Hfresh k); [lia|]. rewrite Heq.
      by apply edge_in_use in Hedge as [? _].
    - intros Hin. apply Hmem in Hin as [Hin _].
      apply elem_of_merge_dependencies in Hin as [Hin | Hin];
        apply (Hfresh k); try lia.
      + assert (He : edge s n (uuid_alpha k)) by done.
        by apply edge_in_use in He as [_ ?].
      + assert (He : edge s c (uuid_alpha k)) by done.
        by apply edge_in_use in He as [_ ?]. }
  destruct (IH (update_dependencies c new' t)) as
    (t' & Hloop & Hkeys' & Hfresh' & Hseed' & Hops' & Hspec & Hframe).
  - done.
  - by apply update_dependencies_keys_unique.
  - by apply update_dependencies_seed_fresh.
  - pose proof (update_dependencies_seed c new' t). lia.
  - intros c' Hc'. destruct (Hcs c' ltac:(by right)) as (Hrows' & Hedge' & Hndc').
    split_and!; [|done..]. rewrite <- Hrows'.
    apply update_dependencies_frame; [done|]. by intros ->.
  - exists t'. split_and!; [done..| | |].
    + by rewrite Hops', update_dependencies_operators.
    + intros c' [-> | Hc']%elem_of_cons; [|by apply Hspec].
      rewrite (dependencies_of_ext c (update_dependencies c new' t) t' (Hframe c Hc_notin)).
      split; [by apply update_dependencies_NoDup|].
      intros x. rewrite update_dependencies_members by done.
      rewrite Hmem, elem_of_merge_dependencies. done.
    + intros op Hop. apply not_elem_of_cons in Hop as [Hne Hop].
      rewrite (Hframe op Hop). by apply update_dependencies_frame.
Qed.

(** C4. In a store that respects the keys of its tables and invariant I1,
    deleting an existing operator [n] succeeds; every consumer of [n] then
    has exactly the former dependencies of [n] and its own, without
    duplicates and without [n], so that a consumer of [n] depends on every
    prerequisite of [n]; the other operators keep their dependencies; [n]
    is no longer an operator and no dependency row mentions it. *)
Theorem delete_operator_splices (n project_id experiment_id : uuid)
    (s : Store) (o : Operator) :
  project_id ∈ projects s → experiment_id ∈ experiments s →
  get_operator n s = Some o →
  dependency_keys_unique s → seed_fresh s → (∀ op, no_duplicate_target op s) →
  ¬ edge s n n →
  ∃ s', delete_operator n project_id experiment_id s = (Ok "Operator deleted", s') ∧
    (∀ c, edge s c n →
       NoDup (dependencies_of c s') ∧
       ∀ x, x ∈ dependencies_of c s'
            ↔ (x ∈ dependencies_of n s ∨ x ∈ dependencies_of c s) ∧ x ≠ n) ∧
    (∀ c q, edge s c n → edge s n q → edge s' c q) ∧
    (∀ c, ¬ edge s c n → c ≠ n → dependencies_of c s' = dependencies_of c s) ∧
    (n ∉ uuid_of <$> operators s') ∧
    (∀ r, r ∈ dependencies s' → dep_operator_id r ≠ n ∧ dep_dependency r ≠ n).
Proof.
  intros Hp He Hget Hkeys Hfresh Hnd Hself.
  unfold delete_operator, raise_if_project_does_not_exist,
    raise_if_experiment_does_not_exist.
  rewrite !bool_decide_eq_true_2 by done. simpl. rewrite Hget. simpl.
  pose proof Hget as [_ Hu]%get_operator_Some. unfold as_dict_dependencies.
  rewrite Hu. unfold delete_dependencies.
  destruct (delete_dependencies_loop_spec n s (list_next_operators n s) s)
    as (t & Hloop & Hkeyst & Hfresht & Hseedt & Hopst & Hspec & Hframe);
    [done | apply Hnd | by apply list_next_operators_NoDup | done | done | done | |].
  { intros c Hc%elem_of_list_next_operators. split_and!; [done | done | apply Hnd]. }
  rewrite Hloop. eexists. split; [reflexivity|].
  set (t1 := update_dependencies n [] t).
  assert (Hn_notin : n ∉ list_next_operators n s).
  { by intros ?%elem_of_list_next_operators. }
  assert (Hother : ∀ c, c ≠ n → dependencies_of c (remove_operator n t1) = dependencies_of c t).
  { intros c Hc. apply (dependencies_of_ext c t (remove_operator n t1)).
    by apply (update_dependencies_frame n c [] t). }
  assert (Hnone : dependencies_of n (remove_operator n t1) = []).
  { assert (Hnil : ∀ x, x ∉ dependencies_of n t1).
    { intros x Hx. apply (update_dependencies_members n [] t) in Hx; [| done | done |].
      - by apply elem_of_nil in Hx.
      - unfold no_duplicate_target.
        rewrite (dependencies_of_ext n s t (Hframe n Hn_notin)). apply Hnd. }
    change (dependencies_of n (remove_operator n t1)) with (dependencies_of n t1).
    destruct (dependencies_of n t1) as [|x l]; [done|].
    exfalso. apply (Hnil x). by left. }
  assert (Hcons : ∀ c, edge s c n →
            NoDup (dependencies_of c (remove_operator n t1)) ∧
            ∀ x, x ∈ dependencies_of c (remove_operator n t1)
                 ↔ (x ∈ dependencies_of n s ∨ x ∈ dependencies_of c s) ∧ x ≠ n).
  { intros c Hc. rewrite Hother by (intros ->; done).
    apply Hspec. by apply elem_of_list_next_operators. }
  assert (Hrest : ∀ c, ¬ edge s c n → c ≠ n →
            dependencies_of c (remove_operator n t1) = dependencies_of c s).
  { intros c Hc Hne. rewrite Hother by done. apply dependencies_of_ext, Hframe.
    by intros ?%elem_of_list_next_operators. }
  split_and!; [done | | done | |].
  - intros c q Hc Hq. unfold edge. apply Hcons; [done|]. split; [by left|].
    intros ->. done.
  - simpl. intros (o' & Ho' & [Hne _]%list_elem_of_filter)%list_elem_of_fmap. done.
  - intros r Hr.
    assert (Hin : dep_dependency r ∈ dependencies_of (dep_operator_id r) (remove_operator n t1)).
    { apply elem_of_dependencies_of. by exists r. }
    split.
    + intros Hsrc. rewrite Hsrc, Hnone in Hin. by apply elem_of_nil in Hin.
    + intros Htgt. rewrite Htgt in Hin.
      destruct (decide (dep_operator_id r = n)) as [Hsrc | Hsrc].
      { rewrite Hsrc, Hnone in Hin. by apply elem_of_nil in Hin. }
      destruct (decide (n ∈ dependencies_of (dep_operator_id r) s)) as [Hc | Hc].
      * apply (Hcons _ Hc) in Hin as [_ Hne]. done.
      * rewrite (Hrest _ Hc Hsrc) in Hin. done.
Qed.

(** ** The example pipeline *)

Lemma seed_fresh_intro (s : Store) :
  Forall (λ x, x ∈ uuid_alpha <$> seq 0 (uuid_seed s)) (ids_in_use s) → seed_fresh s.
Proof.
  intros Hall k Hk Hin. rewrite Forall_forall in Hall.
  apply Hall in Hin. apply list_elem_of_fmap in Hin as (j & Heq & Hj).
  apply (inj uuid_alpha) in Heq. apply elem_of_seq in Hj. lia.
Qed.

Lemma no_duplicate_target_intro (s : Store) :
  NoDup ((λ r, (dep_operator_id r, dep_dependency r)) <$> dependencies s) →
  ∀ op, no_duplicate_target op s.
Proof.
  intros Hnd op. unfold no_duplicate_target, dependencies_of, list_dependencies.
  apply NoDup_fmap_2_strong.
  - intros r1 r2 [Hs1 Hr1]%list_elem_of_filter [Hs2 Hr2]%list_elem_of_filter Htgt.
    eapply (NoDup_fmap_inj_on (λ r, (dep_operator_id r, dep_dependency r)));
      [exact Hnd | done | done |]. simpl. congruence.
  - apply NoDup_filter. by apply NoDup_fmap_1 in Hnd.
Qed.

Lemma experiment_closed_intro (e : uuid) (s : Store) :
  Forall (λ r, dep_operator_id r ∈ experiment_uuids e s →
               dep_dependency r ∈ experiment_uuids e s) (dependencies s) →
  experiment_closed e s.
Proof.
  intros Hall x y Hx (r & Hr & <- & <-)%elem_of_dependencies_of.
  rewrite Forall_forall in Hall. by apply Hall.
Qed.

Lemma tasks_known_intro (e : uuid) (s : Store) :
  Forall (λ o, is_Some (tasks s !! task_id_of o)) (experiment_operators e s) →
  tasks_known e s.
Proof. intros Hall o Ho. rewrite Forall_forall in Hall. by apply Hall. Qed.

Lemma overlay_edge_None (s : Store) (new : list uuid) (x y : uuid) :
  overlay_edge s new None x y ↔ edge s x y.
Proof.
  unfold overlay_edge. rewrite elem_of_neighbours. split; [|by left].
  intros [? | [? _]]; done.
Qed.

(** A store all of whose edges leave operators of one pipeline is acyclic
    once the detector finds no cycle in that pipeline. *)
Lemma acyclic_by_detector (project_id experiment_id : uuid) (s : Store) :
  raise_if_has_cycles project_id experiment_id None [] s = Ok false →
  Forall (λ r, dep_operator_id r ∈ experiment_uuids experiment_id s) (dependencies s) →
  acyclic s.
Proof.
  intros (_ & Hno & _)%raise_if_has_cycles_Ok Hall x Hcyc. apply Hno.
  exists x. split.
  - apply tc_rtc_inv in Hcyc as (y & (r & Hr & <- & _)%elem_of_dependencies_of & _).
    rewrite Forall_forall in Hall. by apply Hall.
  - eapply tc_subrel_tc; [|exact Hcyc]. intros a b Hab.
    apply tc_once. by apply overlay_edge_None.
Qed.

Lemma run_requests_accepted (rs : list request) (s s' : Store) :
  run_requests rs s = Some s' → accepted_run s rs s'.
Proof.
  revert s. induction rs as [|r rs IH]; intros s; simpl.
  - intros [= <-]. constructor.
  - destruct (handle r s) as [[|] s1] eqn:Hr; [|done].
    intros Hrun. econstructor; [exact Hr | by apply IH].
Qed.

Lemma example_store_seed_fresh : seed_fresh example_store.
Proof. apply seed_fresh_intro. compute_done. Qed.

Lemma example_store_acyclic : acyclic example_store.
Proof. apply (acyclic_by_detector "P" "E"); compute_done. Qed.

Lemma example_store_tasks_known : tasks_known "E" example_store.
Proof. apply tasks_known_intro. compute_done. Qed.

Lemma example_store_closed : experiment_closed "E" example_store.
Proof. apply experiment_closed_intro. compute_done. Qed.

Lemma example_chain_seed_fresh : seed_fresh example_chain.
Proof. apply seed_fresh_intro. compute_done. Qed.

Lemma example_chain_no_duplicate_target (op : uuid) :
  no_duplicate_target op example_chain.
Proof. apply no_duplicate_target_intro. compute_done. Qed.

Lemma example_cyclic_tasks_known : tasks_known "E" example_cyclic.
Proof. apply tasks_known_intro. compute_done. Qed.

Lemma example_cyclic_closed : experiment_closed "E" example_cyclic.
Proof. apply experiment_closed_intro. compute_done. Qed.

(** The scenario of the specification on operators [0], [1] and [2]:
    making [1] depend on [0] is accepted and stored; then making [0] depend
    on [1] is refused as a cycle, a self-dependency and a duplicate are
    refused as invalid. *)
Example scenario_accepted :
  let r := update_operator (uuid_alpha 1) "P" "E" (Some (DepList [uuid_alpha 0])) []
             example_unwired in
  is_ok r.1 = true ∧ dependencies_of (uuid_alpha 1) r.2 = [uuid_alpha 0].
Proof. by vm_compute. Qed.

Example scenario_cycle :
  (update_operator (uuid_alpha 0) "P" "E" (Some (DepList [uuid_alpha 1])) []
     example_store).1
  = Raise (BadRequest CYCLICAL_MSG).
Proof. by vm_compute. Qed.

Example scenario_self_dependency :
  (update_operator (uuid_alpha 2) "P" "E" (Some (DepList [uuid_alpha 2])) []
     example_store).1
  = Raise (BadRequest DEPENDENCIES_EXCEPTION_MSG).
Proof. by vm_compute. Qed.

Example scenario_duplicate :
  (update_operator (uuid_alpha 1) "P" "E"
     (Some (DepList [uuid_alpha 0; uuid_alpha 0])) [] example_store).1
  = Raise (BadRequest DEPENDENCIES_EXCEPTION_MSG).
Proof. by vm_compute. Qed.

(** ** The theorems at the example pipeline *)

Lemma accepted_requests_keep_acyclic_witness :
  ∃ s', accepted_run example_store example_requests s' ∧ acyclic s'.
Proof.
  destruct (run_requests example_requests example_store) as [s'|] eqn:Hrun;
    [|by vm_compute in Hrun].
  apply run_requests_accepted in Hrun. exists s'. split; [exact Hrun|].
  exact (proj1 (accepted_requests_keep_acyclic example_requests example_store s'
                  example_store_seed_fresh example_store_acyclic Hrun)).
Defined.



Lemma delete_operator_splices_witness :
  ∃ s', delete_operator (uuid_alpha 1) "P" "E" example_chain
        = (Ok "Operator deleted", s') ∧
        edge s' (uuid_alpha 2) (uuid_alpha 0) ∧
        uuid_alpha 1 ∉ (uuid_of <$> operators s').
Proof.
  destruct (delete_operator_splices (uuid_alpha 1) "P" "E" example_chain
              (example_operator (uuid_alpha 1)))
    as (s' & Hdel & _ & Hsplice & _ & Hgone & _).
  - compute_done.
  - compute_done.
  - by vm_compute.
  - compute_done.
  - exact example_chain_seed_fresh.
  - exact example_chain_no_duplicate_target.
  - unfold edge. compute_done.
  - exists s'. split; [exact Hdel|]. split; [|exact Hgone].
    apply Hsplice; unfold edge; compute_done.
Defined.

Lemma update_dependencies_then_list_witness :
  dependencies_of (uuid_alpha 2)
    (update_dependencies (uuid_alpha 2) [uuid_alpha 0; uuid_alpha 1] example_store)
  ≡ₚ [uuid_alpha 0; uuid_alpha 1].
Proof.
  apply update_dependencies_then_list.
  - compute_done.
  - exact example_store_seed_fresh.
  - unfold no_duplicate_target. compute_done.
  - compute_done.
Defined.

Lemma detector_walks_union_witness :
  raise_if_has_cycles "P" "E" (Some (uuid_alpha 0)) [] example_cyclic
  = Raise (BadRequest CYCLICAL_MSG) ∧
  ∃ m, raise_if_dependencies_are_invalid "P" "E" (DepList []) (Some (uuid_alpha 0))
         example_cyclic = Raise (BadRequest m).
Proof.
  apply (proj2 (detector_walks_union "P" "E" (uuid_alpha 0) [] example_cyclic
                  ltac:(compute_done) ltac:(compute_done)
                  example_cyclic_tasks_known
                  (overlay_closed_intro "E" [] (Some (uuid_alpha 0)) example_cyclic
                     example_cyclic_closed
                     (λ d Hd, False_ind _ (proj1 (elem_of_nil d) Hd)))
                  ltac:(compute_done))
           (uuid_alpha 1)).
  - compute_done.
  - compute_done.
  - apply rtc_once. unfold overlay_edge. compute_done.
Defined.



Lemma update_dependencies_noop_witness :
  update_dependencies_calls (uuid_alpha 1) [uuid_alpha 0] example_store = [] ∧
  update_dependencies (uuid_alpha 1) [uuid_alpha 0] example_store = example_store.
Proof.
  apply update_dependencies_noop. intros d.
  assert (Heq : dependencies_of (uuid_alpha 1) example_store = [uuid_alpha 0])
    by by vm_compute.
  by rewrite Heq.
Defined.

Lemma update_dependencies_idempotent_witness :
  update_dependencies_calls (uuid_alpha 2) [uuid_alpha 0; uuid_alpha 1]
    (update_dependencies (uuid_alpha 2) [uuid_alpha 0; uuid_alpha 1] example_store)
  = [] ∧
  update_dependencies (uuid_alpha 2) [uuid_alpha 0; uuid_alpha 1]
    (update_dependencies (uuid_alpha 2) [uuid_alpha 0; uuid_alpha 1] example_store)
  = update_dependencies (uuid_alpha 2) [uuid_alpha 0; uuid_alpha 1] example_store.
Proof.
  apply update_dependencies_idempotent.
  - compute_done.
  - exact example_store_seed_fresh.
  - unfold no_duplicate_target. compute_done.
  - compute_done.
Defined.

(** * Further properties of the controller *)

(** ** Listing operators *)

(** X1. [list_operators] reports a missing project first, then a missing
    experiment, then an operator of the experiment whose task is gone
    (the attribute error of [check_status]); otherwise it returns the
    operators of the experiment in table order, each with the status
    [check_status] gives it and its stored dependencies. *)
Theorem list_operators_result (project_id experiment_id : uuid) (s : Store) :
  (project_id ∉ projects s →
   list_operators project_id experiment_id s
   = Raise (NotFound "The specified project does not exist")) ∧
  (project_id ∈ projects s → experiment_id ∉ experiments s →
   list_operators project_id experiment_id s
   = Raise (NotFound "The specified experiment does not exist")) ∧
  (project_id ∈ projects s → experiment_id ∈ experiments s →
   (∃ o, o ∈ experiment_operators experiment_id s ∧ tasks s !! task_id_of o = None) →
   list_operators project_id experiment_id s = Raise AttributeError) ∧
  (project_id ∈ projects s → experiment_id ∈ experiments s →
   tasks_known experiment_id s →
   ∃ l, list_operators project_id experiment_id s = Ok l ∧
        od_operator <$> l = experiment_operators experiment_id s ∧
        ∀ d, d ∈ l →
             check_status (od_operator d) s = Ok (od_status d) ∧
             od_dependencies d = dependencies_of (uuid_of (od_operator d)) s).
Proof.
  unfold list_operators, raise_if_project_does_not_exist,
    raise_if_experiment_does_not_exist.
  split_and!.
  - intros Hp. by rewrite (bool_decide_eq_false_2 _ Hp).
  - intros Hp He. by rewrite (bool_decide_eq_true_2 _ Hp), (bool_decide_eq_false_2 _ He).
  - intros Hp He (o & Ho & Ht). rewrite !bool_decide_eq_true_2 by done. simpl.
    fold (experiment_operators experiment_id s).
    induction (experiment_operators experiment_id s) as [|o' ops IH];
      [by apply elem_of_nil in Ho|].
    simpl. apply elem_of_cons in Ho as [<- | Ho].
    + unfold check_status at 1. by rewrite Ht.
    + destruct (check_status o' s) as [st|e] eqn:Hst; simpl.
      * by rewrite (IH Ho).
      * by rewrite (check_status_Raise o' s e Hst).
  - intros Hp He Ht. rewrite !bool_decide_eq_true_2 by done. simpl.
    fold (experiment_operators experiment_id s). unfold tasks_known in Ht.
    induction (experiment_operators experiment_id s) as [|o ops IH]; simpl.
    + exists []. split_and!; [done | done |]. intros d Hd. by apply elem_of_nil in Hd.
    + pose proof (check_status_is_ok o s (Ht o ltac:(by left))) as Hok.
      destruct (check_status o s) as [st|e] eqn:Hst; [|done]. simpl.
      destruct IH as (l & -> & Hops & Hall).
      { intros o' Ho'. apply Ht. by right. }
      simpl. eexists. split; [reflexivity|]. split; [by rewrite fmap_cons, Hops|].
      intros d [-> | Hd]%elem_of_cons; [by split | by apply Hall].
Qed.

Lemma list_operators_result_witness :
  ∃ l, list_operators "P" "E" example_store = Ok l ∧
       od_operator <$> l = experiment_operators "E" example_store ∧
       ∀ d, d ∈ l →
            check_status (od_operator d) example_store = Ok (od_status d) ∧
            od_dependencies d = dependencies_of (uuid_of (od_operator d)) example_store.
Proof.
  apply (proj2 (proj2 (proj2 (list_operators_result "P" "E" example_store)))).
  - compute_done.
  - compute_done.
  - exact example_store_tasks_known.
Defined.

(** ** Status of an operator *)

Lemma length_filter_all {A : Type} (P : A → Prop) `{∀ x, Decision (P x)} (l : list A) :
  length (filter P l) = length l ↔ ∀ x, x ∈ l → P x.
Proof.
  induction l as [|a l IH].
  - split; [|done]. intros _ x Hx. by apply elem_of_nil in Hx.
  - pose proof (length_filter P l) as Hle. rewrite filter_cons.
    destruct (decide (P a)) as [Ha | Ha]; simpl.
    + split.
      * intros [= Hlen]. intros x [-> | Hx]%elem_of_cons; [done|]. by apply IH.
      * intros Hall. f_equal. apply IH. intros x Hx. apply Hall. by right.
    + split; [lia|]. intros Hall. exfalso. apply Ha, Hall. by left.
Qed.

(** X2. [check_status] counts every parameter of the operator that has a
    value, the one named dataset too, and compares with the task's
    descriptors other than dataset. So when an operator of a task that is
    not a DATASETS task has one parameter with a value for each descriptor
    of the task, it is 'Setted up' exactly when no descriptor is named
    dataset, and 'Unset' otherwise. *)
Theorem check_status_counts_dataset (operator : Operator) (task : Task)
    (value : ParameterDescriptor → pyval) (s : Store) :
  tasks s !! task_id_of operator = Some task →
  "DATASETS" ∉ tags task →
  parameters_of operator = (λ p, (param_name p, value p)) <$> task_parameters task →
  (∀ p, p ∈ task_parameters task → is_empty_string (value p) = false) →
  (check_status operator s = Ok "Setted up"
   ↔ ∀ p, p ∈ task_parameters task → param_name p ≠ "dataset") ∧
  (check_status operator s = Ok "Unset"
   ↔ ∃ p, p ∈ task_parameters task ∧ param_name p = "dataset").
Proof.
  intros Htask Htag Hparams Hfilled.
  unfold check_status, total_op_params, total_comp_params, list_parameters.
  rewrite Htask, (bool_decide_eq_true_2 _ Htag), Hparams.
  assert (Hop : length (filter (λ kv : string * pyval, is_empty_string kv.2 = false)
                          ((λ p, (param_name p, value p)) <$> task_parameters task))
                = length (task_parameters task)).
  { transitivity (length ((λ p, (param_name p, value p)) <$> task_parameters task));
      [|apply length_fmap].
    apply length_filter_all. intros kv (p & -> & Hp)%list_elem_of_fmap. by apply Hfilled. }
  rewrite Hop.
  destruct (length_filter_all (λ p, param_name p ≠ "dataset") (task_parameters task))
    as [Hall1 Hall2].
  case_bool_decide as Hlen.
  - symmetry in Hlen. pose proof (Hall1 Hlen) as Hno. split; split; try done.
    intros (p & Hp & Hname). exfalso. by apply (Hno p).
  - split; split; try done.
    + intros Hno. exfalso. apply Hlen. symmetry. by apply Hall2.
    + intros _.
      destruct (decide (Exists (λ p, param_name p = "dataset") (task_parameters task)))
        as [Hex | Hex]; [by apply Exists_exists in Hex|].
      exfalso. apply Hlen. symmetry. apply Hall2. intros p Hp Hname.
      apply Hex, Exists_exists. eauto.
Qed.

Lemma check_status_counts_dataset_witness :
  check_status
    (mkOperator (uuid_alpha 0) "E" "T"
       [("dataset", PStr "iris.csv"); ("coef", PFloat 1 (-1))] PNone PNone)
    example_store
  = Ok "Unset".
Proof.
  apply (check_status_counts_dataset
           (mkOperator (uuid_alpha 0) "E" "T"
              [("dataset", PStr "iris.csv"); ("coef", PFloat 1 (-1))] PNone PNone)
           example_task
           (λ p, if bool_decide (param_name p = "dataset")
                 then PStr "iris.csv" else PFloat 1 (-1))
           example_store).
  - by vm_compute.
  - compute_done.
  - by vm_compute.
  - intros p Hp. by case_bool_decide.
  - exists (mkParameterDescriptor "dataset"). split; [by left | done].
Defined.

Lemma total_op_params_values (o : Operator) :
  total_op_params o
  = length (filter (λ v, is_empty_string v = false) ((parameters_of o).*2)).
Proof.
  unfold total_op_params. induction (parameters_of o) as [|kv l IH]; [done|].
  rewrite fmap_cons, !filter_cons. simpl.
  destruct (decide (is_empty_string kv.2 = false)); simpl; by rewrite IH.
Qed.

(** X3. The status depends on how many parameters of the operator have a
    value, never on their names or their order: two operators of the same
    task whose parameter values are the same up to order get the same
    answer from [check_status]. *)
Theorem check_status_ignores_names (o1 o2 : Operator) (s : Store) :
  task_id_of o1 = task_id_of o2 →
  (parameters_of o1).*2 ≡ₚ (parameters_of o2).*2 →
  check_status o1 s = check_status o2 s.
Proof.
  intros Htask Hperm.
  assert (Hcount : total_op_params o1 = total_op_params o2).
  { rewrite !total_op_params_values. by rewrite Hperm. }
  unfold check_status. by rewrite Hcount, Htask.
Qed.

Lemma check_status_ignores_names_witness :
  check_status
    (mkOperator (uuid_alpha 0) "E" "T" [("unrelated", PFloat 1 (-1))] PNone PNone)
    example_store
  = check_status (example_operator (uuid_alpha 0)) example_store.
Proof.
  apply check_status_ignores_names.
  - reflexivity.
  - reflexivity.
Defined.

(** ** Synchronisation, further *)

(** X4. Synchronising one operator leaves the rows of every other operator
    as they are, in a store whose dependency rows have distinct keys; it
    never changes operators, tasks, projects or experiments. *)
Theorem update_dependencies_touches_one_operator (operator_id : uuid)
    (new : list uuid) (s : Store) :
  dependency_keys_unique s →
  (∀ op', op' ≠ operator_id →
          list_dependencies op' (update_dependencies operator_id new s)
          = list_dependencies op' s) ∧
  operators (update_dependencies operator_id new s) = operators s ∧
  tasks (update_dependencies operator_id new s) = tasks s ∧
  projects (update_dependencies operator_id new s) = projects s ∧
  experiments (update_dependencies operator_id new s) = experiments s.
Proof.
  intros Hkeys. split_and!.
  - intros op' Hne. by apply update_dependencies_frame.
  - apply update_dependencies_operators.
  - apply update_dependencies_tasks.
  - apply update_dependencies_projects.
  - apply update_dependencies_experiments.
Qed.

Lemma update_dependencies_touches_one_operator_witness :
  list_dependencies (uuid_alpha 1)
    (update_dependencies (uuid_alpha 2) [uuid_alpha 0] example_store)
  = list_dependencies (uuid_alpha 1) example_store.
Proof.
  apply (proj1 (update_dependencies_touches_one_operator (uuid_alpha 2) [uuid_alpha 0]
                  example_store ltac:(compute_done))).
  compute_done.
Defined.

Lemma elem_of_deleted_keys_find (operator_id : uuid) (new : list uuid) (s : Store) (u : uuid) :
  u ∈ deleted_keys operator_id new s →
  ∃ r, find (λ o, bool_decide (dep_dependency r = dep_dependency o))
         (list_dependencies operator_id s) = Some r
       ∧ dep_uuid r = u ∧ dep_dependency r ∉ new.
Proof.
  unfold deleted_keys. rewrite list_elem_of_omap.
  intros (d & Hd & Hfind).
  destruct (find _ _) as [r|] eqn:E; [|discriminate]. simpl in Hfind.
  pose proof (find_Some_elem _ _ _ E) as [_ Heq]. apply bool_decide_eq_true in Heq.
  unfold dependencies_to_delete in Hd. apply list_elem_of_filter in Hd as [Hd _].
  exists r. subst d. split_and!; [done | congruence | done].
Qed.

Lemma list_dependencies_elem (op : uuid) (s : Store) (r : Dependency) :
  r ∈ list_dependencies op s ↔ r ∈ dependencies s ∧ dep_operator_id r = op.
Proof. unfold list_dependencies. rewrite list_elem_of_filter. tauto. Qed.

(** X5. Synchronisation changes no more than it must: a stored row of the
    operator whose target is requested stays, with its key; a dependency
    is created only for a requested target that is not stored; a row is
    deleted only if it belongs to the operator and its target is not
    requested. *)
Theorem update_dependencies_minimal (operator_id : uuid) (new : list uuid) (s : Store) :
  dependency_keys_unique s →
  (∀ r, r ∈ list_dependencies operator_id s → dep_dependency r ∈ new →
        r ∈ list_dependencies operator_id (update_dependencies operator_id new s)) ∧
  (∀ a b, CreateDependencyCall a b ∈ update_dependencies_calls operator_id new s →
          a = operator_id ∧ b ∈ new ∧ b ∉ dependencies_of operator_id s) ∧
  (∀ k, DeleteDependencyCall k ∈ update_dependencies_calls operator_id new s →
        ∃ r, r ∈ list_dependencies operator_id s ∧ dep_uuid r = k
             ∧ dep_dependency r ∉ new).
Proof.
  intros Hkeys. split_and!.
  - intros r [Hr Hsrc]%list_dependencies_elem Hnew. apply list_dependencies_elem.
    split; [|done]. rewrite update_dependencies_store. simpl.
    apply list_elem_of_filter. split; [|apply elem_of_app; by left].
    intros Hdel. apply elem_of_deleted_keys in Hdel as (r0 & Hr0 & _ & Hkey & Hn0).
    assert (r0 = r) by by apply (dependency_key_inj s). congruence.
  - intros a b. rewrite update_dependencies_calls_eq, elem_of_app.
    intros [Hc | Hc].
    + apply list_elem_of_fmap in Hc as (d & [= -> ->] & Hd).
      unfold dependencies_to_add in Hd. apply list_elem_of_filter in Hd. tauto.
    + apply list_elem_of_fmap in Hc as (d & [=] & _).
  - intros k. rewrite update_dependencies_calls_eq, elem_of_app.
    intros [Hc | Hc].
    + apply list_elem_of_fmap in Hc as (d & [=] & _).
    + apply list_elem_of_fmap in Hc as (u & [= ->] & Hu).
      apply elem_of_deleted_keys in Hu as (r & Hr & Hsrc & Hkey & Hn).
      exists r. split_and!; [by apply list_dependencies_elem | done | done].
Qed.

Lemma update_dependencies_minimal_witness :
  mkDependency (uuid_alpha 3) (uuid_alpha 1) (uuid_alpha 0)
  ∈ list_dependencies (uuid_alpha 1)
      (update_dependencies (uuid_alpha 1) [uuid_alpha 2; uuid_alpha 0] example_store).
Proof.
  apply (proj1 (update_dependencies_minimal (uuid_alpha 1) [uuid_alpha 2; uuid_alpha 0]
                  example_store ltac:(compute_done))).
  - compute_done.
  - compute_done.
Defined.

(** X6. The inner loop of [update_dependencies] deletes, for a target that
    is no longer requested, the first matching row of the list read at the
    start and stops. So when two rows of the operator have the same
    target, that target is still a dependency of the operator after any
    synchronisation, even with the empty list. *)
Theorem update_dependencies_keeps_duplicate (operator_id : uuid) (new : list uuid)
    (s : Store) (r1 r2 : Dependency) :
  dependency_keys_unique s →
  r1 ∈ list_dependencies operator_id s → r2 ∈ list_dependencies operator_id s →
  r1 ≠ r2 → dep_dependency r1 = dep_dependency r2 →
  dep_dependency r1 ∈ dependencies_of operator_id (update_dependencies operator_id new s).
Proof.
  intros Hkeys Hr1 Hr2 Hne Htgt.
  pose proof Hr1 as [Hin1 Hsrc1]%list_dependencies_elem.
  pose proof Hr2 as [Hin2 Hsrc2]%list_dependencies_elem.
  assert (Hfirst : ∀ r, r ∈ dependencies s →
            dep_uuid r ∈ deleted_keys operator_id new s →
            find (λ o, bool_decide (dep_dependency r = dep_dependency o))
              (list_dependencies operator_id s) = Some r).
  { intros r Hr Hdel.
    apply elem_of_deleted_keys_find in Hdel as (r0 & Hfind & Hkey & _).
    pose proof (find_Some_elem _ _ _ Hfind) as [[Hr0 _]%list_dependencies_elem _].
    assert (r0 = r) by by apply (dependency_key_inj s). by subst. }
  assert (Hkept : ∀ r, r ∈ dependencies s → dep_operator_id r = operator_id →
            dep_uuid r ∉ deleted_keys operator_id new s →
            dep_dependency r ∈ dependencies_of operator_id
                                 (update_dependencies operator_id new s)).
  { intros r Hr Hsrc Hdel. apply elem_of_dependencies_of. exists r.
    split_and!; [|done..]. rewrite update_dependencies_store. simpl.
    apply list_elem_of_filter. split; [done | apply elem_of_app; by left]. }
  destruct (decide (dep_uuid r1 ∈ deleted_keys operator_id new s)) as [Hd1 | Hd1];
    [|by apply Hkept].
  destruct (decide (dep_uuid r2 ∈ deleted_keys operator_id new s)) as [Hd2 | Hd2];
    [|rewrite Htgt; by apply Hkept].
  exfalso. apply Hne.
  pose proof (Hfirst r1 Hin1 Hd1) as H1. pose proof (Hfirst r2 Hin2 Hd2) as H2.
  rewrite Htgt in H1. congruence.
Qed.

Lemma update_dependencies_keeps_duplicate_witness :
  uuid_alpha 0
  ∈ dependencies_of (uuid_alpha 1) (update_dependencies (uuid_alpha 1) [] example_duplicate).
Proof.
  apply (update_dependencies_keeps_duplicate (uuid_alpha 1) [] example_duplicate
           (mkDependency (uuid_alpha 3) (uuid_alpha 1) (uuid_alpha 0))
           (mkDependency (uuid_alpha 4) (uuid_alpha 1) (uuid_alpha 0))).
  - compute_done.
  - compute_done.
  - compute_done.
  - discriminate.
  - reflexivity.
Defined.

(** ** The detector, further *)

Lemma cycle_check_list_iff (project_id experiment_id u : uuid) (ds : list uuid) (s : Store) :
  project_id ∈ projects s → experiment_id ∈ experiments s →
  tasks_known experiment_id s → experiment_closed experiment_id s →
  pipeline_acyclic experiment_id s →
  u ∈ experiment_uuids experiment_id s →
  (∀ d, d ∈ ds → d ∈ experiment_uuids experiment_id s) →
  (raise_if_has_cycles project_id experiment_id (Some u) ds s
   = Raise (BadRequest CYCLICAL_MSG) ↔ ∃ b, b ∈ ds ∧ rtc (edge s) b u) ∧
  (raise_if_has_cycles project_id experiment_id (Some u) ds s = Ok false
   ↔ ∀ b, b ∈ ds → ¬ rtc (edge s) b u).
Proof.
  intros Hp He Ht Hclosed Hacyc Hu Hds.
  assert (Hov : overlay_closed experiment_id ds (Some u) s)
    by by apply overlay_closed_intro.
  assert (Hiff : would_create_cycle experiment_id ds (Some u) s
                 ↔ ∃ b, b ∈ ds ∧ rtc (edge s) b u).
  { split.
    - intros (x & Hx & Hcyc). by apply (overlay_cycle_reaches s ds u x (Hacyc x Hx)).
    - intros (b & Hb & Hba). exists u. split; [done|].
      by apply (reaches_overlay_cycle s ds u b). }
  destruct (raise_if_has_cycles_iff project_id experiment_id (Some u) ds s Hp He Ht Hov)
    as [H1 H2].
  rewrite H1, H2, Hiff. split; [done|]. split.
  - intros Hno b Hb Hba. apply Hno. eauto.
  - intros Hno (b & Hb & Hba). by apply (Hno b).
Qed.

(** X7. In a pipeline without cycle whose edges stay inside it, the cycle
    check for giving operator [u] the dependency list [ds], all of them
    operators of the pipeline, raises the cycle error exactly when some
    member of [ds] reaches [u] by stored edges; the dependencies stored for
    [u] that the request drops play no part. *)
Theorem cycle_check_list (project_id experiment_id u : uuid) (ds : list uuid) (s : Store) :
  project_id ∈ projects s → experiment_id ∈ experiments s →
  tasks_known experiment_id s → experiment_closed experiment_id s →
  pipeline_acyclic experiment_id s →
  u ∈ experiment_uuids experiment_id s →
  (∀ d, d ∈ ds → d ∈ experiment_uuids experiment_id s) →
  (raise_if_has_cycles project_id experiment_id (Some u) ds s
   = Raise (BadRequest CYCLICAL_MSG) ↔ ∃ b, b ∈ ds ∧ rtc (edge s) b u) ∧
  (raise_if_has_cycles project_id experiment_id (Some u) ds s = Ok false
   ↔ ∀ b, b ∈ ds → ¬ rtc (edge s) b u).
Proof. apply cycle_check_list_iff. Qed.

Lemma cycle_check_list_witness :
  (raise_if_has_cycles "P" "E" (Some (uuid_alpha 0)) [uuid_alpha 2; uuid_alpha 1]
     example_store = Raise (BadRequest CYCLICAL_MSG)
   ↔ ∃ b, b ∈ [uuid_alpha 2; uuid_alpha 1]
          ∧ rtc (edge example_store) b (uuid_alpha 0)) ∧
  (raise_if_has_cycles "P" "E" (Some (uuid_alpha 0)) [uuid_alpha 2; uuid_alpha 1]
     example_store = Ok false
   ↔ ∀ b, b ∈ [uuid_alpha 2; uuid_alpha 1]
          → ¬ rtc (edge example_store) b (uuid_alpha 0)).
Proof.
  apply cycle_check_list.
  - compute_done.
  - compute_done.
  - exact example_store_tasks_known.
  - exact example_store_closed.
  - intros x _. apply example_store_acyclic.
  - compute_done.
  - intros d Hd. revert d Hd. apply Forall_forall. compute_done.
Defined.




Lemma neighbours_loop_ext
    (rec rec' : uuid → gmap string bool → gmap string bool
                → result (bool * (gmap string bool * gmap string bool)))
    (ns : list uuid) (V S : gmap string bool) :
  (∀ n v st, rec n v st = rec' n v st) →
  neighbours_loop rec ns V S = neighbours_loop rec' ns V S.
Proof.
  intros Hext. revert V S. induction ns as [|y ns IH]; intros V S; simpl; [done|].
  destruct (V !! y) as [[|]|]; [| |done].
  - destruct (S !! y) as [[|]|]; [done | apply IH | done].
  - rewrite Hext. destruct (rec' y V S) as [[[|] [V1 S1]]|e]; simpl; [done | |done].
    destruct (S1 !! y) as [[|]|]; [done | apply IH | done].
Qed.

Lemma neighbours_None (s : Store) (ds : list uuid) (x : uuid) :
  neighbours s ds None x = dependencies_of x s.
Proof. unfold neighbours. by rewrite bool_decide_eq_false_2. Qed.

Lemma has_cycles_util_None (fuel : nat) (s : Store) (n : uuid)
    (V S : gmap string bool) (ds ds' : list uuid) :
  has_cycles_util fuel s n V S ds None = has_cycles_util fuel s n V S ds' None.
Proof.
  revert n V S. induction fuel as [|fuel IH]; intros n V S; simpl; [done|].
  rewrite !neighbours_None.
  by rewrite (neighbours_loop_ext _ (λ m v st, has_cycles_util fuel s m v st ds' None)).
Qed.

Lemma raise_if_has_cycles_loop_None (fuel : nat) (s : Store) (ops : list uuid)
    (V S : gmap string bool) (ds ds' : list uuid) :
  raise_if_has_cycles_loop fuel s ops V S ds None
  = raise_if_has_cycles_loop fuel s ops V S ds' None.
Proof.
  revert V S. induction ops as [|x ops IH]; intros V S; simpl; [done|].
  destruct (V !! x) as [[|]|]; [apply IH | | done].
  rewrite (has_cycles_util_None fuel s x V S ds ds').
  destruct (has_cycles_util fuel s x V S ds' None) as [[[|] [V1 S1]]|e]; simpl;
    [done | apply IH | done].
Qed.

(** X9. When an operator is created the detector is called without an
    edited operator, and then it never looks at the requested list: it
    answers as for the empty list. In a pipeline that exists, with known
    tasks and edges that stay inside it, it raises the cycle error exactly
    when an operator of the pipeline is on a cycle of stored edges. *)
Theorem create_cycle_check_ignores_request (project_id experiment_id : uuid)
    (ds : list uuid) (s : Store) :
  raise_if_has_cycles project_id experiment_id None ds s
  = raise_if_has_cycles project_id experiment_id None [] s ∧
  (project_id ∈ projects s → experiment_id ∈ experiments s →
   tasks_known experiment_id s → experiment_closed experiment_id s →
   (raise_if_has_cycles project_id experiment_id None ds s
    = Raise (BadRequest CYCLICAL_MSG)
    ↔ ∃ x, x ∈ experiment_uuids experiment_id s ∧ tc (edge s) x x)).
Proof.
  split.
  - unfold raise_if_has_cycles.
    destruct (list_operators project_id experiment_id s); simpl; [|done].
    apply raise_if_has_cycles_loop_None.
  - intros Hp He Ht Hclosed.
    assert (Hov : overlay_closed experiment_id ds None s).
    { intros x y Hx Hxy. apply overlay_edge_None in Hxy. by eapply Hclosed. }
    destruct (raise_if_has_cycles_iff project_id experiment_id None ds s Hp He Ht Hov)
      as [-> _].
    unfold would_create_cycle. split; intros (x & Hx & Hcyc); exists x; (split; [done|]);
      (eapply tc_subrel_tc; [|exact Hcyc]); intros a b Hab; apply tc_once;
      by apply (overlay_edge_None s ds).
Qed.

Lemma create_cycle_check_ignores_request_witness :
  raise_if_has_cycles "P" "E" None [uuid_alpha 7] example_cyclic
  = Raise (BadRequest CYCLICAL_MSG)
  ↔ ∃ x, x ∈ experiment_uuids "E" example_cyclic ∧ tc (edge example_cyclic) x x.
Proof.
  apply (proj2 (create_cycle_check_ignores_request "P" "E" [uuid_alpha 7] example_cyclic)).
  - compute_done.
  - compute_done.
  - exact example_cyclic_tasks_known.
  - exact example_cyclic_closed.
Defined.

Lemma check_each_dependency_not_self (e : uuid) (opn : option uuid)
    (ds : list uuid) (s : Store) :
  is_ok (check_each_dependency e opn ds s) = true → ∀ d, d ∈ ds → Some d ≠ opn.
Proof.
  induction ds as [|d ds IH]; simpl; intros Hok x Hx; [by apply elem_of_nil in Hx|].
  destruct (raise_if_operator_does_not_exist d e s) as [[]|err].
  - case_bool_decide; [done|].
    apply elem_of_cons in Hx as [-> | Hx]; [done | by apply IH].
  - by destruct err.
Qed.

(** Everything an accepted dependency list guarantees. *)
Lemma validation_Ok_list (project_id experiment_id : uuid) (deps : deps_payload)
    (opn : option uuid) (s : Store) :
  is_ok (raise_if_dependencies_are_invalid project_id experiment_id deps opn s) = true →
  deps = DepList (deps_list deps) ∧ NoDup (deps_list deps) ∧
  (∀ d, d ∈ deps_list deps → d ∈ experiment_uuids experiment_id s ∧ Some d ≠ opn) ∧
  ¬ would_create_cycle experiment_id (deps_list deps) opn s ∧
  overlay_closed experiment_id (deps_list deps) opn s.
Proof.
  unfold raise_if_dependencies_are_invalid. destruct deps as [|ds]; [done|]. simpl.
  case_bool_decide as Hlen; [done|].
  destruct (check_each_dependency experiment_id opn ds s) as [[]|err] eqn:Heach;
    simpl; [|done].
  destruct (raise_if_has_cycles project_id experiment_id opn ds s) as [b|err] eqn:Hc;
    [|done].
  intros _. apply raise_if_has_cycles_Ok in Hc as (_ & Hno & Hov).
  split_and!; [done | | | done | done].
  - apply length_remove_dups_NoDup. congruence.
  - intros d Hd. split.
    + apply (check_each_dependency_Ok experiment_id opn ds s); [by rewrite Heach | done].
    + apply (check_each_dependency_not_self experiment_id opn ds s); [by rewrite Heach | done].
Qed.

(** X10. A pipeline in which an operator is on a cycle of stored edges, or
    has a stored edge to an identifier that is not an operator of the
    pipeline, refuses every request that validates a dependency list: the
    validation never succeeds, [create_operator] fails and so does every
    [update_operator] that carries a dependency list, each leaving the
    store as it was. *)
Theorem broken_pipeline_refuses_requests (project_id experiment_id : uuid) (s : Store) :
  (∃ x, x ∈ experiment_uuids experiment_id s ∧ tc (edge s) x x) ∨
  (∃ x y, x ∈ experiment_uuids experiment_id s ∧ edge s x y
          ∧ y ∉ experiment_uuids experiment_id s) →
  (∀ deps opn,
     is_ok (raise_if_dependencies_are_invalid project_id experiment_id deps opn s)
     = false) ∧
  (∀ task_id parameters deps position_x position_y,
     ∃ e, create_operator project_id experiment_id task_id parameters deps
            position_x position_y s = (Raise e, s)) ∧
  (∀ u deps kwargs,
     ∃ e, update_operator u project_id experiment_id (Some deps) kwargs s
          = (Raise e, s)).
Proof.
  intros Hbroken.
  assert (Hval : ∀ deps opn,
            is_ok (raise_if_dependencies_are_invalid project_id experiment_id deps opn s)
            = false).
  { intros deps opn.
    destruct (is_ok (raise_if_dependencies_are_invalid _ _ deps opn s)) eqn:Hok; [|done].
    exfalso. apply validation_Ok_list in Hok as (_ & _ & _ & Hno & Hov).
    destruct Hbroken as [(x & Hx & Hcyc) | (x & y & Hx & Hxy & Hy)].
    - apply Hno. exists x. split; [done|]. eapply tc_subrel_tc; [|exact Hcyc].
      intros a b Hab. apply tc_once. unfold overlay_edge.
      apply elem_of_neighbours. by left.
    - apply Hy. apply (Hov x y Hx). unfold overlay_edge.
      apply elem_of_neighbours. by left. }
  split_and!; [done | |].
  - intros task_id parameters deps position_x position_y. unfold create_operator.
    destruct (create_operator_checks _ _ _ _ _ _) as [[[task ps] ds]|e'] eqn:Hchecks;
      [|eauto].
    apply create_operator_checks_Ok in Hchecks as (_ & _ & Hok).
    by rewrite Hval in Hok.
  - intros u deps kwargs. unfold update_operator.
    destruct (existsb _ kwargs); [eauto|].
    destruct (update_operator_checks _ _ _ _ _ _) as [o|e'] eqn:Hchecks; [|eauto].
    apply update_operator_checks_Ok in Hchecks as [_ Hok].
    by rewrite Hval in Hok.
Qed.

Lemma broken_pipeline_refuses_requests_witness :
  ∃ e, create_operator "P" "E" (PStr "T") None None PNone PNone example_cyclic
       = (Raise e, example_cyclic).
Proof.
  assert (Hbroken : ∃ x, x ∈ experiment_uuids "E" example_cyclic
                         ∧ tc (edge example_cyclic) x x).
  { exists (uuid_alpha 0). split; [compute_done|].
    apply (tc_l _ _ (uuid_alpha 1)); [|apply tc_once]; unfold edge; compute_done. }
  exact (proj1 (proj2 (broken_pipeline_refuses_requests "P" "E" example_cyclic
                         (or_introl Hbroken)))
           (PStr "T") None None PNone PNone).
Defined.

(** ** Requests that are accepted *)

Lemma set_column_experiment (o o' : Operator) (kv : string * pyval) :
  kv.1 ∉ update_operator_named → set_column o kv = Ok o' →
  experiment_id_of o' = experiment_id_of o.
Proof.
  destruct kv as [key v]. simpl. intros Hkey. unfold set_column.
  case_bool_decide as H1.
  { exfalso. apply Hkey. subst. unfold update_operator_named. by left. }
  case_bool_decide as H2.
  { exfalso. apply Hkey. subst. unfold update_operator_named. compute_done. }
  case_bool_decide as H3.
  { destruct v; try done; by intros [= <-]. }
  repeat case_bool_decide; by intros [= <-].
Qed.

Lemma set_columns_experiment (o o' : Operator) (data : list (string * pyval)) :
  existsb (λ kv, bool_decide (kv.1 ∈ update_operator_named)) data = false →
  set_columns o data = Ok o' → experiment_id_of o' = experiment_id_of o.
Proof.
  revert o. induction data as [|kv data IH]; intros o; simpl.
  - by intros _ [= <-].
  - intros [Hkv Hrest]%orb_false_elim. apply bool_decide_eq_false in Hkv.
    destruct (set_column o kv) as [o1|e] eqn:Hset; simpl; [|done].
    intros Ho'. rewrite (IH o1 Hrest Ho'). by eapply set_column_experiment.
Qed.

Lemma operator_keys_unique_eq (s : Store) (o1 o2 : Operator) :
  operator_keys_unique s → o1 ∈ operators s → o2 ∈ operators s →
  uuid_of o1 = uuid_of o2 → o1 = o2.
Proof.
  unfold operator_keys_unique. intros Hnd H1 H2 Heq.
  apply list_elem_of_lookup in H1 as [i Hi]. apply list_elem_of_lookup in H2 as [j Hj].
  assert (i = j) as ->; [|congruence].
  eapply NoDup_lookup; [exact Hnd | |]; rewrite list_lookup_fmap.
  - by rewrite Hi.
  - rewrite Hj. simpl. by rewrite Heq.
Qed.

(** X11. Whatever its outcome, [update_operator] keeps the list of operator
    identifiers, leaves every row of another operator as it is and, the
    primary key being unique, keeps the pipeline of every operator; a call
    without a dependency list leaves the dependency rows untouched. *)
Theorem update_operator_keeps_identities (u project_id experiment_id : uuid)
    (deps : option deps_payload) (kwargs : list (string * pyval))
    (s s' : Store) (r : result operator_dict) :
  operator_keys_unique s →
  update_operator u project_id experiment_id deps kwargs s = (r, s') →
  uuid_of <$> operators s' = uuid_of <$> operators s ∧
  experiment_id_of <$> operators s' = experiment_id_of <$> operators s ∧
  (∀ i o, operators s !! i = Some o → uuid_of o ≠ u → operators s' !! i = Some o) ∧
  (deps = None → dependencies s' = dependencies s).
Proof.
  intros Hpk. unfold update_operator.
  destruct (existsb _ kwargs) eqn:Hnamed; [by intros [= _ <-]|].
  destruct (update_operator_checks _ _ _ _ _ _) as [o|e] eqn:Hchecks;
    [|by intros [= _ <-]].
  apply update_operator_checks_Ok in Hchecks as [Hget _].
  apply get_operator_Some in Hget as [Ho Hu].
  set (s1 := match deps with
             | Some ds => update_dependencies u (deps_list ds) s
             | None => s
             end).
  assert (Hops : operators s1 = operators s).
  { subst s1. destruct deps; [apply update_dependencies_operators | done]. }
  assert (Hnone : deps = None → dependencies s1 = dependencies s).
  { intros ->. by subst s1. }
  destruct (update_row u o kwargs s1) as [[o' s2]|e] eqn:Hrow.
  - assert (s' = s2 → uuid_of <$> operators s' = uuid_of <$> operators s
                     ∧ experiment_id_of <$> operators s' = experiment_id_of <$> operators s
                     ∧ (∀ i x, operators s !! i = Some x → uuid_of x ≠ u
                               → operators s' !! i = Some x)
                     ∧ (deps = None → dependencies s' = dependencies s)) as Hgoal.
    { intros ->. pose proof (update_row_dependencies _ _ _ _ _ _ Hrow) as (Hd & _).
      pose proof (update_row_operators _ _ _ _ _ _ Hnamed Hu Hrow) as Hids.
      unfold update_row in Hrow. destruct (unknown_column kwargs); [done|].
      destruct (set_columns o kwargs) as [o1|] eqn:Hset; simpl in Hrow; [|done].
      injection Hrow as <- <-. simpl in *. rewrite Hops in *.
      split_and!.
      - done.
      - rewrite <- list_fmap_compose. apply list_fmap_ext. intros i x Hx. simpl.
        case_bool_decide as Hxu; [|done].
        rewrite (set_columns_experiment o o1 kwargs Hnamed Hset).
        f_equal. apply (operator_keys_unique_eq s); [done | done | | congruence].
        apply list_elem_of_lookup. eauto.
      - intros i x Hx Hne. rewrite list_lookup_fmap, Hx. simpl.
        by rewrite bool_decide_eq_false_2.
      - intros Hdeps. by apply Hnone. }
    destruct (check_status o' s2); intros [= _ <-]; by apply Hgoal.
  - intros [= _ <-]. rewrite Hops. done.
Qed.

Lemma update_operator_keeps_identities_witness :
  uuid_of <$> operators
    (update_operator (uuid_alpha 2) "P" "E" None [("task_id", PStr "U")]
       example_store).2
  = uuid_of <$> operators example_store.
Proof.
  apply (update_operator_keeps_identities (uuid_alpha 2) "P" "E" None
           [("task_id", PStr "U")] example_store _
           (update_operator (uuid_alpha 2) "P" "E" None [("task_id", PStr "U")]
              example_store).1).
  - unfold operator_keys_unique. compute_done.
  - by destruct (update_operator _ _ _ _ _ _).
Defined.

(** X12. An [update_operator] call with a dependency list that succeeds, on
    a store with unique edge keys, unused new identifiers and no duplicate
    target at the operator: the list was duplicate-free, named operators of
    the pipeline other than the edited one, the response carries the edited
    operator with exactly the requested dependencies, which are the ones
    now stored for it, and the rows of every other operator are unchanged. *)
Theorem update_operator_result (u project_id experiment_id : uuid)
    (deps : deps_payload) (kwargs : list (string * pyval))
    (s s' : Store) (d : operator_dict) :
  dependency_keys_unique s → seed_fresh s → no_duplicate_target u s →
  update_operator u project_id experiment_id (Some deps) kwargs s = (Ok d, s') →
  deps = DepList (deps_list deps) ∧
  NoDup (deps_list deps) ∧
  (∀ x, x ∈ deps_list deps → x ∈ experiment_uuids experiment_id s ∧ x ≠ u) ∧
  uuid_of (od_operator d) = u ∧
  od_dependencies d = dependencies_of u s' ∧
  od_dependencies d ≡ₚ deps_list deps ∧
  (∀ op', op' ≠ u → list_dependencies op' s' = list_dependencies op' s).
Proof.
  intros Hkeys Hfresh Hnodup. unfold update_operator.
  destruct (existsb _ kwargs) eqn:Hnamed; [done|].
  destruct (update_operator_checks _ _ _ _ _ _) as [o|e] eqn:Hchecks; [|done].
  apply update_operator_checks_Ok in Hchecks as [Hget Hok].
  apply get_operator_Some in Hget as [Ho Hu].
  apply validation_Ok_list in Hok as (Hshape & Hnd & Hmem & _ & _).
  destruct (update_row u o kwargs _) as [[o' s2]|e] eqn:Hrow; [|done].
  destruct (check_status o' s2) as [st|]; [|done]. intros [= <- <-]. simpl.
  pose proof (update_row_dependencies _ _ _ _ _ _ Hrow) as (Hd & _).
  assert (Ho' : uuid_of o' = u).
  { unfold update_row in Hrow. destruct (unknown_column kwargs); [done|].
    destruct (set_columns o kwargs) as [o1|] eqn:Hset; simpl in Hrow; [|done].
    injection Hrow as <- _. by rewrite (set_columns_uuid o o1 kwargs Hnamed Hset). }
  assert (Hlist : ∀ op', list_dependencies op' s2
                         = list_dependencies op' (update_dependencies u (deps_list deps) s)).
  { intros op'. unfold list_dependencies. by rewrite Hd. }
  assert (Hof : dependencies_of u s2
                = dependencies_of u (update_dependencies u (deps_list deps) s)).
  { apply dependencies_of_ext, Hlist. }
  split_and!; [done | done | | done | | |].
  - intros x Hx. destruct (Hmem x Hx) as [Hin Hne]. split; [done | congruence].
  - unfold as_dict_dependencies. by rewrite Ho'.
  - unfold as_dict_dependencies. rewrite Ho', Hof. apply NoDup_Permutation.
    + by apply update_dependencies_NoDup.
    + done.
    + intros x. by apply update_dependencies_members.
  - intros op' Hne. rewrite Hlist. by apply update_dependencies_frame.
Qed.

Lemma update_operator_result_witness :
  od_dependencies
    (default (mkOperatorDict (example_operator "") "" [])
       (match (update_operator (uuid_alpha 2) "P" "E"
                 (Some (DepList [uuid_alpha 0; uuid_alpha 1])) [] example_store).1 with
        | Ok d => Some d
        | Raise _ => None
        end))
  ≡ₚ [uuid_alpha 0; uuid_alpha 1].
Proof.
  destruct (update_operator (uuid_alpha 2) "P" "E"
              (Some (DepList [uuid_alpha 0; uuid_alpha 1])) [] example_store)
    as [r s'] eqn:Hrun.
  assert (Hr : ∃ d, r = Ok d).
  { assert (is_ok r = true) as Hok; [|destruct r; [eauto | done]].
    by vm_compute in Hrun; injection Hrun as <- _. }
  destruct Hr as [d ->]. simpl.
  apply (update_operator_result (uuid_alpha 2) "P" "E"
           (DepList [uuid_alpha 0; uuid_alpha 1]) [] example_store s' d).
  - unfold dependency_keys_unique. compute_done.
  - exact example_store_seed_fresh.
  - unfold no_duplicate_target. compute_done.
  - exact Hrun.
Defined.

(** X13. A [create_operator] call that succeeds, on a store whose new
    identifiers are unused, appends one operator with a new identifier to
    the pipeline named in the request, with an existing task; it appends
    one edge row per requested dependency, in the order of the request and
    after the rows already stored, and deletes none. The response echoes
    the requested list, which is what is then stored for the operator. *)
Theorem create_operator_result (project_id experiment_id : uuid) (task_id : pyval)
    (parameters : option pyval) (deps : option deps_payload)
    (position_x position_y : pyval) (s s' : Store) (d : operator_dict) :
  seed_fresh s →
  create_operator project_id experiment_id task_id parameters deps
    position_x position_y s = (Ok d, s') →
  uuid_of (od_operator d) = uuid_alpha (uuid_seed s) ∧
  (uuid_of (od_operator d) ∉ uuid_of <$> operators s) ∧
  experiment_id_of (od_operator d) = experiment_id ∧
  is_Some (tasks s !! task_id_of (od_operator d)) ∧
  operators s' = operators s ++ [od_operator d] ∧
  od_dependencies d = deps_list (default (DepList []) deps) ∧
  dependencies s'
  = dependencies s
      ++ created_rows (uuid_of (od_operator d)) (S (uuid_seed s)) (od_dependencies d) ∧
  dependencies_of (uuid_of (od_operator d)) s' = od_dependencies d.
Proof.
  intros Hfresh. unfold create_operator.
  destruct (create_operator_checks _ _ _ _ _ _) as [[[task ps] ds]|e] eqn:Hchecks;
    [|done].
  apply create_operator_checks_Ok in Hchecks as (Htask & Hds & _).
  set (n := uuid_alpha (uuid_seed s)).
  set (o := mkOperator n experiment_id task ps position_x position_y).
  destruct (check_status o (add_operator o s)) as [st|]; [|done].
  intros [= <- <-]. cbn [od_operator od_dependencies uuid_of experiment_id_of task_id_of o].
  assert (Hn : n ∉ ids_in_use s) by (apply Hfresh; lia).
  assert (Hsrc : ∀ r, r ∈ dependencies s → dep_operator_id r ≠ n).
  { intros r Hr Heq. apply Hn, elem_of_ids_in_use. right. exists r. eauto. }
  assert (Hnone : list_dependencies n (add_operator o s) = []).
  { unfold list_dependencies. simpl. apply filter_none. intros r Hr. by apply Hsrc. }
  assert (Hadd : dependencies_to_add n ds (add_operator o s) = ds).
  { unfold dependencies_to_add, dependencies_of. rewrite Hnone. simpl.
    apply filter_all. intros x _. apply not_elem_of_nil. }
  assert (Hdel : deleted_keys n ds (add_operator o s) = []).
  { unfold deleted_keys, dependencies_to_delete, dependencies_of. by rewrite Hnone. }
  assert (Hrows : dependencies (update_dependencies n ds (add_operator o s))
                  = dependencies s ++ created_rows n (S (uuid_seed s)) ds).
  { rewrite update_dependencies_store, Hadd, Hdel. simpl.
    apply filter_all. intros x _. apply not_elem_of_nil. }
  split_and!.
  - done.
  - intros Hin. apply Hn, elem_of_ids_in_use. by left.
  - done.
  - done.
  - by rewrite update_dependencies_operators.
  - done.
  - done.
  - unfold dependencies_of, list_dependencies. rewrite Hrows, filter_app.
    rewrite (filter_none _ (dependencies s)) by (intros r Hr; by apply Hsrc).
    rewrite filter_all by (intros r Hr; by eapply created_rows_sources).
    simpl. apply created_rows_targets.
Qed.

Lemma create_operator_result_witness :
  dependencies
    (create_operator "P" "E" (PStr "T") None
       (Some (DepList [uuid_alpha 2; uuid_alpha 0])) PNone PNone example_store).2
  = dependencies example_store
      ++ created_rows (uuid_alpha 4) 5 [uuid_alpha 2; uuid_alpha 0].
Proof.
  destruct (create_operator "P" "E" (PStr "T") None
              (Some (DepList [uuid_alpha 2; uuid_alpha 0])) PNone PNone example_store)
    as [r s'] eqn:Hrun.
  assert (Hr : ∃ d, r = Ok d ∧ uuid_of (od_operator d) = uuid_alpha 4
                    ∧ od_dependencies d = [uuid_alpha 2; uuid_alpha 0]).
  { vm_compute in Hrun. injection Hrun as <- _. eexists. split; [done|]. by vm_compute. }
  destruct Hr as (d & -> & Hid & Hdeps).
  pose proof (create_operator_result "P" "E" (PStr "T") None
                (Some (DepList [uuid_alpha 2; uuid_alpha 0])) PNone PNone
                example_store s' d example_store_seed_fresh Hrun)
    as (_ & _ & _ & _ & _ & _ & Hrows & _).
  simpl. by rewrite Hrows, Hid, Hdeps.
Defined.

(** ** What the checks leave out *)

Lemma tc_closed_subrel {A : Type} (R R' : relation A) (K : A → Prop) (x y : A) :
  (∀ a b, K a → R a b → R' a b ∧ K b) → K x → tc R x y → tc R' x y.
Proof.
  intros Hstep Hx Hxy. induction Hxy as [x y Hxy | x z y Hxz _ IH].
  - apply tc_once. by apply Hstep.
  - destruct (Hstep x z Hx Hxz) as [Hxz' Hz]. eapply tc_l; [exact Hxz' | by apply IH].
Qed.

(** A list the first three checks accept, in a pipeline whose overlay graph
    is closed and free of cycles, passes the validation. *)
Lemma validation_accepts (project_id experiment_id : uuid) (ds : list uuid)
    (opn : option uuid) (s : Store) :
  project_id ∈ projects s → experiment_id ∈ experiments s →
  tasks_known experiment_id s → operator_keys_unique s →
  NoDup ds →
  (∀ d, d ∈ ds → d ∈ experiment_uuids experiment_id s ∧ Some d ≠ opn) →
  overlay_closed experiment_id ds opn s →
  ¬ would_create_cycle experiment_id ds opn s →
  raise_if_dependencies_are_invalid project_id experiment_id (DepList ds) opn s
  = Ok false.
Proof.
  intros Hp He Ht Hpk Hnd Hmem Hov Hno.
  destruct (validation_cases project_id experiment_id ds opn s)
    as [[_ Hfail] | (-> & _)].
  - exfalso. apply Hfail. split_and!.
    + by apply check_duplicates_Ok.
    + apply check_existence_Ok; [done|]. intros d Hd. by apply Hmem.
    + apply check_self_reference_Ok. intros d Hd. by apply Hmem.
  - by apply (raise_if_has_cycles_iff project_id experiment_id opn ds s).
Qed.

(** X14. [update_operator] never checks that the operator it edits belongs
    to the pipeline named in the request. An operator of another pipeline,
    edited through a sound pipeline with a duplicate-free list of that
    pipeline's operators, is accepted: the operator then depends on exactly
    those operators, none of which is in its own pipeline. *)
Theorem update_operator_ignores_membership (u project_id experiment_id : uuid)
    (ds : list uuid) (o : Operator) (s : Store) :
  project_id ∈ projects s → experiment_id ∈ experiments s →
  tasks_known experiment_id s → experiment_closed experiment_id s →
  pipeline_acyclic experiment_id s →
  operator_keys_unique s → dependency_keys_unique s → seed_fresh s →
  no_duplicate_target u s →
  get_operator u s = Some o → experiment_id_of o ≠ experiment_id →
  is_Some (tasks s !! task_id_of o) →
  NoDup ds → (∀ d, d ∈ ds → d ∈ experiment_uuids experiment_id s) →
  ∃ r s',
    update_operator u project_id experiment_id (Some (DepList ds)) [] s = (Ok r, s') ∧
    u ∈ experiment_uuids (experiment_id_of o) s' ∧
    (∀ d, edge s' u d ↔ d ∈ ds) ∧
    (∀ d, d ∈ ds → d ∉ experiment_uuids (experiment_id_of o) s').
Proof.
  intros Hp He Ht Hclosed Hacyc Hpk Hkeys Hfresh Hnodup Hget Hother Htask Hnd Hmem.
  pose proof (get_operator_Some _ _ _ Hget) as [Ho Hu].
  assert (Hexp : ∀ x e1 e2, x ∈ experiment_uuids e1 s → x ∈ experiment_uuids e2 s
                            → e1 = e2).
  { intros x e1 e2 (o1 & -> & [He1 Ho1]%list_elem_of_filter)%list_elem_of_fmap
      (o2 & Heq & [He2 Ho2]%list_elem_of_filter)%list_elem_of_fmap.
    rewrite <- He1, <- He2. f_equal. by apply (operator_keys_unique_eq s). }
  assert (Hown : u ∈ experiment_uuids (experiment_id_of o) s).
  { apply list_elem_of_fmap. exists o. split; [done|]. by apply list_elem_of_filter. }
  assert (Hnotin : u ∉ experiment_uuids experiment_id s).
  { intros Hin. apply Hother. by apply (Hexp u). }
  assert (Hstored : ∀ a b, a ∈ experiment_uuids experiment_id s →
                           overlay_edge s ds (Some u) a b →
                           edge s a b ∧ b ∈ experiment_uuids experiment_id s).
  { intros a b Ha Hab. apply overlay_edge_inv in Hab as [Hab | [-> _]]; [|done].
    split; [done | by eapply Hclosed]. }
  assert (Hvalid : raise_if_dependencies_are_invalid project_id experiment_id
                     (DepList ds) (Some u) s = Ok false).
  { apply validation_accepts; try done.
    - intros d Hd. split; [by apply Hmem|]. intros [= ->]. apply Hnotin. by apply Hmem.
    - intros a b Ha Hab. by apply (Hstored a b).
    - intros (x & Hx & Hcyc). apply (Hacyc x Hx).
      by apply (tc_closed_subrel _ _ (λ a, a ∈ experiment_uuids experiment_id s)
                  x x Hstored). }
  assert (Hchecks : update_operator_checks u project_id experiment_id
                      (Some (DepList ds)) [] s = Ok o).
  { unfold update_operator_checks, raise_if_project_does_not_exist,
      raise_if_experiment_does_not_exist.
    rewrite !bool_decide_eq_true_2 by done. rewrite Hget, Hvalid. reflexivity. }
  unfold update_operator. rewrite Hchecks.
  cbn [existsb deps_list].
  set (s1 := update_dependencies u ds s).
  assert (Htask1 : is_Some (tasks s1 !! task_id_of o)).
  { subst s1. by rewrite update_dependencies_tasks. }
  unfold update_row. simpl.
  destruct (check_status o _) as [st|e] eqn:Hst.
  - eexists _, _. split; [reflexivity|]. simpl.
    assert (Hsame : (λ x, if bool_decide (uuid_of x = u) then o else x) <$> operators s1
                    = operators s).
    { subst s1. rewrite update_dependencies_operators.
      rewrite <- (list_fmap_id (operators s)) at 2. apply list_fmap_ext.
      intros i x Hx. simpl. case_bool_decide as Hxu; [|done].
      apply (operator_keys_unique_eq s); [done | done | | congruence].
      apply list_elem_of_lookup. eauto. }
    split_and!.
    + unfold experiment_uuids, experiment_operators. simpl. by rewrite Hsame.
    + intros d. unfold edge, dependencies_of, list_dependencies. simpl.
      by apply (update_dependencies_members u ds s).
    + intros d Hd Hin. unfold experiment_uuids, experiment_operators in Hin.
      simpl in Hin. rewrite Hsame in Hin. apply Hother. symmetry.
      apply (Hexp d); [by apply Hmem | done].
  - exfalso. assert (Hok : is_ok (check_status o
        {| projects := projects s1; experiments := experiments s1; tasks := tasks s1;
           operators := (λ x, if bool_decide (uuid_of x = u) then o else x)
                          <$> operators s1;
           dependencies := dependencies s1; uuid_seed := uuid_seed s1 |}) = true).
    { by apply check_status_is_ok. }
    by rewrite Hst in Hok.
Qed.

Lemma update_operator_ignores_membership_witness :
  ∃ r s',
    update_operator (uuid_alpha 2) "P" "E" (Some (DepList [uuid_alpha 0])) []
      example_two_pipelines = (Ok r, s') ∧
    uuid_alpha 2 ∈ experiment_uuids "F" s' ∧
    (∀ d, edge s' (uuid_alpha 2) d ↔ d ∈ [uuid_alpha 0]) ∧
    (∀ d, d ∈ [uuid_alpha 0] → d ∉ experiment_uuids "F" s').
Proof.
  apply (update_operator_ignores_membership (uuid_alpha 2) "P" "E" [uuid_alpha 0]
           (mkOperator (uuid_alpha 2) "F" "T" [] PNone PNone) example_two_pipelines).
  - compute_done.
  - compute_done.
  - apply tasks_known_intro. compute_done.
  - apply experiment_closed_intro. compute_done.
  - intros x _. apply (acyclic_by_detector "P" "E"); compute_done.
  - unfold operator_keys_unique. compute_done.
  - unfold dependency_keys_unique. compute_done.
  - apply seed_fresh_intro. compute_done.
  - unfold no_duplicate_target. compute_done.
  - reflexivity.
  - done.
  - compute_done.
  - compute_done.
  - intros d Hd. apply list_elem_of_singleton in Hd as ->. compute_done.
Defined.




(** ** Deleting an operator, further *)

(** The store an accepted deletion leaves, edge by edge. *)
Lemma delete_operator_store (n project_id experiment_id : uuid)
    (s s' : Store) (m : string) :
  dependency_keys_unique s → seed_fresh s → (∀ op, no_duplicate_target op s) →
  ¬ edge s n n →
  delete_operator n project_id experiment_id s = (Ok m, s') →
  operators s' = filter (λ o, uuid_of o ≠ n) (operators s) ∧
  dependency_keys_unique s' ∧
  (∀ c, no_duplicate_target c s') ∧
  (∀ c x, edge s' c x
          ↔ c ≠ n ∧ x ≠ n ∧ (edge s c x ∨ (edge s c n ∧ edge s n x))).
Proof.
  intros Hkeys Hfresh Hnd Hself. unfold delete_operator.
  destruct (raise_if_project_does_not_exist project_id s); simpl; [|done].
  destruct (raise_if_experiment_does_not_exist experiment_id s); simpl; [|done].
  destruct (get_operator n s) as [o|] eqn:Hget; simpl; [|done].
  pose proof Hget as [_ Hu]%get_operator_Some. unfold as_dict_dependencies.
  rewrite Hu. unfold delete_dependencies.
  destruct (delete_dependencies_loop_spec n s (list_next_operators n s) s)
    as (t & Hloop & Hkeyst & Hfresht & Hseedt & Hopst & Hspec & Hframe);
    [done | apply Hnd | by apply list_next_operators_NoDup | done | done | done | |].
  { intros c Hc%elem_of_list_next_operators. split_and!; [done | done | apply Hnd]. }
  rewrite Hloop. intros [= _ <-].
  set (t1 := update_dependencies n [] t).
  assert (Hn_notin : n ∉ list_next_operators n s).
  { by intros ?%elem_of_list_next_operators. }
  assert (Hother : ∀ c, c ≠ n → dependencies_of c (remove_operator n t1) = dependencies_of c t).
  { intros c Hc. apply (dependencies_of_ext c t (remove_operator n t1)).
    by apply (update_dependencies_frame n c [] t). }
  assert (Hnone : dependencies_of n (remove_operator n t1) = []).
  { assert (Hnil : ∀ x, x ∉ dependencies_of n t1).
    { intros x Hx. apply (update_dependencies_members n [] t) in Hx; [| done | done |].
      - by apply elem_of_nil in Hx.
      - unfold no_duplicate_target.
        rewrite (dependencies_of_ext n s t (Hframe n Hn_notin)). apply Hnd. }
    change (dependencies_of n (remove_operator n t1)) with (dependencies_of n t1).
    destruct (dependencies_of n t1) as [|x l]; [done|].
    exfalso. apply (Hnil x). by left. }
  assert (Hcons : ∀ c, edge s c n →
            NoDup (dependencies_of c (remove_operator n t1)) ∧
            ∀ x, x ∈ dependencies_of c (remove_operator n t1)
                 ↔ (x ∈ dependencies_of n s ∨ x ∈ dependencies_of c s) ∧ x ≠ n).
  { intros c Hc. rewrite Hother by (intros ->; done).
    apply Hspec. by apply elem_of_list_next_operators. }
  assert (Hrest : ∀ c, ¬ edge s c n → c ≠ n →
            dependencies_of c (remove_operator n t1) = dependencies_of c s).
  { intros c Hc Hne. rewrite Hother by done. apply dependencies_of_ext, Hframe.
    by intros ?%elem_of_list_next_operators. }
  split_and!.
  - simpl. subst t1. by rewrite update_dependencies_operators, Hopst.
  - unfold dependency_keys_unique. simpl.
    by apply (update_dependencies_keys_unique n [] t).
  - intros c. unfold no_duplicate_target.
    destruct (decide (c = n)) as [-> | Hc]; [rewrite Hnone; apply NoDup_nil_2|].
    destruct (decide (n ∈ dependencies_of c s)) as [Hcn | Hcn]; [by apply Hcons|].
    rewrite Hrest by done. apply Hnd.
  - intros c x. unfold edge at 1.
    destruct (decide (c = n)) as [-> | Hc].
    { rewrite Hnone. split; [by intros ?%elem_of_nil | by intros [? _]]. }
    destruct (decide (n ∈ dependencies_of c s)) as [Hcn | Hcn].
    + pose proof (proj2 (Hcons c Hcn) x) as Hx. unfold edge in *. tauto.
    + rewrite Hrest by done. unfold edge in *. split; [|tauto].
      intros Hx. split_and!; [done | by intros -> | by left].
Qed.

(** X16. Deleting an operator keeps the transitive dependencies among the
    operators that remain: in a store that respects its keys and invariant
    I1, after an accepted deletion of [n] one remaining operator depends
    transitively on another exactly when it did before. *)
Theorem delete_operator_keeps_reachability (n project_id experiment_id : uuid)
    (s s' : Store) (m : string) :
  dependency_keys_unique s → seed_fresh s → (∀ op, no_duplicate_target op s) →
  ¬ edge s n n →
  delete_operator n project_id experiment_id s = (Ok m, s') →
  ∀ x y, x ≠ n → y ≠ n → (tc (edge s') x y ↔ tc (edge s) x y).
Proof.
  intros Hkeys Hfresh Hnd Hself Hdel.
  destruct (delete_operator_store n project_id experiment_id s s' m
              Hkeys Hfresh Hnd Hself Hdel) as (_ & _ & _ & Hedge).
  intros x y Hx Hy. split.
  - apply tc_subrel_tc. intros a b Hab.
    apply Hedge in Hab as (_ & _ & [Hab | [Han Hnb]]); [by apply tc_once|].
    eapply tc_l; [exact Han | by apply tc_once].
  - intros Hxy.
    assert (Hgen : y ≠ n →
              (x ≠ n → tc (edge s') x y) ∧
              (x = n → ∀ c, edge s c n → c ≠ n → tc (edge s') c y));
      [|exact (proj1 (Hgen Hy) Hx)].
    clear Hx Hy. induction Hxy as [x y Hxy | x z y Hxz Hzy IH]; intros Hy.
    + split.
      * intros Hx. apply tc_once, Hedge. split_and!; [done | done | by left].
      * intros -> c Hc Hcn. apply tc_once, Hedge. split_and!; [done | done | by right].
    + destruct (IH Hy) as [IH1 IH2]. split.
      * intros Hx. destruct (decide (z = n)) as [-> | Hz]; [by apply IH2|].
        eapply tc_l; [|by apply IH1]. apply Hedge. split_and!; [done | done | by left].
      * intros -> c Hc Hcn.
        assert (Hz : z ≠ n) by (by intros ->).
        eapply tc_l; [|by apply IH1]. apply Hedge. split_and!; [done | done | by right].
Qed.

Lemma delete_operator_keeps_reachability_witness :
  tc (edge (delete_operator (uuid_alpha 1) "P" "E" example_chain).2)
     (uuid_alpha 2) (uuid_alpha 0)
  ↔ tc (edge example_chain) (uuid_alpha 2) (uuid_alpha 0).
Proof.
  destruct (delete_operator (uuid_alpha 1) "P" "E" example_chain) as [r s'] eqn:Hrun.
  assert (Hr : ∃ m, r = Ok m).
  { assert (is_ok r = true) as Hok; [|destruct r; [eauto | done]].
    by vm_compute in Hrun; injection Hrun as <- _. }
  destruct Hr as [m ->]. simpl.
  apply (delete_operator_keeps_reachability (uuid_alpha 1) "P" "E" example_chain s' m).
  - unfold dependency_keys_unique. compute_done.
  - exact example_chain_seed_fresh.
  - exact example_chain_no_duplicate_target.
  - unfold edge. compute_done.
  - exact Hrun.
  - compute_done.
  - compute_done.
Defined.

(** ** The well-formed stores *)

Lemma experiment_uuids_operators (e : uuid) (s : Store) (x : uuid) :
  x ∈ experiment_uuids e s → x ∈ uuid_of <$> operators s.
Proof.
  intros (o & -> & [_ Ho]%list_elem_of_filter)%list_elem_of_fmap.
  by apply list_elem_of_fmap_2.
Qed.

Lemma create_operator_well_formed (project_id experiment_id : uuid) (task_id : pyval)
    (parameters : option pyval) (deps : option deps_payload)
    (position_x position_y : pyval) (s s' : Store) (d : operator_dict) :
  well_formed s →
  create_operator project_id experiment_id task_id parameters deps
    position_x position_y s = (Ok d, s') →
  well_formed s'.
Proof.
  intros (Hpk & Hkeys & Hfresh & Hnd & Hends & Hacyc) Hrun.
  destruct (create_operator_accepted _ _ _ _ _ _ _ _ _ _ Hfresh Hacyc Hrun)
    as [Hfresh' Hacyc'].
  revert Hrun. unfold create_operator.
  destruct (create_operator_checks _ _ _ _ _ _) as [[[task ps] ds]|e'] eqn:Hchecks;
    [|done].
  apply create_operator_checks_Ok in Hchecks as (_ & Hds & Hvalid).
  apply validation_Ok_list in Hvalid as (_ & Hnodup & Hmem & _ & _).
  rewrite <- Hds in Hnodup, Hmem.
  set (n := uuid_alpha (uuid_seed s)).
  set (o := mkOperator n experiment_id task ps position_x position_y).
  destruct (check_status o (add_operator o s)); [|done]. intros [= _ <-].
  cbn [uuid_of o].
  assert (Hn : n ∉ ids_in_use s) by (apply Hfresh; lia).
  assert (Hfresh1 : seed_fresh (add_operator o s)) by by apply add_operator_seed_fresh.
  assert (Hkeys1 : dependency_keys_unique (add_operator o s)) by done.
  assert (Hnd1 : ∀ op, no_duplicate_target op (add_operator o s)) by done.
  assert (Hops : operators (update_dependencies n ds (add_operator o s))
                 = operators s ++ [o]).
  { by rewrite update_dependencies_operators. }
  split_and!; [| | done | | | done].
  - unfold operator_keys_unique. rewrite Hops, fmap_app. apply NoDup_app.
    split_and!; [done | | apply NoDup_singleton].
    intros x Hx ->%list_elem_of_singleton. apply Hn, elem_of_ids_in_use. by left.
  - by apply update_dependencies_keys_unique.
  - intros op. destruct (decide (op = n)) as [-> | Hop].
    + by apply update_dependencies_NoDup.
    + unfold no_duplicate_target.
      rewrite (dependencies_of_ext op (add_operator o s)); [apply Hnd1|].
      by apply update_dependencies_frame.
  - intros x y Hxy. rewrite Hops, fmap_app.
    apply update_dependencies_edge in Hxy as [Hxy | [-> Hy]].
    + destruct (Hends x y Hxy) as [Hx Hy]. split; apply elem_of_app; by left.
    + split; apply elem_of_app; [right; by left | left].
      eapply experiment_uuids_operators. by apply Hmem.
Qed.

Lemma update_operator_well_formed (u project_id experiment_id : uuid)
    (deps : option deps_payload) (kwargs : list (string * pyval))
    (s s' : Store) (d : operator_dict) :
  well_formed s →
  update_operator u project_id experiment_id deps kwargs s = (Ok d, s') →
  well_formed s'.
Proof.
  intros (Hpk & Hkeys & Hfresh & Hnd & Hends & Hacyc) Hrun.
  destruct (update_operator_accepted _ _ _ _ _ _ _ _ Hfresh Hacyc Hrun)
    as [Hfresh' Hacyc'].
  revert Hrun. unfold update_operator.
  destruct (existsb _ kwargs) eqn:Hnamed; [done|].
  destruct (update_operator_checks _ _ _ _ _ _) as [o|e'] eqn:Hchecks; [|done].
  apply update_operator_checks_Ok in Hchecks as [Hget Hvalid].
  apply get_operator_Some in Hget as [Ho Hu].
  set (s1 := match deps with
             | Some ds => update_dependencies u (deps_list ds) s
             | None => s
             end).
  assert (Hs1 : operators s1 = operators s ∧ dependency_keys_unique s1 ∧
                (∀ op, no_duplicate_target op s1) ∧ endpoints_exist s1).
  { subst s1. destruct deps as [ds|]; [|done].
    apply validation_Ok_list in Hvalid as (_ & Hnodup & Hmem & _ & _).
    split_and!.
    - apply update_dependencies_operators.
    - by apply update_dependencies_keys_unique.
    - intros op. destruct (decide (op = u)) as [-> | Hop].
      + by apply update_dependencies_NoDup.
      + unfold no_duplicate_target. rewrite (dependencies_of_ext op s); [apply Hnd|].
        by apply update_dependencies_frame.
    - intros x y Hxy. rewrite update_dependencies_operators.
      apply update_dependencies_edge in Hxy as [Hxy | [-> Hy]]; [by apply Hends|].
      split; [rewrite <- Hu; by apply list_elem_of_fmap_2|].
      eapply experiment_uuids_operators. by apply Hmem. }
  destruct Hs1 as (Hops1 & Hkeys1 & Hnd1 & Hends1).
  destruct (update_row u o kwargs s1) as [[o' s2]|e'] eqn:Hrow; [|done].
  destruct (check_status o' s2); [|done]. intros [= _ <-].
  pose proof (update_row_dependencies _ _ _ _ _ _ Hrow) as (Hd & _).
  pose proof (update_row_operators _ _ _ _ _ _ Hnamed Hu Hrow) as Hops.
  split_and!; [| | done | | | done].
  - unfold operator_keys_unique. by rewrite Hops, Hops1.
  - unfold dependency_keys_unique. by rewrite Hd.
  - intros op. unfold no_duplicate_target. rewrite (dependencies_of_ext op s1); [apply Hnd1|].
    unfold list_dependencies. by rewrite Hd.
  - intros x y Hxy. rewrite Hops. apply Hends1. by apply (edge_ext s1 s2).
Qed.

Lemma delete_operator_well_formed (u project_id experiment_id : uuid)
    (s s' : Store) (m : string) :
  well_formed s →
  delete_operator u project_id experiment_id s = (Ok m, s') →
  well_formed s'.
Proof.
  intros (Hpk & Hkeys & Hfresh & Hnd & Hends & Hacyc) Hrun.
  destruct (delete_operator_accepted _ _ _ _ _ _ Hfresh Hacyc Hrun)
    as [Hfresh' Hacyc'].
  assert (Hself : ¬ edge s u u).
  { intros Hloop. apply (Hacyc u). by apply tc_once. }
  destruct (delete_operator_store u project_id experiment_id s s' m
              Hkeys Hfresh Hnd Hself Hrun) as (Hops & Hkeys' & Hnd' & Hedge).
  split_and!; [| done | done | done | | done].
  - unfold operator_keys_unique. rewrite Hops.
    eapply sublist_NoDup; [exact Hpk|]. apply fmap_sublist, sublist_filter.
  - assert (Hkept : ∀ x, x ∈ uuid_of <$> operators s → x ≠ u
                         → x ∈ uuid_of <$> operators s').
    { intros x (o & -> & Ho)%list_elem_of_fmap Hne. rewrite Hops.
      apply list_elem_of_fmap_2. by apply list_elem_of_filter. }
    intros c x (Hc & Hx & [Hcx | [Hcu Hux]])%Hedge.
    + destruct (Hends c x Hcx). split; by apply Hkept.
    + destruct (Hends c u Hcu). destruct (Hends u x Hux). split; by apply Hkept.
Qed.

(** X17. Every accepted request keeps the stored graph well formed: after
    any sequence of accepted create, update and delete requests on a well
    formed store, both tables still respect their primary key, new
    identifiers are still unused, no operator has a dependency twice, every
    edge joins two existing operators and there is no cycle. *)
Theorem accepted_requests_keep_well_formed (rs : list request) (s s' : Store) :
  well_formed s → accepted_run s rs s' → well_formed s'.
Proof.
  intros Hwf Hrun. induction Hrun as [s | s r s1 rs s2 Hstep _ IH]; [done|].
  apply IH. destruct r as [p e t ps ds x y | u p e ds kw | u p e]; simpl in Hstep.
  - destruct (create_operator p e t ps ds x y s) as [[d|err] s0] eqn:Hc; [|done].
    injection Hstep as <-. by eapply create_operator_well_formed.
  - destruct (update_operator u p e ds kw s) as [[d|err] s0] eqn:Hc; [|done].
    injection Hstep as <-. by eapply update_operator_well_formed.
  - destruct (delete_operator u p e s) as [[d|err] s0] eqn:Hc; [|done].
    injection Hstep as <-. by eapply delete_operator_well_formed.
Qed.

Lemma example_store_well_formed : well_formed example_store.
Proof.
  split_and!.
  - unfold operator_keys_unique. compute_done.
  - unfold dependency_keys_unique. compute_done.
  - exact example_store_seed_fresh.
  - apply no_duplicate_target_intro. compute_done.
  - intros x y (r & Hr & <- & <-)%elem_of_dependencies_of.
    apply list_elem_of_singleton in Hr as ->. split; compute_done.
  - exact example_store_acyclic.
Qed.

Lemma accepted_requests_keep_well_formed_witness :
  ∃ s', accepted_run example_store example_requests s' ∧ well_formed s'.
Proof.
  destruct (run_requests example_requests example_store) as [s'|] eqn:Hrun;
    [|by vm_compute in Hrun].
  apply run_requests_accepted in Hrun. exists s'. split; [exact Hrun|].
  exact (accepted_requests_keep_well_formed example_requests example_store s'
           example_store_well_formed Hrun).
Defined.

(** ** Creating and deleting *)

Lemma create_operator_checks_exist (project_id experiment_id : uuid) (task_id : pyval)
    (parameters : option pyval) (deps : option deps_payload) (s : Store)
    (r : uuid * list (string * pyval) * list uuid) :
  create_operator_checks project_id experiment_id task_id parameters deps s = Ok r →
  project_id ∈ projects s ∧ experiment_id ∈ experiments s.
Proof.
  unfold create_operator_checks, raise_if_project_does_not_exist,
    raise_if_experiment_does_not_exist.
  destruct (decide (project_id ∈ projects s)) as [Hp | Hp];
    [|by rewrite (bool_decide_eq_false_2 _ Hp)].
  destruct (decide (experiment_id ∈ experiments s)) as [He | He]; [done|].
  by rewrite (bool_decide_eq_true_2 _ Hp), (bool_decide_eq_false_2 _ He).
Qed.

Lemma find_app_skip {A : Type} (f : A → bool) (l1 l2 : list A) :
  (∀ x, x ∈ l1 → f x = false) → find f (l1 ++ l2) = find f l2.
Proof.
  intros Hnone. induction l1 as [|x l1 IH]; simpl; [done|].
  rewrite (Hnone x) by by left. apply IH. intros y Hy. apply Hnone. by right.
Qed.

(** The store an accepted creation leaves. *)
Lemma create_operator_store (project_id experiment_id : uuid) (task_id : pyval)
    (parameters : option pyval) (deps : option deps_payload)
    (position_x position_y : pyval) (s s' : Store) (d : operator_dict) :
  seed_fresh s →
  create_operator project_id experiment_id task_id parameters deps
    position_x position_y s = (Ok d, s') →
  project_id ∈ projects s ∧ experiment_id ∈ experiments s ∧
  uuid_of (od_operator d) = uuid_alpha (uuid_seed s) ∧
  NoDup (od_dependencies d) ∧
  (∀ x, x ∈ od_dependencies d → x ∈ experiment_uuids experiment_id s) ∧
  s' = with_dependencies (add_operator (od_operator d) s)
         (dependencies s
            ++ created_rows (uuid_alpha (uuid_seed s)) (S (uuid_seed s))
                 (od_dependencies d))
         (S (uuid_seed s) + length (od_dependencies d)).
Proof.
  intros Hfresh. unfold create_operator.
  destruct (create_operator_checks _ _ _ _ _ _) as [[[task ps] ds]|e] eqn:Hchecks;
    [|done].
  destruct (create_operator_checks_exist _ _ _ _ _ _ _ Hchecks) as [Hp He].
  apply create_operator_checks_Ok in Hchecks as (_ & Hds & Hvalid).
  apply validation_Ok_list in Hvalid as (_ & Hnodup & Hmem & _ & _).
  rewrite <- Hds in Hnodup, Hmem.
  set (n := uuid_alpha (uuid_seed s)).
  set (o := mkOperator n experiment_id task ps position_x position_y).
  destruct (check_status o (add_operator o s)) as [st|]; [|done].
  intros [= <- <-]. cbn [od_operator od_dependencies uuid_of o].
  assert (Hn : n ∉ ids_in_use s) by (apply Hfresh; lia).
  assert (Hsrc : ∀ r, r ∈ dependencies s → dep_operator_id r ≠ n).
  { intros r Hr Heq. apply Hn, elem_of_ids_in_use. right. exists r. eauto. }
  assert (Hnone : list_dependencies n (add_operator o s) = []).
  { unfold list_dependencies. simpl. apply filter_none. intros r Hr. by apply Hsrc. }
  assert (Hadd : dependencies_to_add n ds (add_operator o s) = ds).
  { unfold dependencies_to_add, dependencies_of. rewrite Hnone. simpl.
    apply filter_all. intros x _. apply not_elem_of_nil. }
  assert (Hdel : deleted_keys n ds (add_operator o s) = []).
  { unfold deleted_keys, dependencies_to_delete, dependencies_of. by rewrite Hnone. }
  split_and!; [done | done | done | done | by intros x Hx; apply Hmem |].
  rewrite update_dependencies_store, Hadd, Hdel. simpl. f_equal.
  apply filter_all. intros x _. apply not_elem_of_nil.
Qed.

(** X18. Deleting an operator right after it was created undoes the
    creation: in a store whose new identifiers are unused, the deletion of
    the operator returned by an accepted [create_operator] succeeds and
    leaves the operators and the dependency rows exactly as they were
    before the creation; only the source of new identifiers has advanced. *)
Theorem create_then_delete (project_id experiment_id : uuid) (task_id : pyval)
    (parameters : option pyval) (deps : option deps_payload)
    (position_x position_y : pyval) (s s1 : Store) (d : operator_dict) :
  seed_fresh s →
  create_operator project_id experiment_id task_id parameters deps
    position_x position_y s = (Ok d, s1) →
  ∃ s2,
    delete_operator (uuid_of (od_operator d)) project_id experiment_id s1
    = (Ok "Operator deleted", s2) ∧
    operators s2 = operators s ∧ dependencies s2 = dependencies s ∧
    tasks s2 = tasks s ∧ projects s2 = projects s ∧ experiments s2 = experiments s ∧
    uuid_seed s < uuid_seed s2.
Proof.
  intros Hfresh Hrun.
  destruct (create_operator_store _ _ _ _ _ _ _ _ _ _ Hfresh Hrun)
    as (Hp & He & Hid & Hnodup & Hmem & Hs1).
  destruct d as [o st ds]. cbn [od_operator od_dependencies] in *.
  set (n := uuid_alpha (uuid_seed s)) in *. rewrite Hid.
  set (C := created_rows n (S (uuid_seed s)) ds) in *.
  assert (Hn : n ∉ ids_in_use s) by (apply Hfresh; lia).
  assert (Hold : ∀ r, r ∈ dependencies s → dep_operator_id r ≠ n ∧ dep_dependency r ≠ n).
  { intros r Hr. split; intros Heq; apply Hn, elem_of_ids_in_use; right; exists r; eauto. }
  assert (Hnew : ∀ r, r ∈ C → dep_operator_id r = n ∧ dep_dependency r ∈ ds
                               ∧ ∃ k, uuid_seed s ≤ k ∧ dep_uuid r = uuid_alpha k).
  { intros r Hr. split; [by eapply created_rows_sources|].
    apply elem_of_created_rows in Hr as (k & x & Hk1 & Hk2 & Hx & ->). simpl. split.
    - by eapply list_elem_of_lookup_2.
    - exists k. split; [lia | done]. }
  assert (Hds : ∀ x, x ∈ ds → x ≠ n).
  { intros x Hx ->. apply Hn. eapply experiment_uuids_in_use. by apply Hmem. }
  assert (Hrows1 : dependencies s1 = dependencies s ++ C) by (by rewrite Hs1).
  assert (Hops1 : operators s1 = operators s ++ [o]) by (by rewrite Hs1).
  assert (Hget : get_operator n s1 = Some o).
  { unfold get_operator. rewrite Hops1, find_app_skip.
    - simpl. by rewrite bool_decide_eq_true_2.
    - intros x Hx. apply bool_decide_eq_false_2. intros Heq.
      apply Hn, elem_of_ids_in_use. left. rewrite <- Heq. by apply list_elem_of_fmap_2. }
  assert (Hlist : list_dependencies n s1 = C).
  { unfold list_dependencies. rewrite Hrows1, filter_app.
    rewrite (filter_none _ (dependencies s)) by (intros r Hr; by apply Hold).
    rewrite filter_all by (intros r Hr; by apply Hnew). done. }
  assert (Hof : dependencies_of n s1 = ds).
  { unfold dependencies_of. rewrite Hlist. apply created_rows_targets. }
  assert (Hnext : list_next_operators n s1 = []).
  { unfold list_next_operators. rewrite filter_none; [done|].
    intros r Hr. rewrite Hrows1 in Hr. apply elem_of_app in Hr as [Hr | Hr].
    - by apply Hold.
    - destruct (Hnew r Hr) as (_ & Hin & _). intros Heq. apply (Hds _ Hin). done. }
  assert (Hsync : update_dependencies n [] s1
                  = with_dependencies s1 (dependencies s) (uuid_seed s1)).
  { rewrite update_dependencies_store. unfold dependencies_to_add. simpl.
    rewrite app_nil_r, Nat.add_0_r. f_equal.
    rewrite Hrows1, filter_app.
    rewrite (filter_all _ (dependencies s)), (filter_none _ C), app_nil_r; [done | |].
    - intros r Hr Hkeep. apply Hkeep.
      apply (deleted_keys_complete n [] s1 r).
      + unfold no_duplicate_target. by rewrite Hof.
      + rewrite Hrows1. apply elem_of_app. by right.
      + by apply Hnew.
      + apply not_elem_of_nil.
    - intros r Hr Hin.
      apply elem_of_deleted_keys in Hin as (r' & Hr' & Hsrc & Hkey & _).
      rewrite Hrows1 in Hr'. apply elem_of_app in Hr' as [Hr' | Hr'].
      + by destruct (Hold r' Hr').
      + destruct (Hnew r' Hr') as (_ & _ & k & Hk & Hk').
        apply (seed_fresh_key s k r Hfresh Hk Hr). congruence. }
  unfold delete_operator, raise_if_project_does_not_exist,
    raise_if_experiment_does_not_exist.
  assert (Hp1 : project_id ∈ projects s1) by (by rewrite Hs1).
  assert (He1 : experiment_id ∈ experiments s1) by (by rewrite Hs1).
  rewrite !bool_decide_eq_true_2 by done. cbn [mbind result_bind].
  rewrite Hget. cbn [mbind result_bind]. unfold as_dict_dependencies, delete_dependencies.
  rewrite Hid, Hnext. cbn [delete_dependencies_loop]. rewrite Hsync.
  eexists. split; [reflexivity|].
  assert (Hkeep : filter (λ x, uuid_of x ≠ n) (operators s) = operators s).
  { apply filter_all. intros x Hx Heq. apply Hn, elem_of_ids_in_use. left.
    rewrite <- Heq. by apply list_elem_of_fmap_2. }
  assert (Hdrop : filter (λ x, uuid_of x ≠ n) [o] = []).
  { apply filter_none. intros x ->%list_elem_of_singleton Hne. by apply Hne. }
  simpl. rewrite Hops1, filter_app, Hkeep, Hdrop, app_nil_r.
  rewrite Hs1. simpl. split_and!; try done. lia.
Qed.

Lemma create_then_delete_witness :
  ∃ d s1 s2,
    create_operator "P" "E" (PStr "T") None
      (Some (DepList [uuid_alpha 2; uuid_alpha 0])) PNone PNone example_store
    = (Ok d, s1) ∧
    delete_operator (uuid_of (od_operator d)) "P" "E" s1 = (Ok "Operator deleted", s2) ∧
    operators s2 = operators example_store ∧
    dependencies s2 = dependencies example_store.
Proof.
  destruct (create_operator "P" "E" (PStr "T") None
              (Some (DepList [uuid_alpha 2; uuid_alpha 0])) PNone PNone example_store)
    as [r s1] eqn:Hrun.
  assert (Hr : ∃ d, r = Ok d).
  { assert (is_ok r = true) as Hok; [|destruct r; [eauto | done]].
    by vm_compute in Hrun; injection Hrun as <- _. }
  destruct Hr as [d ->].
  destruct (create_then_delete "P" "E" (PStr "T") None
              (Some (DepList [uuid_alpha 2; uuid_alpha 0])) PNone PNone
              example_store s1 d example_store_seed_fresh Hrun)
    as (s2 & Hdel & Hops & Hrows & _).
  by exists d, s1, s2.
Defined.

(** ** Repeating a request *)















